(** * hw3_game_store: the distribution and session core, embedded in Rocq

    The development follows the server sources:
    - [Store]      server/database/db_manager.py   (DatabaseManager)
    - [Supervisor] server/game_server_manager.py   (GameServerManager)
    - [Lobby]      server/lobby_server.py          (LobbyServer)
    - [Developer]  server/developer_server.py      (DeveloperServer)
    - [Json], [Protocol]  server/protocol.py       (Message, MessageType)

    Tables are lists of rows in insertion order, in-memory dictionaries are
    [gmap]s, Python integers are [Z], and a call that may raise returns an
    [option] or a sum.  Time stamps are not modelled; where the source asks
    the clock, the answer is an argument of the operation. *)

From stdpp Require Import gmap strings list pretty sorting.
From Stdlib Require Import QArith.
From Stdlib.Strings Require Import Byte.
From Stdlib Require DecimalFacts DecimalPos DecimalN DecimalZ.

Local Open Scope Z_scope.

(** ** JSON text (the json module of the Python library) *)

Module Json.

Local Open Scope N_scope.

(** A Python [str]: its code points. *)
Abbreviation py_str := (list N).

Definition of_string (s : string) : py_str :=
  Ascii.N_of_ascii <$> String.list_ascii_of_string s.

(** The values [json.dumps] and [json.loads] exchange: [None], [bool],
    [int], [str], [list] and [dict] with [str] keys, a [dict] as the
    sequence of its items.  A [float] is not among them. *)
#[local] Unset Elimination Schemes.
Inductive json :=
| Null
| Bool (b : bool)
| Int (z : Z)
| Str (s : py_str)
| List (items : list json)
| Dict (items : list (py_str * json)).
#[local] Set Elimination Schemes.

(** *** Python integers in decimal *)

Fixpoint print_uint (u : Decimal.uint) : py_str :=
  match u with
  | Decimal.Nil => []
  | Decimal.D0 u => 48 :: print_uint u
  | Decimal.D1 u => 49 :: print_uint u
  | Decimal.D2 u => 50 :: print_uint u
  | Decimal.D3 u => 51 :: print_uint u
  | Decimal.D4 u => 52 :: print_uint u
  | Decimal.D5 u => 53 :: print_uint u
  | Decimal.D6 u => 54 :: print_uint u
  | Decimal.D7 u => 55 :: print_uint u
  | Decimal.D8 u => 56 :: print_uint u
  | Decimal.D9 u => 57 :: print_uint u
  end.

(** [int.__repr__]. *)
Definition repr_int (z : Z) : py_str :=
  match Z.to_int z with
  | Decimal.Pos u => print_uint u
  | Decimal.Neg u => 45 :: print_uint u
  end.

Definition is_digit (c : N) : bool := (48 <=? c) && (c <=? 57).

Definition push_digit (c : N) (u : Decimal.uint) : Decimal.uint :=
  match c - 48 with
  | 0 => Decimal.D0 u
  | 1 => Decimal.D1 u
  | 2 => Decimal.D2 u
  | 3 => Decimal.D3 u
  | 4 => Decimal.D4 u
  | 5 => Decimal.D5 u
  | 6 => Decimal.D6 u
  | 7 => Decimal.D7 u
  | 8 => Decimal.D8 u
  | _ => Decimal.D9 u
  end.

(** The longest run of digits at the head of the text. *)
Fixpoint read_uint (s : py_str) : Decimal.uint * py_str :=
  match s with
  | c :: r =>
      if is_digit c then
        let '(u, r') := read_uint r in (push_digit c u, r')
      else (Decimal.Nil, s)
  | [] => (Decimal.Nil, [])
  end.

(** *** Strings *)

Definition hexdigit (d : N) : N := if d <? 10 then 48 + d else 87 + d.

(** ['{0:04x}'.format(n)] for [n < 0x10000]. *)
Definition hex4 (n : N) : py_str :=
  [hexdigit (n / 4096 mod 16); hexdigit (n / 256 mod 16);
   hexdigit (n / 16 mod 16); hexdigit (n mod 16)].

(** The replacement [encode_basestring_ascii] makes for one character. *)
Definition escape_char (c : N) : py_str :=
  if c =? 34 then [92; 34]
  else if c =? 92 then [92; 92]
  else if c =? 10 then [92; 110]
  else if c =? 13 then [92; 114]
  else if c =? 9 then [92; 116]
  else if c =? 12 then [92; 102]
  else if c =? 8 then [92; 98]
  else if (32 <=? c) && (c <=? 126) then [c]
  else if c <? 0x10000 then [92; 117] ++ hex4 c
  else
    let n := c - 0x10000 in
    let s1 := N.lor 0xd800 (N.land (N.shiftr n 10) 0x3ff) in
    let s2 := N.lor 0xdc00 (N.land n 0x3ff) in
    [92; 117] ++ hex4 s1 ++ [92; 117] ++ hex4 s2.

Definition encode_basestring_ascii (s : py_str) : py_str :=
  [34] ++ (s ≫= escape_char) ++ [34].

Definition hexval (c : N) : option N :=
  if (48 <=? c) && (c <=? 57) then Some (c - 48)
  else if (97 <=? c) && (c <=? 102) then Some (c - 87)
  else if (65 <=? c) && (c <=? 70) then Some (c - 55)
  else None.

(** [_decode_uXXXX] on four characters: their json as hexadecimal digits. *)
Definition decode_uXXXX (h1 h2 h3 h4 : N) : option N :=
  a ← hexval h1; b ← hexval h2; c ← hexval h3; d ← hexval h4;
  Some (((a * 16 + b) * 16 + c) * 16 + d).

(** The [BACKSLASH] table. *)
Definition backslash (e : N) : option N :=
  if e =? 34 then Some 34
  else if e =? 92 then Some 92
  else if e =? 47 then Some 47
  else if e =? 98 then Some 8
  else if e =? 102 then Some 12
  else if e =? 110 then Some 10
  else if e =? 114 then Some 13
  else if e =? 116 then Some 9
  else None.

Definition prepend (c : N) (r : option (py_str * py_str)) : option (py_str * py_str) :=
  '(s, rest) ← r; Some (c :: s, rest).

(** [py_scanstring] in strict mode, from the character after the opening
    quote: the string and the text after the closing quote. *)
Fixpoint scanstring (s : py_str) : option (py_str * py_str) :=
  match s with
  | [] => None
  | c :: r =>
      if c =? 34 then Some ([], r)
      else if c =? 92 then
        match r with
        | [] => None
        | e :: r1 =>
            if e =? 117 then
              match r1 with
              | h1 :: h2 :: h3 :: h4 :: r2 =>
                  match decode_uXXXX h1 h2 h3 h4 with
                  | None => None
                  | Some uni =>
                      if (0xd800 <=? uni) && (uni <=? 0xdbff) then
                        match r2 with
                        | b1 :: b2 :: r3 =>
                            if (b1 =? 92) && (b2 =? 117) then
                              match r3 with
                              | k1 :: k2 :: k3 :: k4 :: r4 =>
                                  match decode_uXXXX k1 k2 k3 k4 with
                                  | None => None
                                  | Some uni2 =>
                                      if (0xdc00 <=? uni2) && (uni2 <=? 0xdfff) then
                                        prepend
                                          (0x10000 + N.lor (N.shiftl (uni - 0xd800) 10)
                                                           (uni2 - 0xdc00))
                                          (scanstring r4)
                                      else prepend uni (scanstring r2)
                                  end
                              | _ => None
                              end
                            else prepend uni (scanstring r2)
                        | _ => prepend uni (scanstring r2)
                        end
                      else prepend uni (scanstring r2)
                  end
              | _ => None
              end
            else
              match backslash e with
              | Some ch => prepend ch (scanstring r1)
              | None => None
              end
        end
      else if c <? 32 then None
      else prepend c (scanstring r)
  end.

(** A Unicode scalar value: a code point that is no surrogate. *)
Definition scalar (c : N) : Prop := c < 0xd800 ∨ (0xe000 ≤ c ∧ c < 0x110000).

(** *** [json.dumps] with the default separators and [ensure_ascii] *)

Definition join (sep : py_str) (parts : list py_str) : py_str :=
  match parts with
  | [] => []
  | p :: ps => p ++ (ps ≫= λ q, sep ++ q)
  end.

Fixpoint dumps (v : json) : py_str :=
  match v with
  | Null => of_string "null"
  | Bool true => of_string "true"
  | Bool false => of_string "false"
  | Int z => repr_int z
  | Str s => encode_basestring_ascii s
  | List items => [91] ++ join [44; 32] (dumps <$> items) ++ [93]
  | Dict items =>
      [123]
      ++ join [44; 32]
           ((λ kv, encode_basestring_ascii kv.1 ++ [58; 32] ++ dumps kv.2) <$> items)
      ++ [125]
  end.

(** *** [json.loads] *)

Definition is_ws (c : N) : bool :=
  (c =? 32) || (c =? 9) || (c =? 10) || (c =? 13).

Fixpoint skip_ws (s : py_str) : py_str :=
  match s with
  | c :: r => if is_ws c then skip_ws r else s
  | [] => []
  end.

(** The number at the head of the text, after [NUMBER_RE]: an optional
    minus sign, then [0] or a run of digits that starts with [1-9].  A
    fraction or an exponent makes the number a [float], which the model
    does not hold: [None]. *)
Definition scan_int (s : py_str) : option (Decimal.uint * py_str) :=
  match s with
  | c :: r =>
      if c =? 48 then Some (Decimal.D0 Decimal.Nil, r)
      else if is_digit c then Some (read_uint s)
      else None
  | [] => None
  end.

Definition float_follows (s : py_str) : bool :=
  match s with
  | c :: _ => (c =? 46) || (c =? 101) || (c =? 69)
  | [] => false
  end.

Definition scan_number (s : py_str) : option (Z * py_str) :=
  match s with
  | c :: r =>
      if c =? 45 then
        '(u, rest) ← scan_int r;
        if float_follows rest then None else Some (Z.of_int (Decimal.Neg u), rest)
      else
        '(u, rest) ← scan_int s;
        if float_follows rest then None else Some (Z.of_int (Decimal.Pos u), rest)
  | [] => None
  end.

Definition starts_with (p s : py_str) : option py_str :=
  if bool_decide (take (length p) s = p) then Some (drop (length p) s) else None.

(** [dict(pairs)]: a later item with a key already present replaces the
    json in place. *)
Fixpoint dict_set (k : py_str) (v : json) (d : list (py_str * json))
  : list (py_str * json) :=
  match d with
  | [] => [(k, v)]
  | (k', v') :: d' =>
      if decide (k' = k) then (k, v) :: d' else (k', v') :: dict_set k v d'
  end.

Definition dict_of_pairs (pairs : list (py_str * json)) : list (py_str * json) :=
  foldl (λ d kv, dict_set kv.1 kv.2 d) [] pairs.

(** [scan_once], [JSONArray] and [JSONObject]; the fuel bounds the number
    of calls, and [loads] supplies more than the text can use. *)
Fixpoint scan_once (fuel : nat) (s : py_str) : option (json * py_str) :=
  match fuel with
  | O => None
  | S fuel =>
      match s with
      | [] => None
      | c :: r =>
          if c =? 34 then '(str, rest) ← scanstring r; Some (Str str, rest)
          else if c =? 123 then
            match skip_ws r with
            | c1 :: r1 =>
                if c1 =? 125 then Some (Dict [], r1)
                else '(pairs, rest) ← scan_members fuel (c1 :: r1);
                     Some (Dict (dict_of_pairs pairs), rest)
            | [] => None
            end
          else if c =? 91 then
            match skip_ws r with
            | c1 :: r1 =>
                if c1 =? 93 then Some (List [], r1)
                else '(items, rest) ← scan_items fuel (c1 :: r1);
                     Some (List items, rest)
            | [] => None
            end
          else if c =? 110 then rest ← starts_with (of_string "null") s; Some (Null, rest)
          else if c =? 116 then rest ← starts_with (of_string "true") s; Some (Bool true, rest)
          else if c =? 102 then rest ← starts_with (of_string "false") s; Some (Bool false, rest)
          else '(z, rest) ← scan_number s; Some (Int z, rest)
      end
  end
with scan_items (fuel : nat) (s : py_str) : option (list json * py_str) :=
  match fuel with
  | O => None
  | S fuel =>
      '(v, rest) ← scan_once fuel s;
      match skip_ws rest with
      | c :: r =>
          if c =? 93 then Some ([v], r)
          else if c =? 44 then
            '(vs, rest') ← scan_items fuel (skip_ws r); Some (v :: vs, rest')
          else None
      | [] => None
      end
  end
with scan_members (fuel : nat) (s : py_str) : option (list (py_str * json) * py_str) :=
  match fuel with
  | O => None
  | S fuel =>
      match s with
      | c :: r =>
          if c =? 34 then
            '(key, rest) ← scanstring r;
            match skip_ws rest with
            | c1 :: r1 =>
                if c1 =? 58 then
                  '(v, rest1) ← scan_once fuel (skip_ws r1);
                  match skip_ws rest1 with
                  | c2 :: r2 =>
                      if c2 =? 125 then Some ([(key, v)], r2)
                      else if c2 =? 44 then
                        '(kvs, rest2) ← scan_members fuel (skip_ws r2);
                        Some ((key, v) :: kvs, rest2)
                      else None
                  | [] => None
                  end
                else None
            | [] => None
            end
          else None
      | [] => None
      end
  end.

(** [json.loads]: leading white space, one json, trailing white space,
    then the end of the text. *)
Definition loads (s : py_str) : option json :=
  '(v, rest) ← scan_once (S (length s)) (skip_ws s);
  match skip_ws rest with
  | [] => Some v
  | _ => None
  end.

(** *** What the round trip is stated over *)

(** The values [dumps] writes and [loads] reads back unchanged: the text
    of every string is made of scalar values, and the keys of a [dict] are
    distinct (as the keys of a Python [dict] are). *)
#[local] Unset Elimination Schemes.
Inductive serializable : json → Prop :=
| ser_null : serializable Null
| ser_bool b : serializable (Bool b)
| ser_int z : serializable (Int z)
| ser_str s : Forall scalar s → serializable (Str s)
| ser_list items : Forall serializable items → serializable (List items)
| ser_dict items :
    NoDup items.*1 →
    Forall (λ kv, Forall scalar kv.1 ∧ serializable kv.2) items →
    serializable (Dict items).
#[local] Set Elimination Schemes.

(** The text after a value inside a document: nothing, or a comma, or a
    closing bracket or brace. *)
Definition delimited (rest : py_str) : Prop :=
  match rest with
  | [] => True
  | c :: _ => c = 44 ∨ c = 93 ∨ c = 125
  end.

(** The first character of a document: no white space and no closing
    bracket or brace. *)
Definition opener (c : N) : Prop :=
  is_ws c = false ∧ c ≠ 93 ∧ c ≠ 125.

(** Calls of the scanner a value takes: one for the value and one more
    for each of its items. *)
Fixpoint weight (v : json) : nat :=
  match v with
  | List items => S (foldr (λ x n, S (weight x + n)) O items)
  | Dict items => S (foldr (λ kv n, S (weight kv.2 + n)) O items)
  | _ => 1
  end.

End Json.

(** ** The frame codec (protocol.py) *)

Module Protocol.
Import Json.
Local Open Scope N_scope.

(** *** [MessageType] *)

Inductive MessageType :=
  | AUTH_REQUEST | AUTH_RESPONSE | REGISTER_REQUEST | REGISTER_RESPONSE
  | LOGOUT | GAME_LIST_REQUEST | GAME_LIST_RESPONSE | GAME_DETAIL_REQUEST
  | GAME_DETAIL_RESPONSE | SEARCH_GAMES | DOWNLOAD_REQUEST | DOWNLOAD_META
  | DOWNLOAD_CHUNK | DOWNLOAD_COMPLETE | CHECK_UPDATE | UPDATE_AVAILABLE
  | CREATE_ROOM | ROOM_CREATED | JOIN_ROOM | ROOM_JOINED
  | LEAVE_ROOM | ROOM_LIST_REQUEST | ROOM_LIST_RESPONSE | START_GAME_REQUEST
  | GAME_STARTED | ROOM_UPDATE | SUBMIT_REVIEW | REVIEW_SUBMITTED
  | GET_REVIEWS | REVIEWS_RESPONSE | UPLOAD_START | UPLOAD_READY
  | UPLOAD_CHUNK | UPLOAD_COMPLETE | UPLOAD_SUCCESS | UPDATE_GAME
  | UPDATE_SUCCESS | REMOVE_GAME | REMOVE_SUCCESS | MY_GAMES_REQUEST
  | MY_GAMES_RESPONSE | PLUGIN_LIST_REQUEST | PLUGIN_LIST_RESPONSE | PLUGIN_DOWNLOAD
  | PLUGIN_MESSAGE | ERROR | SUCCESS | HEARTBEAT.

#[global] Instance MessageType_eq_dec : EqDecision MessageType.
Proof. solve_decision. Defined.

(** The value of each member, as the class body assigns it. *)
Definition value (t : MessageType) : N :=
  match t with
  | AUTH_REQUEST => 0x0001
  | AUTH_RESPONSE => 0x0002
  | REGISTER_REQUEST => 0x0003
  | REGISTER_RESPONSE => 0x0004
  | LOGOUT => 0x0005
  | GAME_LIST_REQUEST => 0x0101
  | GAME_LIST_RESPONSE => 0x0102
  | GAME_DETAIL_REQUEST => 0x0103
  | GAME_DETAIL_RESPONSE => 0x0104
  | SEARCH_GAMES => 0x0105
  | DOWNLOAD_REQUEST => 0x0201
  | DOWNLOAD_META => 0x0202
  | DOWNLOAD_CHUNK => 0x0203
  | DOWNLOAD_COMPLETE => 0x0204
  | CHECK_UPDATE => 0x0205
  | UPDATE_AVAILABLE => 0x0206
  | CREATE_ROOM => 0x0301
  | ROOM_CREATED => 0x0302
  | JOIN_ROOM => 0x0303
  | ROOM_JOINED => 0x0304
  | LEAVE_ROOM => 0x0305
  | ROOM_LIST_REQUEST => 0x0306
  | ROOM_LIST_RESPONSE => 0x0307
  | START_GAME_REQUEST => 0x0308
  | GAME_STARTED => 0x0309
  | ROOM_UPDATE => 0x030a
  | SUBMIT_REVIEW => 0x0401
  | REVIEW_SUBMITTED => 0x0402
  | GET_REVIEWS => 0x0403
  | REVIEWS_RESPONSE => 0x0404
  | UPLOAD_START => 0x0501
  | UPLOAD_READY => 0x0502
  | UPLOAD_CHUNK => 0x0503
  | UPLOAD_COMPLETE => 0x0504
  | UPLOAD_SUCCESS => 0x0505
  | UPDATE_GAME => 0x0506
  | UPDATE_SUCCESS => 0x0507
  | REMOVE_GAME => 0x0508
  | REMOVE_SUCCESS => 0x0509
  | MY_GAMES_REQUEST => 0x050a
  | MY_GAMES_RESPONSE => 0x050b
  | PLUGIN_LIST_REQUEST => 0x0601
  | PLUGIN_LIST_RESPONSE => 0x0602
  | PLUGIN_DOWNLOAD => 0x0603
  | PLUGIN_MESSAGE => 0x0604
  | ERROR => 0x00ff
  | SUCCESS => 0x00fe
  | HEARTBEAT => 0x00fd
  end.

Definition members : list MessageType :=
  [AUTH_REQUEST; AUTH_RESPONSE; REGISTER_REQUEST; REGISTER_RESPONSE;
   LOGOUT; GAME_LIST_REQUEST; GAME_LIST_RESPONSE; GAME_DETAIL_REQUEST;
   GAME_DETAIL_RESPONSE; SEARCH_GAMES; DOWNLOAD_REQUEST; DOWNLOAD_META;
   DOWNLOAD_CHUNK; DOWNLOAD_COMPLETE; CHECK_UPDATE; UPDATE_AVAILABLE;
   CREATE_ROOM; ROOM_CREATED; JOIN_ROOM; ROOM_JOINED;
   LEAVE_ROOM; ROOM_LIST_REQUEST; ROOM_LIST_RESPONSE; START_GAME_REQUEST;
   GAME_STARTED; ROOM_UPDATE; SUBMIT_REVIEW; REVIEW_SUBMITTED;
   GET_REVIEWS; REVIEWS_RESPONSE; UPLOAD_START; UPLOAD_READY;
   UPLOAD_CHUNK; UPLOAD_COMPLETE; UPLOAD_SUCCESS; UPDATE_GAME;
   UPDATE_SUCCESS; REMOVE_GAME; REMOVE_SUCCESS; MY_GAMES_REQUEST;
   MY_GAMES_RESPONSE; PLUGIN_LIST_REQUEST; PLUGIN_LIST_RESPONSE; PLUGIN_DOWNLOAD;
   PLUGIN_MESSAGE; ERROR; SUCCESS; HEARTBEAT].

(** [MessageType.name]. *)
Definition name (t : MessageType) : string :=
  match t with
  | AUTH_REQUEST => "AUTH_REQUEST"
  | AUTH_RESPONSE => "AUTH_RESPONSE"
  | REGISTER_REQUEST => "REGISTER_REQUEST"
  | REGISTER_RESPONSE => "REGISTER_RESPONSE"
  | LOGOUT => "LOGOUT"
  | GAME_LIST_REQUEST => "GAME_LIST_REQUEST"
  | GAME_LIST_RESPONSE => "GAME_LIST_RESPONSE"
  | GAME_DETAIL_REQUEST => "GAME_DETAIL_REQUEST"
  | GAME_DETAIL_RESPONSE => "GAME_DETAIL_RESPONSE"
  | SEARCH_GAMES => "SEARCH_GAMES"
  | DOWNLOAD_REQUEST => "DOWNLOAD_REQUEST"
  | DOWNLOAD_META => "DOWNLOAD_META"
  | DOWNLOAD_CHUNK => "DOWNLOAD_CHUNK"
  | DOWNLOAD_COMPLETE => "DOWNLOAD_COMPLETE"
  | CHECK_UPDATE => "CHECK_UPDATE"
  | UPDATE_AVAILABLE => "UPDATE_AVAILABLE"
  | CREATE_ROOM => "CREATE_ROOM"
  | ROOM_CREATED => "ROOM_CREATED"
  | JOIN_ROOM => "JOIN_ROOM"
  | ROOM_JOINED => "ROOM_JOINED"
  | LEAVE_ROOM => "LEAVE_ROOM"
  | ROOM_LIST_REQUEST => "ROOM_LIST_REQUEST"
  | ROOM_LIST_RESPONSE => "ROOM_LIST_RESPONSE"
  | START_GAME_REQUEST => "START_GAME_REQUEST"
  | GAME_STARTED => "GAME_STARTED"
  | ROOM_UPDATE => "ROOM_UPDATE"
  | SUBMIT_REVIEW => "SUBMIT_REVIEW"
  | REVIEW_SUBMITTED => "REVIEW_SUBMITTED"
  | GET_REVIEWS => "GET_REVIEWS"
  | REVIEWS_RESPONSE => "REVIEWS_RESPONSE"
  | UPLOAD_START => "UPLOAD_START"
  | UPLOAD_READY => "UPLOAD_READY"
  | UPLOAD_CHUNK => "UPLOAD_CHUNK"
  | UPLOAD_COMPLETE => "UPLOAD_COMPLETE"
  | UPLOAD_SUCCESS => "UPLOAD_SUCCESS"
  | UPDATE_GAME => "UPDATE_GAME"
  | UPDATE_SUCCESS => "UPDATE_SUCCESS"
  | REMOVE_GAME => "REMOVE_GAME"
  | REMOVE_SUCCESS => "REMOVE_SUCCESS"
  | MY_GAMES_REQUEST => "MY_GAMES_REQUEST"
  | MY_GAMES_RESPONSE => "MY_GAMES_RESPONSE"
  | PLUGIN_LIST_REQUEST => "PLUGIN_LIST_REQUEST"
  | PLUGIN_LIST_RESPONSE => "PLUGIN_LIST_RESPONSE"
  | PLUGIN_DOWNLOAD => "PLUGIN_DOWNLOAD"
  | PLUGIN_MESSAGE => "PLUGIN_MESSAGE"
  | ERROR => "ERROR"
  | SUCCESS => "SUCCESS"
  | HEARTBEAT => "HEARTBEAT"
  end.

(** [MessageType(n)]: the member with that value, if there is one. *)
Definition of_value (n : N) : option MessageType :=
  List.find (λ t, n =? value t) members.

(** *** Exceptions and results *)

Inductive exn :=
| ValueError (what : string)
| UnicodeEncodeError
| UnicodeDecodeError
| JSONDecodeError
| StructError
| IncompleteReadError
| ConnectionError.

#[global] Instance exn_eq_dec : EqDecision exn.
Proof. solve_decision. Defined.

(** The outcome of a call that may raise. *)
Abbreviation result := (sum exn).

#[global] Instance result_ret : MRet result := λ A x, inr x.
#[global] Instance result_bind : MBind result :=
  λ A B f x, match x with inl e => inl e | inr a => f a end.

Definition or_raise {A} (e : exn) (o : option A) : result A :=
  match o with Some a => inr a | None => inl e end.

(** *** [str.encode('utf-8')] and [bytes.decode('utf-8')] *)

Definition byte_of (n : N) : byte := default Byte.x00 (Byte.of_N n).

Definition is_surrogate (c : N) : bool := (0xd800 <=? c) && (c <=? 0xdfff).

Definition utf8_encode_char (c : N) : option (list N) :=
  if c <? 0x80 then Some [c]
  else if c <? 0x800 then Some [0xc0 + c / 64; 0x80 + c mod 64]
  else if c <? 0x10000 then
    if is_surrogate c then None
    else Some [0xe0 + c / 4096; 0x80 + c / 64 mod 64; 0x80 + c mod 64]
  else if c <? 0x110000 then
    Some [0xf0 + c / 262144; 0x80 + c / 4096 mod 64; 0x80 + c / 64 mod 64;
          0x80 + c mod 64]
  else None.

Fixpoint utf8_encode (s : py_str) : option (list byte) :=
  match s with
  | [] => Some []
  | c :: r =>
      bs ← utf8_encode_char c; rest ← utf8_encode r;
      Some ((byte_of <$> bs) ++ rest)
  end.

Definition continuation (n : N) : bool := (0x80 <=? n) && (n <? 0xc0).

Fixpoint utf8_decode (bs : list byte) : option py_str :=
  match bs with
  | [] => Some []
  | b0 :: r =>
      let n0 := Byte.to_N b0 in
      if n0 <? 0x80 then cons n0 <$> utf8_decode r
      else if n0 <? 0xc2 then None
      else if n0 <? 0xe0 then
        match r with
        | b1 :: r1 =>
            let n1 := Byte.to_N b1 in
            if continuation n1
            then cons ((n0 - 0xc0) * 64 + (n1 - 0x80)) <$> utf8_decode r1
            else None
        | _ => None
        end
      else if n0 <? 0xf0 then
        match r with
        | b1 :: b2 :: r2 =>
            let n1 := Byte.to_N b1 in
            let n2 := Byte.to_N b2 in
            let c := (n0 - 0xe0) * 4096 + (n1 - 0x80) * 64 + (n2 - 0x80) in
            if continuation n1 && continuation n2 && (0x800 <=? c)
               && negb (is_surrogate c)
            then cons c <$> utf8_decode r2
            else None
        | _ => None
        end
      else if n0 <? 0xf5 then
        match r with
        | b1 :: b2 :: b3 :: r3 =>
            let n1 := Byte.to_N b1 in
            let n2 := Byte.to_N b2 in
            let n3 := Byte.to_N b3 in
            let c := (n0 - 0xf0) * 262144 + (n1 - 0x80) * 4096
                     + (n2 - 0x80) * 64 + (n3 - 0x80) in
            if continuation n1 && continuation n2 && continuation n3
               && (0x10000 <=? c) && (c <? 0x110000)
            then cons c <$> utf8_decode r3
            else None
        | _ => None
        end
      else None
  end.

(** *** [struct.pack] and [struct.unpack], big-endian *)

(** ['>I']: an unsigned 32-bit integer. *)
Definition pack_I (n : N) : option (list byte) :=
  if n <? 2 ^ 32
  then Some [byte_of (n / 2 ^ 24); byte_of (n / 2 ^ 16 mod 256);
             byte_of (n / 2 ^ 8 mod 256); byte_of (n mod 256)]
  else None.

(** ['>H']: an unsigned 16-bit integer. *)
Definition pack_H (n : N) : option (list byte) :=
  if n <? 2 ^ 16 then Some [byte_of (n / 2 ^ 8); byte_of (n mod 256)] else None.

Definition unpack_I (b0 b1 b2 b3 : byte) : N :=
  Byte.to_N b0 * 2 ^ 24 + Byte.to_N b1 * 2 ^ 16 + Byte.to_N b2 * 2 ^ 8 + Byte.to_N b3.

Definition unpack_H (b0 b1 : byte) : N :=
  Byte.to_N b0 * 2 ^ 8 + Byte.to_N b1.

(** *** [Message] *)

Record Message := Msg {
  msg_type : MessageType;
  payload : json }.

(** [Message.serialize]: the header ['>IH'] of length and type, then the
    JSON text of the payload in UTF-8. *)
Definition serialize (m : Message) : result (list byte) :=
  let payload_json := dumps (payload m) in
  payload_bytes ← or_raise UnicodeEncodeError (utf8_encode payload_json);
  let length := N.of_nat (length payload_bytes) + 2 in
  h1 ← or_raise StructError (pack_I length);
  h2 ← or_raise StructError (pack_H (value (msg_type m)));
  mret (h1 ++ h2 ++ payload_bytes).

(** [Message.deserialize], on the bytes after the length prefix. *)
Definition deserialize (data : list byte) : result Message :=
  match data with
  | b0 :: b1 :: payload_data =>
      let msg_type := unpack_H b0 b1 in
      payload ←
        match payload_data with
        | [] => mret (Dict [])
        | _ =>
            text ← or_raise UnicodeDecodeError (utf8_decode payload_data);
            or_raise JSONDecodeError (loads text)
        end;
      ty ← or_raise (ValueError "not a valid MessageType") (of_value msg_type);
      mret (Msg ty payload)
  | _ => inl (ValueError "Data too short")
  end.

(** [StreamReader.readexactly(n)] on the bytes still to come. *)
Definition readexactly (n : N) (stream : list byte) : result (list byte * list byte) :=
  if (N.of_nat (length stream) <? n) then inl IncompleteReadError
  else mret (take (N.to_nat n) stream, drop (N.to_nat n) stream).

(** [Message.read_from_stream]: the message and the rest of the stream. *)
Definition read_from_stream (stream : list byte) : result (Message * list byte) :=
  '(header, rest) ← readexactly 4 stream;
  match header with
  | [b0; b1; b2; b3] =>
      let length := unpack_I b0 b1 b2 b3 in
      '(data, rest') ← readexactly length rest;
      m ← deserialize data;
      mret (m, rest')
  | _ => inl IncompleteReadError
  end.

(** [create_error_message(error_msg)], with the default code. *)
Definition create_error_message (error_msg : py_str) : Message :=
  Msg ERROR (Dict [(of_string "error", Str error_msg); (of_string "code", Int 500)]).

(** *** The session loop of [handle_client] *)

Section Session.
Context {St : Type}.
(** [handlers.get(msg.msg_type)]: a handler takes the payload and the
    server state, and gives the new state and the response, if any. *)
Context (handlers : MessageType → option (json → St → result (St * option Message))).

(** [process_message]. *)
Definition process_message (st : St) (msg : Message) : result (St * option Message) :=
  match handlers (msg_type msg) with
  | Some handler => handler (payload msg) st
  | None =>
      mret (st, Some (create_error_message
                        (of_string ("Unknown message type: " +:+ name (msg_type msg)))))
  end.

(** How a session went: the state it left, the messages it wrote, and the
    exception that ended its loop ([IncompleteReadError] when the peer
    closed the connection). *)
Record session := Session {
  final : St;
  written : list Message;
  ended_by : exn }.

Definition wrote (m : option Message) (s : session) : session :=
  Session (final s) (option_list m ++ written s) (ended_by s).

(** The [while True] loop; each turn reads at least the four bytes of a
    length prefix, so [S (length stream)] turns are never used up. *)
Fixpoint session_loop (fuel : nat) (st : St) (stream : list byte) : session :=
  match fuel with
  | O => Session st [] IncompleteReadError
  | S fuel =>
      match read_from_stream stream with
      | inl e => Session st [] e
      | inr (message, rest) =>
          match process_message st message with
          | inl e => Session st [] e
          | inr (st', response) =>
              match response with
              | Some r =>
                  match serialize r with
                  | inl e => Session st' [] e
                  | inr _ => wrote response (session_loop fuel st' rest)
                  end
              | None => session_loop fuel st' rest
              end
          end
      end
  end.

Definition handle_client (st : St) (stream : list byte) : session :=
  session_loop (S (length stream)) st stream.

End Session.

End Protocol.

(** ** SHA-256 (hashlib.sha256 of the Python library; FIPS 180-4) *)

Module Sha256.
Local Open Scope N_scope.

Definition w32 (x : N) : N := x mod 2 ^ 32.

Definition add32 (x y : N) : N := w32 (x + y).

Definition rotr (n x : N) : N :=
  w32 (N.lor (N.shiftr x n) (N.shiftl x (32 - n))).

Definition not32 (x : N) : N := N.lxor x (2 ^ 32 - 1).

Definition ch (x y z : N) : N := N.lxor (N.land x y) (N.land (not32 x) z).
Definition maj (x y z : N) : N :=
  N.lxor (N.lxor (N.land x y) (N.land x z)) (N.land y z).
Definition big_sigma0 (x : N) : N := N.lxor (N.lxor (rotr 2 x) (rotr 13 x)) (rotr 22 x).
Definition big_sigma1 (x : N) : N := N.lxor (N.lxor (rotr 6 x) (rotr 11 x)) (rotr 25 x).
Definition sigma0 (x : N) : N := N.lxor (N.lxor (rotr 7 x) (rotr 18 x)) (N.shiftr x 3).
Definition sigma1 (x : N) : N := N.lxor (N.lxor (rotr 17 x) (rotr 19 x)) (N.shiftr x 10).

Definition K : list N :=
  [
   1116352408; 1899447441; 3049323471; 3921009573; 961987163; 1508970993;
   2453635748; 2870763221; 3624381080; 310598401; 607225278; 1426881987;
   1925078388; 2162078206; 2614888103; 3248222580; 3835390401; 4022224774;
   264347078; 604807628; 770255983; 1249150122; 1555081692; 1996064986;
   2554220882; 2821834349; 2952996808; 3210313671; 3336571891; 3584528711;
   113926993; 338241895; 666307205; 773529912; 1294757372; 1396182291;
   1695183700; 1986661051; 2177026350; 2456956037; 2730485921; 2820302411;
   3259730800; 3345764771; 3516065817; 3600352804; 4094571909; 275423344;
   430227734; 506948616; 659060556; 883997877; 958139571; 1322822218;
   1537002063; 1747873779; 1955562222; 2024104815; 2227730452; 2361852424;
   2428436474; 2756734187; 3204031479; 3329325298 ].

Definition H0 : list N :=
  [
   1779033703; 3144134277; 1013904242; 2773480762;
   1359893119; 2600822924; 528734635; 1541459225 ].

(** The message, the bit 1, zeros up to 56 modulo 64 bytes, and the length
    in bits on eight bytes. *)
Definition be_bytes (count : nat) (x : N) : list N :=
  (λ i, (x / 256 ^ N.of_nat i) mod 256) <$> rev (seq 0 count).

Definition pad (msg : list N) : list N :=
  let len := length msg in
  let zeros := ((64 - (len + 9) mod 64) mod 64)%nat in
  msg ++ [128] ++ replicate zeros 0 ++ be_bytes 8 (8 * N.of_nat len).

Definition be_word (bs : list N) : N := foldl (λ acc b, 256 * acc + b) 0 bs.

Fixpoint words (count : nat) (bs : list N) : list N :=
  match count with
  | O => []
  | S count => be_word (take 4 bs) :: words count (drop 4 bs)
  end.

(** The message schedule, latest word first. *)
Fixpoint extend (count : nat) (recent : list N) : list N :=
  match count with
  | O => recent
  | S count =>
      let w i := nth i recent 0 in
      extend count
        (add32 (add32 (sigma1 (w 1%nat)) (w 6%nat))
               (add32 (sigma0 (w 14%nat)) (w 15%nat)) :: recent)
  end.

Definition schedule (block : list N) : list N :=
  rev (extend 48 (rev (words 16 block))).

Record regs := Regs { ra : N; rb : N; rc : N; rd : N; re : N; rf : N; rg : N; rh : N }.

Definition round (r : regs) (kw : N * N) : regs :=
  let t1 := add32 (add32 (add32 (rh r) (big_sigma1 (re r)))
                         (add32 (ch (re r) (rf r) (rg r)) kw.1)) kw.2 in
  let t2 := add32 (big_sigma0 (ra r)) (maj (ra r) (rb r) (rc r)) in
  Regs (add32 t1 t2) (ra r) (rb r) (rc r) (add32 (rd r) t1) (re r) (rf r) (rg r).

Definition compress (h : regs) (block : list N) : regs :=
  let r := foldl round h (zip K (schedule block)) in
  Regs (add32 (ra h) (ra r)) (add32 (rb h) (rb r)) (add32 (rc h) (rc r))
       (add32 (rd h) (rd r)) (add32 (re h) (re r)) (add32 (rf h) (rf r))
       (add32 (rg h) (rg r)) (add32 (rh h) (rh r)).

Fixpoint blocks (count : nat) (bs : list N) : list (list N) :=
  match count with
  | O => []
  | S count => take 64 bs :: blocks count (drop 64 bs)
  end.

Definition initial : regs :=
  Regs (nth 0 H0 0) (nth 1 H0 0) (nth 2 H0 0) (nth 3 H0 0)
       (nth 4 H0 0) (nth 5 H0 0) (nth 6 H0 0) (nth 7 H0 0).

Definition digest (msg : list byte) : list N :=
  let padded := pad (Byte.to_N <$> msg) in
  let r := foldl compress initial (blocks (length padded / 64) padded) in
  [ra r; rb r; rc r; rd r; re r; rf r; rg r; rh r] ≫= be_bytes 4.

Definition hex_char (n : N) : Ascii.ascii :=
  Ascii.ascii_of_N (if decide (n < 10) then 48 + n else 87 + n).

Fixpoint hex (bs : list N) : string :=
  match bs with
  | [] => EmptyString
  | b :: bs => String (hex_char (b / 16)) (String (hex_char (b mod 16)) (hex bs))
  end.

(** [hashlib.sha256(data).hexdigest()]. *)
Definition hexdigest (msg : list byte) : string := hex (digest msg).

End Sha256.


(** ** The catalog store (db_manager.py) *)

Module Store.

Inductive game_status := Active | Inactive.
Inductive room_status := Waiting | Playing | Closed.

#[global] Instance game_status_eq_dec : EqDecision game_status.
Proof. solve_decision. Defined.
#[global] Instance room_status_eq_dec : EqDecision room_status.
Proof. solve_decision. Defined.

(** Rows of [players] and [developers]; the e-mail address and the time
    stamps are columns no operation below reads. *)
Record account := Account {
  acc_id : Z;
  acc_username : string;
  acc_password_hash : string }.

Record game := Game {
  g_id : Z;
  g_name : string;
  g_description : string;
  g_developer_id : Z;
  g_current_version : string;
  g_min_players : Z;
  g_max_players : Z;
  g_game_type : string;
  g_status : game_status;
  g_download_count : Z;
  g_average_rating : Q;
  g_rating_count : Z }.

Record game_version := GameVersion {
  gv_id : Z;
  gv_game_id : Z;
  gv_version : string;
  gv_changelog : string;
  gv_file_path : string;
  gv_file_size : Z;
  gv_checksum : string }.

Record download := Download {
  dl_game_id : Z;
  dl_player_id : Z;
  dl_version : string }.

Record review := Review {
  rv_game_id : Z;
  rv_player_id : Z;
  rv_rating : Z;
  rv_comment : string }.

Record room := Room {
  room_id : Z;
  room_game_id : Z;
  room_host_id : Z;
  room_name : string;
  room_code : string;
  room_max_players : Z;
  room_current_players : Z;
  room_status_of : room_status;
  room_game_port : option Z }.

(** The database: one list per table, and the last row id handed out for
    the tables whose [lastrowid] the code reads. *)
Record db := Db {
  players : list account;
  developers : list account;
  games : list game;
  game_versions : list game_version;
  downloads : list download;
  reviews : list review;
  rooms : list room;
  room_players : list (Z * Z);
  seq_players : Z;
  seq_developers : Z;
  seq_games : Z;
  seq_versions : Z;
  seq_rooms : Z }.

Definition empty_db : db :=
  Db [] [] [] [] [] [] [] [] 0 0 0 0 0.

(** Field updates. *)
Definition with_players (f : list account → list account) (s : Z) (d : db) : db :=
  Db (f (players d)) (developers d) (games d) (game_versions d) (downloads d)
     (reviews d) (rooms d) (room_players d)
     s (seq_developers d) (seq_games d) (seq_versions d) (seq_rooms d).

Definition with_developers (f : list account → list account) (s : Z) (d : db) : db :=
  Db (players d) (f (developers d)) (games d) (game_versions d) (downloads d)
     (reviews d) (rooms d) (room_players d)
     (seq_players d) s (seq_games d) (seq_versions d) (seq_rooms d).

Definition with_games (f : list game → list game) (d : db) : db :=
  Db (players d) (developers d) (f (games d)) (game_versions d) (downloads d)
     (reviews d) (rooms d) (room_players d)
     (seq_players d) (seq_developers d) (seq_games d) (seq_versions d) (seq_rooms d).

Definition with_seq_games (s : Z) (d : db) : db :=
  Db (players d) (developers d) (games d) (game_versions d) (downloads d)
     (reviews d) (rooms d) (room_players d)
     (seq_players d) (seq_developers d) s (seq_versions d) (seq_rooms d).

Definition with_game_versions (f : list game_version → list game_version) (s : Z) (d : db) : db :=
  Db (players d) (developers d) (games d) (f (game_versions d)) (downloads d)
     (reviews d) (rooms d) (room_players d)
     (seq_players d) (seq_developers d) (seq_games d) s (seq_rooms d).

Definition with_downloads (f : list download → list download) (d : db) : db :=
  Db (players d) (developers d) (games d) (game_versions d) (f (downloads d))
     (reviews d) (rooms d) (room_players d)
     (seq_players d) (seq_developers d) (seq_games d) (seq_versions d) (seq_rooms d).

Definition with_reviews (f : list review → list review) (d : db) : db :=
  Db (players d) (developers d) (games d) (game_versions d) (downloads d)
     (f (reviews d)) (rooms d) (room_players d)
     (seq_players d) (seq_developers d) (seq_games d) (seq_versions d) (seq_rooms d).

Definition with_rooms (f : list room → list room) (d : db) : db :=
  Db (players d) (developers d) (games d) (game_versions d) (downloads d)
     (reviews d) (f (rooms d)) (room_players d)
     (seq_players d) (seq_developers d) (seq_games d) (seq_versions d) (seq_rooms d).

Definition with_seq_rooms (s : Z) (d : db) : db :=
  Db (players d) (developers d) (games d) (game_versions d) (downloads d)
     (reviews d) (rooms d) (room_players d)
     (seq_players d) (seq_developers d) (seq_games d) (seq_versions d) s.

Definition with_room_players (f : list (Z * Z) → list (Z * Z)) (d : db) : db :=
  Db (players d) (developers d) (games d) (game_versions d) (downloads d)
     (reviews d) (rooms d) (f (room_players d))
     (seq_players d) (seq_developers d) (seq_games d) (seq_versions d) (seq_rooms d).

(** Row setters used by the UPDATE statements. *)
Definition game_set_status (st : game_status) (g : game) : game :=
  Game (g_id g) (g_name g) (g_description g) (g_developer_id g) (g_current_version g)
       (g_min_players g) (g_max_players g) (g_game_type g) st
       (g_download_count g) (g_average_rating g) (g_rating_count g).

Definition game_set_version (v : string) (g : game) : game :=
  Game (g_id g) (g_name g) (g_description g) (g_developer_id g) v
       (g_min_players g) (g_max_players g) (g_game_type g) (g_status g)
       (g_download_count g) (g_average_rating g) (g_rating_count g).

Definition game_set_downloads (n : Z) (g : game) : game :=
  Game (g_id g) (g_name g) (g_description g) (g_developer_id g) (g_current_version g)
       (g_min_players g) (g_max_players g) (g_game_type g) (g_status g)
       n (g_average_rating g) (g_rating_count g).

Definition game_set_rating (avg : Q) (n : Z) (g : game) : game :=
  Game (g_id g) (g_name g) (g_description g) (g_developer_id g) (g_current_version g)
       (g_min_players g) (g_max_players g) (g_game_type g) (g_status g)
       (g_download_count g) avg n.

Definition room_set_status (st : room_status) (r : room) : room :=
  Room (room_id r) (room_game_id r) (room_host_id r) (room_name r) (room_code r)
       (room_max_players r) (room_current_players r) st (room_game_port r).

Definition room_set_status_port (st : room_status) (port : Z) (r : room) : room :=
  Room (room_id r) (room_game_id r) (room_host_id r) (room_name r) (room_code r)
       (room_max_players r) (room_current_players r) st (Some port).

Definition room_set_current_players (n : Z) (r : room) : room :=
  Room (room_id r) (room_game_id r) (room_host_id r) (room_name r) (room_code r)
       (room_max_players r) n (room_status_of r) (room_game_port r).

(** [UPDATE t SET ... WHERE id = ?]: every row with that id is rewritten. *)
Definition update_where {A} (key : A → Z) (k : Z) (f : A → A) (l : list A) : list A :=
  (λ x, if decide (key x = k) then f x else x) <$> l.

(** [SELECT * FROM t WHERE id = ?] followed by [fetchone]. *)
Definition select_one {A} (key : A → Z) (k : Z) (l : list A) : option A :=
  List.find (λ x, bool_decide (key x = k)) l.

Definition has_id {A} (key : A → Z) (k : Z) (l : list A) : bool :=
  bool_decide (Exists (λ x, key x = k) l).

(** *** Schema behaviour that [schema.sql] declares *)

(** Modelled from the spec: [schema.sql], which [_initialize_database]
    loads, is not part of the sources.  The spec gives the column defaults
    (a new game is [active] with no downloads and no ratings; a new room is
    [waiting] with [current_players = 1] and no port), the unique keys
    ([username], game [name], [(game_id, version)], [(game_id, player_id)]
    of a review, [room_code], [(room_id, player_id)]) and says that foreign
    keys are enforced. *)
Definition default_current_players : Z := 1.

(** SQL [AVG] over the ratings; an exact rational stands for the REAL. *)
Definition mean (l : list Z) : Q :=
  match l with
  | [] => 0%Q
  | _ => Qmake (foldr Z.add 0 l) (Z.to_pos (Z.of_nat (length l)))
  end.

Definition ratings_of (gid : Z) (d : db) : list Z :=
  rv_rating <$> filter (λ r, rv_game_id r = gid) (reviews d).

Definition members_of (rid : Z) (d : db) : list (Z * Z) :=
  filter (λ m, m.1 = rid) (room_players d).

(** Modelled from the spec: "On upsert, the owning game's [average_rating]
    and [rating_count] are recomputed."  No method of [DatabaseManager]
    writes these two columns; the recomputation is the schema's. *)
Definition refresh_rating (gid : Z) (d : db) : db :=
  with_games
    (update_where g_id gid
       (game_set_rating (mean (ratings_of gid d)) (Z.of_nat (length (ratings_of gid d)))))
    d.

(** Modelled from the spec: "[current_players] = |room memberships for
    room| after every mutation."  No method of [DatabaseManager] writes
    [current_players]; the count is refreshed by the schema whenever a
    membership row is inserted or deleted. *)
Definition refresh_current_players (rid : Z) (d : db) : db :=
  with_rooms
    (update_where room_id rid
       (room_set_current_players (Z.of_nat (length (members_of rid d)))))
    d.

(** *** Accounts *)

Section WithDigest.
(** [hashlib.sha256(data).hexdigest()], the library function the store and
    the developer server call. *)
Context (sha256_hex : list byte → string).

(** [hash_password]: the digest of the password followed by the salt. *)
Definition hash_password (password : string) : string :=
  sha256_hex (String.list_byte_of_string (password +:+ "game-store-2024")).

Definition username_taken (u : string) (l : list account) : bool :=
  bool_decide (Exists (λ a, acc_username a = u) l).

(** [create_player]: [None] on the IntegrityError of a taken username. *)
Definition create_player (d : db) (username password : string) : db * option Z :=
  if username_taken username (players d) then (d, None)
  else
    let i := seq_players d + 1 in
    (with_players (λ l, l ++ [Account i username (hash_password password)]) i d,
     Some i).

Definition create_developer (d : db) (username password : string) : db * option Z :=
  if username_taken username (developers d) then (d, None)
  else
    let i := seq_developers d + 1 in
    (with_developers (λ l, l ++ [Account i username (hash_password password)]) i d,
     Some i).

(** [authenticate_player]: the row with that name and password hash. *)
Definition authenticate (l : list account) (username password : string) : option account :=
  List.find (λ a, bool_decide (acc_username a = username
                               ∧ acc_password_hash a = hash_password password)) l.

Definition authenticate_player (d : db) (username password : string) : option account :=
  authenticate (players d) username password.

Definition authenticate_developer (d : db) (username password : string) : option account :=
  authenticate (developers d) username password.

Definition get_player (d : db) (pid : Z) : option account :=
  select_one acc_id pid (players d).

(** *** Games *)

Definition create_game (d : db) (name description : string) (developer_id : Z)
    (version : string) (min_players max_players : Z) (game_type : string)
  : db * option Z :=
  if bool_decide (Exists (λ g, g_name g = name) (games d))
     || negb (has_id acc_id developer_id (developers d))
  then (d, None)
  else
    let i := seq_games d + 1 in
    (with_seq_games i
       (with_games
          (λ l, l ++ [Game i name description developer_id version
                           min_players max_players game_type Active 0 0%Q 0]) d),
     Some i).

Definition get_game (d : db) (gid : Z) : option game :=
  select_one g_id gid (games d).

Definition update_game_status (d : db) (gid : Z) (st : game_status) : db * bool :=
  (with_games (update_where g_id gid (game_set_status st)) d,
   has_id g_id gid (games d)).

Definition update_game_version (d : db) (gid : Z) (new_version : string) : db * bool :=
  (with_games (update_where g_id gid (game_set_version new_version)) d,
   has_id g_id gid (games d)).

Definition increment_download_count (d : db) (gid : Z) : db :=
  with_games
    (update_where g_id gid (λ g, game_set_downloads (g_download_count g + 1) g)) d.

(** *** Game versions *)

Definition version_exists (d : db) (gid : Z) (version : string) : bool :=
  bool_decide (Exists (λ v, gv_game_id v = gid ∧ gv_version v = version) (game_versions d)).

(** [add_game_version]: [None] on the IntegrityError of a duplicate
    [(game_id, version)] or of a game that does not exist. *)
Definition add_game_version (d : db) (gid : Z) (version changelog file_path : string)
    (file_size : Z) (checksum : string) : db * option Z :=
  if version_exists d gid version || negb (has_id g_id gid (games d))
  then (d, None)
  else
    let i := seq_versions d + 1 in
    (with_game_versions
       (λ l, l ++ [GameVersion i gid version changelog file_path file_size checksum]) i d,
     Some i).

Definition get_game_version (d : db) (gid : Z) (version : string) : option game_version :=
  List.find (λ v, bool_decide (gv_game_id v = gid ∧ gv_version v = version))
            (game_versions d).

(** [ORDER BY created_at DESC LIMIT 1]: the row inserted last. *)
Definition get_latest_version (d : db) (gid : Z) : option game_version :=
  last (filter (λ v, gv_game_id v = gid) (game_versions d)).

(** *** Downloads *)

(** [record_download]: the INSERT, then [increment_download_count].  The
    INSERT raises (here [None]) when a foreign key is violated. *)
Definition record_download (d : db) (gid pid : Z) (version : string) : option db :=
  if has_id g_id gid (games d) && has_id acc_id pid (players d)
  then Some (increment_download_count
               (with_downloads (λ l, l ++ [Download gid pid version]) d) gid)
  else None.

(** *** Reviews *)

Definition review_exists (d : db) (gid pid : Z) : bool :=
  bool_decide (Exists (λ r, rv_game_id r = gid ∧ rv_player_id r = pid) (reviews d)).

(** [INSERT ... ON CONFLICT(game_id, player_id) DO UPDATE SET rating, comment]. *)
Definition upsert_review (gid pid rating : Z) (comment : string) (l : list review)
  : list review :=
  if bool_decide (Exists (λ r, rv_game_id r = gid ∧ rv_player_id r = pid) l)
  then (λ r, if decide (rv_game_id r = gid ∧ rv_player_id r = pid)
             then Review gid pid rating comment else r) <$> l
  else l ++ [Review gid pid rating comment].

(** [add_review]: [False] when the statement raises (a foreign key). *)
Definition add_review (d : db) (gid pid rating : Z) (comment : string) : db * bool :=
  if has_id g_id gid (games d) && has_id acc_id pid (players d)
  then (refresh_rating gid (with_reviews (upsert_review gid pid rating comment) d), true)
  else (d, false).

(** *** Rooms *)

Definition get_room (d : db) (rid : Z) : option room :=
  select_one room_id rid (rooms d).

(** [create_room]: two statements, each committed on its own.  [code] is
    the value [secrets.token_hex(4).upper()] produced. *)
Definition create_room (d : db) (gid host_id : Z) (name : string) (max_players : Z)
    (code : string) : db * option Z :=
  if bool_decide (Exists (λ r, room_code r = code) (rooms d))
     || negb (has_id g_id gid (games d))
     || negb (has_id acc_id host_id (players d))
  then (d, None)
  else
    let rid := seq_rooms d + 1 in
    let d1 :=
      with_seq_rooms rid
        (with_rooms
           (λ l, l ++ [Room rid gid host_id name code max_players
                            default_current_players Waiting None]) d) in
    if bool_decide ((rid, host_id) ∈ room_players d1) then (d1, None)
    else
      (refresh_current_players rid (with_room_players (λ l, l ++ [(rid, host_id)]) d1),
       Some rid).

(** [join_room]: [False] on the IntegrityError of a row that exists
    already or of a room or player that does not. *)
Definition join_room (d : db) (rid pid : Z) : db * bool :=
  if bool_decide ((rid, pid) ∈ room_players d)
     || negb (has_id room_id rid (rooms d))
     || negb (has_id acc_id pid (players d))
  then (d, false)
  else
    (refresh_current_players rid (with_room_players (λ l, l ++ [(rid, pid)]) d), true).

Definition leave_room (d : db) (rid pid : Z) : db :=
  if bool_decide ((rid, pid) ∈ room_players d)
  then refresh_current_players rid
         (with_room_players (filter (λ m, m ≠ (rid, pid))) d)
  else d.

(** [update_room_status]: [if game_port:] is false for [None] and for 0. *)
Definition update_room_status (d : db) (rid : Z) (st : room_status)
    (game_port : option Z) : db :=
  match game_port with
  | Some p =>
      if decide (p = 0)
      then with_rooms (update_where room_id rid (room_set_status st)) d
      else with_rooms (update_where room_id rid (room_set_status_port st p)) d
  | None => with_rooms (update_where room_id rid (room_set_status st)) d
  end.

(** [get_room_players]: the join of [room_players] with [players]. *)
Definition get_room_players (d : db) (rid : Z) : list account :=
  members_of rid d ≫= λ m, filter (λ a, acc_id a = m.2) (players d).

(** The statement of [LobbyServer.cleanup_expired_rooms]; [expired] tells
    which rooms were created more than ten minutes ago. *)
Definition close_expired_rooms (d : db) (expired : Z → bool) : db :=
  with_rooms
    (fmap (λ r, if decide (room_status_of r = Waiting) then
                  if expired (room_id r) then room_set_status Closed r else r
                else r)) d.

(** *** Sequences of store calls *)

(** The writes the two servers perform on the store. *)
Inductive call :=
| CreatePlayer (username password : string)
| CreateDeveloper (username password : string)
| CreateGame (name description : string) (developer_id : Z) (version : string)
             (min_players max_players : Z) (game_type : string)
| UpdateGameStatus (gid : Z) (st : game_status)
| UpdateGameVersion (gid : Z) (version : string)
| AddGameVersion (gid : Z) (version changelog file_path : string)
                 (file_size : Z) (checksum : string)
| RecordDownload (gid pid : Z) (version : string)
| AddReview (gid pid rating : Z) (comment : string)
| CreateRoom (gid host_id : Z) (name : string) (max_players : Z) (code : string)
| JoinRoom (rid pid : Z)
| LeaveRoom (rid pid : Z)
| UpdateRoomStatus (rid : Z) (st : room_status) (game_port : option Z)
| CloseExpiredRooms (expired : Z → bool).

Definition exec (d : db) (c : call) : db :=
  match c with
  | CreatePlayer u p => (create_player d u p).1
  | CreateDeveloper u p => (create_developer d u p).1
  | CreateGame n de dev v mn mx ty => (create_game d n de dev v mn mx ty).1
  | UpdateGameStatus gid st => (update_game_status d gid st).1
  | UpdateGameVersion gid v => (update_game_version d gid v).1
  | AddGameVersion gid v cl fp sz ck => (add_game_version d gid v cl fp sz ck).1
  | RecordDownload gid pid v => default d (record_download d gid pid v)
  | AddReview gid pid r c => (add_review d gid pid r c).1
  | CreateRoom gid h n mx code => (create_room d gid h n mx code).1
  | JoinRoom rid pid => (join_room d rid pid).1
  | LeaveRoom rid pid => leave_room d rid pid
  | UpdateRoomStatus rid st port => update_room_status d rid st port
  | CloseExpiredRooms expired => close_expired_rooms d expired
  end.

Definition run (d : db) (cs : list call) : db := foldl exec d cs.

End WithDigest.

End Store.

(** ** The game-server supervisor (game_server_manager.py) *)

Module Supervisor.

(** An entry of [game_processes]; [proc] names the child process.  The
    start time is not modelled. *)
Record process_info := ProcessInfo {
  proc : Z;
  port : Z;
  game_id : Z;
  players : list string }.

Record manager := Manager {
  game_processes : gmap Z process_info;
  next_port : Z }.

(** [config.GAME_SERVER_START_PORT] and [config.GAMES_DIR]. *)
Definition GAME_SERVER_START_PORT : Z := 9000.
Definition GAMES_DIR : string := "games".

Definition init : manager := Manager ∅ GAME_SERVER_START_PORT.

(** What the operating system answers during one [spawn_game_server]:
    whether a path exists, the child [create_subprocess_exec] returns
    ([None] when it raises), and whether that child has already exited
    when the half second of waiting is over. *)
Record spawn_env := SpawnEnv {
  path_exists : string → bool;
  exec_child : option Z;
  exits_while_waiting : bool }.

(** [_monitor_process], once the child has exited. *)
Definition _monitor_process (m : manager) (room_id : Z) : manager :=
  Manager (delete room_id (game_processes m)) (next_port m).

Definition game_path (game_id : Z) (game_version : option string) : string :=
  let dir := match game_version with
             | Some v => if decide (v = "") then "current" else v
             | None => "current"
             end in
  GAMES_DIR +:+ "/" +:+ pretty game_id +:+ "/" +:+ dir +:+ "/game_server.py".

(** [spawn_game_server]: the port is taken first, whatever follows. *)
Definition spawn_game_server (m : manager) (room_id game_id : Z) (game_name : string)
    (players : list string) (game_version : option string) (env : spawn_env)
  : manager * option Z :=
  let port := next_port m in
  let m1 := Manager (game_processes m) (port + 1) in
  if negb (path_exists env (game_path game_id game_version)) then (m1, None)
  else
    match exec_child env with
    | None => (m1, None)
    | Some child =>
        let m2 := Manager (<[room_id := ProcessInfo child port game_id players]>
                             (game_processes m1))
                          (next_port m1) in
        let m3 := if exits_while_waiting env then _monitor_process m2 room_id else m2 in
        (m3, Some port)
    end.

Definition is_registered (m : manager) (room_id : Z) : bool :=
  bool_decide (is_Some (game_processes m !! room_id)).

End Supervisor.

(** ** The artifact store: files, open sinks and [current] links *)

Module Fs.

Record fs := Fs {
  files : gmap string (list byte);
  open_handles : gset string;
  current_link : gmap Z string;
  extracted : gset (Z * string) }.

Definition empty : fs := Fs ∅ ∅ ∅ ∅.

(** [open(path, 'wb')]: the file is created or truncated. *)
Definition open_wb (path : string) (f : fs) : fs :=
  Fs (<[path := []]> (files f)) ({[path]} ∪ open_handles f) (current_link f) (extracted f).

Definition close (path : string) (f : fs) : fs :=
  Fs (files f) (open_handles f ∖ {[path]}) (current_link f) (extracted f).

(** [file_handle.write(data)]: [None] when the handle is closed. *)
Definition write (path : string) (data : list byte) (f : fs) : option fs :=
  if decide (path ∈ open_handles f)
  then Some (Fs (<[path := default [] (files f !! path) ++ data]> (files f))
                (open_handles f) (current_link f) (extracted f))
  else None.

(** [Path.unlink()]: [None] when there is no such file. *)
Definition unlink (path : string) (f : fs) : option fs :=
  match files f !! path with
  | Some _ => Some (Fs (delete path (files f)) (open_handles f) (current_link f)
                       (extracted f))
  | None => None
  end.

(** [shutil.move(src, dst)]. *)
Definition move (src dst : string) (f : fs) : option fs :=
  match files f !! src with
  | Some content =>
      Some (Fs (<[dst := content]> (delete src (files f))) (open_handles f)
               (current_link f) (extracted f))
  | None => None
  end.

Definition set_current (game_id : Z) (version : string) (f : fs) : fs :=
  Fs (files f) (open_handles f) (<[game_id := version]> (current_link f)) (extracted f).

Definition mark_extracted (game_id : Z) (version : string) (f : fs) : fs :=
  Fs (files f) (open_handles f) (current_link f) ({[(game_id, version)]} ∪ extracted f).

End Fs.

(** ** The state of the server process (main.py runs both servers) *)

Module Server.
Import Store.

(** Python's [round(x, 1)] of the float nearest to [x], left unevaluated. *)
Inductive rounded := Round1 (x : Q).

(** What an upload in flight remembers besides the common fields. *)
Inductive upload_mode :=
| ModeNew (name description : string) (min_players max_players : Z) (game_type : string)
| ModeUpdate (game_id : Z) (game_name changelog : string).

Record upload := Upload {
  mode : upload_mode;
  up_version : string;
  up_file_size : Z;
  up_checksum : string;
  temp_file : string;
  received_bytes : Z }.

(** [clients]: a dictionary in insertion order, from the connection to the
    account it authenticated as. *)
Abbreviation clients := (list (string * option account)).

Record state := State {
  db : Store.db;
  fs : Fs.fs;
  game_manager : Supervisor.manager;
  lobby_clients : clients;
  developer_clients : clients;
  uploads : gmap string upload }.

Definition init : state :=
  State Store.empty_db Fs.empty Supervisor.init [] [] ∅.

Definition with_db (d : Store.db) (s : state) : state :=
  State d (fs s) (game_manager s) (lobby_clients s) (developer_clients s) (uploads s).
Definition with_fs (f : Fs.fs) (s : state) : state :=
  State (db s) f (game_manager s) (lobby_clients s) (developer_clients s) (uploads s).
Definition with_game_manager (m : Supervisor.manager) (s : state) : state :=
  State (db s) (fs s) m (lobby_clients s) (developer_clients s) (uploads s).
Definition with_lobby_clients (c : clients) (s : state) : state :=
  State (db s) (fs s) (game_manager s) c (developer_clients s) (uploads s).
Definition with_developer_clients (c : clients) (s : state) : state :=
  State (db s) (fs s) (game_manager s) (lobby_clients s) c (uploads s).
Definition with_uploads (u : gmap string upload) (s : state) : state :=
  State (db s) (fs s) (game_manager s) (lobby_clients s) (developer_clients s) u.

(** [clients[client_id] = ...], [del clients[client_id]] and
    [clients[client_id]['user']]. *)
Fixpoint client_set (cid : string) (u : option account) (c : clients) : clients :=
  match c with
  | [] => [(cid, u)]
  | (k, v) :: c' => if decide (k = cid) then (cid, u) :: c' else (k, v) :: client_set cid u c'
  end.

Definition client_del (cid : string) (c : clients) : clients :=
  filter (λ kv, kv.1 ≠ cid) c.

Fixpoint client_get (cid : string) (c : clients) : option (option account) :=
  match c with
  | [] => None
  | (k, v) :: c' => if decide (k = cid) then Some v else client_get cid c'
  end.

(** The authenticated account of a connection, if it has one. *)
Definition user_of (cid : string) (c : clients) : option account :=
  client_get cid c ≫= id.

(** Python's truth value of an optional string and of an optional number. *)
Definition str_given (s : option string) : option string :=
  match s with
  | Some v => if decide (v = "") then None else Some v
  | None => None
  end.

Definition num_given (n : option Z) : option Z :=
  match n with
  | Some v => if decide (v = 0) then None else Some v
  | None => None
  end.

End Server.

(** ** The lobby server (lobby_server.py) *)

Module Lobby.
Import Store Server.

(** [config.CHUNK_SIZE]. *)
Definition CHUNK_SIZE : nat := Z.to_nat 8192.

(** The tags [process_message] has a handler for. *)
Definition handled : list Protocol.MessageType :=
  [Protocol.AUTH_REQUEST; Protocol.REGISTER_REQUEST; Protocol.GAME_LIST_REQUEST;
   Protocol.GAME_DETAIL_REQUEST; Protocol.DOWNLOAD_REQUEST; Protocol.ROOM_LIST_REQUEST;
   Protocol.CREATE_ROOM; Protocol.JOIN_ROOM; Protocol.LEAVE_ROOM;
   Protocol.START_GAME_REQUEST; Protocol.SUBMIT_REVIEW; Protocol.GET_REVIEWS;
   Protocol.CHECK_UPDATE].

(** A row of the catalog as [handle_game_list] projects it. *)
Record game_summary := GameSummary {
  gs_id : Z;
  gs_name : string;
  gs_description : string;
  gs_version : string;
  gs_min_players : Z;
  gs_max_players : Z;
  gs_type : string;
  gs_rating : rounded;
  gs_rating_count : Z;
  gs_downloads : Z }.

(** The messages the lobby writes, by tag, each with its payload. *)
Inductive response :=
| ErrorMsg (error : string) (code : Z)
| AuthOk (user_id : Z) (username session_token : string)
| AuthFailed
| RegisterOk (user_id : Z) (username : string)
| RegisterFailed
| GameListResponse (games : list game_summary)
| DownloadMeta (game_id : Z) (game_name version : string) (file_size : Z)
               (checksum : string)
| DownloadChunk (data : list byte) (offset : Z)
| DownloadComplete (bytes_sent : Z)
| RoomCreated (room_id : Z) (room_code room_name : string)
| RoomJoined (room_id : Z)
| SuccessLeft
| SuccessStarted (game_port room_id : Z)
| GameStarted (room_id game_port : Z) (game_name : string)
| RoomUpdate (room_id current_players : Z) (players : list string)
| ReviewSubmitted.

Definition type_of (r : response) : Protocol.MessageType :=
  match r with
  | ErrorMsg _ _ => Protocol.ERROR
  | AuthOk _ _ _ | AuthFailed => Protocol.AUTH_RESPONSE
  | RegisterOk _ _ | RegisterFailed => Protocol.REGISTER_RESPONSE
  | GameListResponse _ => Protocol.GAME_LIST_RESPONSE
  | DownloadMeta _ _ _ _ _ => Protocol.DOWNLOAD_META
  | DownloadChunk _ _ => Protocol.DOWNLOAD_CHUNK
  | DownloadComplete _ => Protocol.DOWNLOAD_COMPLETE
  | RoomCreated _ _ _ => Protocol.ROOM_CREATED
  | RoomJoined _ => Protocol.ROOM_JOINED
  | SuccessLeft | SuccessStarted _ _ => Protocol.SUCCESS
  | GameStarted _ _ _ => Protocol.GAME_STARTED
  | RoomUpdate _ _ _ => Protocol.ROOM_UPDATE
  | ReviewSubmitted => Protocol.REVIEW_SUBMITTED
  end.

(** What handling one request did: the state it left, the message it
    returned for [handle_client] to write ([None] when it raised instead),
    and the messages it wrote itself, each with the connection it went to. *)
Record outcome := Outcome {
  after : state;
  reply : option response;
  sent : list (string * response) }.

(** [return create_error_message(msg)]. *)
Definition error (s : state) (msg : string) : outcome :=
  Outcome s (Some (ErrorMsg msg 500)) [].

Section WithDigest.
Context (sha256_hex : list byte → string).

Definition handle_auth (s : state) (cid : string) (username password : option string)
    (session_token : string) : outcome :=
  match str_given username, str_given password with
  | Some u, Some p =>
      match authenticate_player sha256_hex (db s) u p with
      | None => Outcome s (Some AuthFailed) []
      | Some player =>
          Outcome (with_lobby_clients (client_set cid (Some player) (lobby_clients s)) s)
                  (Some (AuthOk (acc_id player) (acc_username player) session_token)) []
      end
  | _, _ => error s "Username and password required"
  end.

Definition handle_register (s : state) (cid : string) (username password : option string)
  : outcome :=
  match str_given username, str_given password with
  | Some u, Some p =>
      match create_player sha256_hex (db s) u p with
      | (d, Some player_id) => Outcome (with_db d s) (Some (RegisterOk player_id u)) []
      | (_, None) => Outcome s (Some RegisterFailed) []
      end
  | _, _ => error s "Username and password required"
  end.

End WithDigest.

(** [get_active_games]: the active games, most downloaded first. *)
Definition more_downloaded (a b : game) : Prop :=
  g_download_count b ≤ g_download_count a.

#[local] Instance more_downloaded_dec : RelDecision more_downloaded.
Proof. intros a b. unfold more_downloaded. apply _. Defined.

Definition get_active_games (d : Store.db) : list game :=
  merge_sort more_downloaded (filter (λ g, g_status g = Active) (games d)).

Definition summary (g : game) : game_summary :=
  GameSummary (g_id g) (g_name g) (g_description g) (g_current_version g)
              (g_min_players g) (g_max_players g) (g_game_type g)
              (Round1 (g_average_rating g)) (g_rating_count g) (g_download_count g).

Definition handle_game_list (s : state) (cid : string) : outcome :=
  Outcome s (Some (GameListResponse (summary <$> get_active_games (db s)))) [].

(** *** Downloads *)

(** What the file system and the connection do during one download:
    whether [open] raises, whether writing the DOWNLOAD_META raises, and
    the index of the chunk whose write raises, if one does. *)
Record download_env := DownloadEnv {
  open_raises : bool;
  meta_write_raises : bool;
  chunk_write_raises_at : option nat }.

(** The successive results of [f.read(CHUNK_SIZE)]. *)
Fixpoint read_chunks (fuel : nat) (content : list byte) : list (list byte) :=
  match fuel with
  | O => []
  | S fuel =>
      match content with
      | [] => []
      | _ => take CHUNK_SIZE content :: read_chunks fuel (drop CHUNK_SIZE content)
      end
  end.

(** The [while True] loop over the chunks: the DOWNLOAD_CHUNK messages
    written, and the total sent, or [None] for it when a write raised. *)
Fixpoint send_chunks (chunks : list (list byte)) (index : nat) (total_sent : Z)
    (raises_at : option nat) : list response * option Z :=
  match chunks with
  | [] => ([], Some total_sent)
  | chunk :: rest =>
      if decide (raises_at = Some index) then ([], None)
      else
        let '(msgs, total) :=
          send_chunks rest (S index) (total_sent + Z.of_nat (length chunk)) raises_at in
        (DownloadChunk chunk total_sent :: msgs, total)
  end.

(** The [except Exception] branch; [e] names the exception, whose text
    the message carries. *)
Definition download_failed (e : string) : response :=
  ErrorMsg ("Download failed: " +:+ e) 500.

Definition handle_download_request (s : state) (cid : string) (game_id : option Z)
    (version : option string) (env : download_env) : outcome :=
  match user_of cid (lobby_clients s) with
  | None => error s "Not authenticated"
  | Some user =>
      match game_id ≫= get_game (db s) with
      | None => error s "Game not available"
      | Some game =>
          if decide (g_status game ≠ Active) then error s "Game not available"
          else
            let version_info :=
              match str_given version with
              | Some v => get_game_version (db s) (g_id game) v
              | None => get_latest_version (db s) (g_id game)
              end in
            match version_info with
            | None => error s "Version not found"
            | Some info =>
                let version :=
                  match str_given version with
                  | Some v => v
                  | None => gv_version info
                  end in
                match Fs.files (fs s) !! gv_file_path info with
                | None => error s "Game file not found on server"
                | Some content =>
                    let meta := DownloadMeta (g_id game) (g_name game) version
                                             (gv_file_size info) (gv_checksum info) in
                    if meta_write_raises env then Outcome s None []
                    else if open_raises env then
                      Outcome s (Some (download_failed "OSError")) [(cid, meta)]
                    else
                      let '(chunks, total) :=
                        send_chunks (read_chunks (length content) content) 0 0
                                    (chunk_write_raises_at env) in
                      let written := (cid, meta) :: ((λ m, (cid, m)) <$> chunks) in
                      match total with
                      | None => Outcome s (Some (download_failed "ConnectionError")) written
                      | Some total_sent =>
                          match record_download (db s) (g_id game) (acc_id user) version with
                          | None =>
                              Outcome s (Some (download_failed "IntegrityError")) written
                          | Some d =>
                              Outcome (with_db d s) (Some (DownloadComplete total_sent))
                                      written
                          end
                      end
                end
            end
      end
  end.

(** The bytes a written message carries, when it is a DOWNLOAD_CHUNK. *)
Definition chunk_data (r : response) : list byte :=
  match r with
  | DownloadChunk data _ => data
  | _ => []
  end.

(** The bytes that the messages written to one connection add up to. *)
Definition bytes_sent_to (cid : string) (written : list (string * response)) : list byte :=
  filter (λ m, m.1 = cid) written ≫= λ m, chunk_data m.2.

(** *** Rooms *)

(** [_find_client_by_user_id]: the first connection of that player. *)
Definition _find_client_by_user_id (c : clients) (user_id : Z) : option string :=
  fst <$> List.find (λ kv, match kv.2 with
                           | Some a => bool_decide (acc_id a = user_id)
                           | None => false
                           end) c.

(** The connections of the given players that are open. *)
Definition connected (c : clients) (players : list account) : list string :=
  omap (λ p, _find_client_by_user_id c (acc_id p)) players.

(** [broadcast_room_update]: the ROOM_UPDATE written to each member that
    is connected; [None] when the room does not exist and the look-up of
    its [current_players] raises. *)
Definition broadcast_room_update (s : state) (room_id : Z)
  : option (list (string * response)) :=
  match get_room (db s) room_id with
  | None => None
  | Some room =>
      let players := get_room_players (db s) room_id in
      let update_msg := RoomUpdate room_id (room_current_players room)
                                   (acc_username <$> players) in
      Some ((λ c, (c, update_msg)) <$> connected (lobby_clients s) players)
  end.

Definition handle_create_room (s : state) (cid : string) (game_id : option Z)
    (name : option string) (max_players : option Z) (code : string) : outcome :=
  match user_of cid (lobby_clients s) with
  | None => error s "Not authenticated"
  | Some user =>
      let room_name := default (acc_username user +:+ "'s Room") name in
      let max_players := default 4 max_players in
      match game_id ≫= get_game (db s) with
      | None => error s "Game not available"
      | Some game =>
          if decide (g_status game ≠ Active) then error s "Game not available"
          else
            match create_room (db s) (g_id game) (acc_id user) room_name max_players code with
            | (d, None) => error (with_db d s) "Failed to create room"
            | (d, Some room_id) =>
                match get_room d room_id with
                | None => Outcome (with_db d s) None []
                | Some room =>
                    Outcome (with_db d s)
                            (Some (RoomCreated room_id (room_code room) room_name)) []
                end
            end
      end
  end.

Definition handle_join_room (s : state) (cid : string) (room_id : Z) : outcome :=
  match user_of cid (lobby_clients s) with
  | None => error s "Not authenticated"
  | Some user =>
      match get_room (db s) room_id with
      | None => error s "Room not found"
      | Some room =>
          if decide (room_status_of room ≠ Waiting)
          then error s "Room is not accepting players"
          else if decide (room_max_players room ≤ room_current_players room)
          then error s "Room is full"
          else
            match join_room (db s) room_id (acc_id user) with
            | (_, false) => error s "Already in room or failed to join"
            | (d, true) =>
                let s' := with_db d s in
                Outcome s' (Some (RoomJoined room_id))
                        (default [] (broadcast_room_update s' room_id))
            end
      end
  end.

Definition handle_leave_room (s : state) (cid : string) (room_id : Z) : outcome :=
  match user_of cid (lobby_clients s) with
  | None => error s "Not authenticated"
  | Some user =>
      let hosted :=
        match get_room (db s) room_id with
        | Some room => bool_decide (room_host_id room = acc_id user)
        | None => false
        end in
      let d := if hosted then update_room_status (db s) room_id Closed None
               else leave_room (db s) room_id (acc_id user) in
      let s' := with_db d s in
      match broadcast_room_update s' room_id with
      | None => Outcome s' None []
      | Some updates => Outcome s' (Some SuccessLeft) updates
      end
  end.

Definition handle_start_game (s : state) (cid : string) (room_id : Z)
    (env : Supervisor.spawn_env) : outcome :=
  match user_of cid (lobby_clients s) with
  | None => error s "Not authenticated"
  | Some user =>
      match get_room (db s) room_id with
      | None => error s "Room not found"
      | Some room =>
          if decide (room_host_id room ≠ acc_id user)
          then error s "Only host can start game"
          else
            match get_game (db s) (room_game_id room) with
            | None => error s "Game not found"
            | Some game =>
                let players_data := get_room_players (db s) room_id in
                let players := acc_username <$> players_data in
                let '(m, game_port) :=
                  Supervisor.spawn_game_server (game_manager s) room_id (g_id game)
                    (g_name game) players (Some (g_current_version game)) env in
                let s1 := with_game_manager m s in
                match num_given game_port with
                | None => error s1 "Failed to start game server"
                | Some port =>
                    let s2 := with_db (update_room_status (db s1) room_id Playing
                                                          (Some port)) s1 in
                    Outcome s2 (Some (SuccessStarted port room_id))
                            ((λ c, (c, GameStarted room_id port (g_name game)))
                               <$> connected (lobby_clients s2) players_data)
                end
            end
      end
  end.

(** *** Reviews *)

Definition handle_submit_review (s : state) (cid : string) (game_id rating : option Z)
    (comment : string) : outcome :=
  match user_of cid (lobby_clients s) with
  | None => error s "Not authenticated"
  | Some user =>
      match num_given game_id, rating with
      | Some gid, Some r =>
          if decide (1 ≤ r ∧ r ≤ 5) then
            match add_review (db s) gid (acc_id user) r comment with
            | (d, true) => Outcome (with_db d s) (Some ReviewSubmitted) []
            | (_, false) => error s "Failed to submit review"
            end
          else error s "Rating must be between 1 and 5"
      | _, _ => error s "Game ID and rating required"
      end
  end.

(** *** Connections and the sweeper *)

(** The start of [handle_client] and [cleanup_client] at its end. *)
Definition connect (s : state) (cid : string) : state :=
  with_lobby_clients (client_set cid None (lobby_clients s)) s.

Definition cleanup_client (s : state) (cid : string) : state :=
  with_lobby_clients (client_del cid (lobby_clients s)) s.

(** One turn of [cleanup_expired_rooms]. *)
Definition cleanup_expired_rooms (s : state) (expired : Z → bool) : state :=
  with_db (close_expired_rooms (db s) expired) s.

(** The exit of the child of a room, as [_monitor_process] sees it. *)
Definition child_exited (s : state) (room_id : Z) : state :=
  with_game_manager (Supervisor._monitor_process (game_manager s) room_id) s.

End Lobby.

(** ** The developer server (developer_server.py) *)

Module Developer.
Import Store Server.

(** [config.TEMP_DIR] and the tags [process_message] has a handler for. *)
Definition TEMP_DIR : string := "temp".

Definition handled : list Protocol.MessageType :=
  [Protocol.AUTH_REQUEST; Protocol.REGISTER_REQUEST; Protocol.MY_GAMES_REQUEST;
   Protocol.UPLOAD_START; Protocol.UPLOAD_CHUNK; Protocol.UPLOAD_COMPLETE;
   Protocol.UPDATE_GAME; Protocol.REMOVE_GAME].

(** The messages the developer server writes. *)
Inductive response :=
| ErrorMsg (error : string)
| AuthOk (user_id : Z) (username : string)
| AuthFailed
| RegisterOk (user_id : Z)
| RegisterFailed
| UploadReady (expected_size : Z)
| ChunkReceived (received : Z) (progress : rounded)
| UploadSuccess (game_id : Z) (message : string)
| RemoveSuccess (message : string).

Definition type_of (r : response) : Protocol.MessageType :=
  match r with
  | ErrorMsg _ => Protocol.ERROR
  | AuthOk _ _ | AuthFailed => Protocol.AUTH_RESPONSE
  | RegisterOk _ | RegisterFailed => Protocol.REGISTER_RESPONSE
  | UploadReady _ => Protocol.UPLOAD_READY
  | ChunkReceived _ _ => Protocol.SUCCESS
  | UploadSuccess _ _ => Protocol.UPLOAD_SUCCESS
  | RemoveSuccess _ => Protocol.REMOVE_SUCCESS
  end.

(** What handling one request did: the state it left and the message it
    returned, or [None] for the message when the handler raised. *)
Record outcome := Outcome {
  after : state;
  reply : option response }.

Definition error (s : state) (msg : string) : outcome :=
  Outcome s (Some (ErrorMsg msg)).

(** [bytes.fromhex]: pairs of hexadecimal digits, white space between the
    pairs skipped; [None] for the ValueError. *)
Definition hex_digit (c : Ascii.ascii) : option N :=
  let n := Ascii.N_of_ascii c in
  if decide (48 ≤ n ≤ 57)%N then Some (n - 48)%N
  else if decide (97 ≤ n ≤ 102)%N then Some (n - 87)%N
  else if decide (65 ≤ n ≤ 70)%N then Some (n - 55)%N
  else None.

Definition is_space (c : Ascii.ascii) : bool :=
  let n := Ascii.N_of_ascii c in
  bool_decide (n = 32 ∨ 9 ≤ n ≤ 13)%N.

Fixpoint fromhex_chars (s : list Ascii.ascii) : option (list byte) :=
  match s with
  | [] => Some []
  | c :: rest =>
      if is_space c then fromhex_chars rest
      else
        match rest with
        | [] => None
        | d :: rest' =>
            hi ← hex_digit c;
            lo ← hex_digit d;
            b ← Byte.of_N (16 * hi + lo);
            tail ← fromhex_chars rest';
            Some (b :: tail)
        end
  end.

Definition fromhex (s : string) : option (list byte) :=
  fromhex_chars (String.list_ascii_of_string s).

(** The paths of an upload. *)
Definition temp_path (cid file : string) : string :=
  TEMP_DIR +:+ "/" +:+ cid +:+ "/" +:+ file.

Definition final_path (game_id : Z) (version : string) : string :=
  Supervisor.GAMES_DIR +:+ "/" +:+ pretty game_id +:+ "/" +:+ version
    +:+ "/game_package.zip".

Section WithDigest.
Context (sha256_hex : list byte → string).

Definition handle_auth (s : state) (cid : string) (username password : option string)
  : outcome :=
  match str_given username, str_given password with
  | Some u, Some p =>
      match authenticate_developer sha256_hex (db s) u p with
      | None => Outcome s (Some AuthFailed)
      | Some developer =>
          Outcome (with_developer_clients
                     (client_set cid (Some developer) (developer_clients s)) s)
                  (Some (AuthOk (acc_id developer) (acc_username developer)))
      end
  | _, _ => error s "Username and password required"
  end.

Definition handle_register (s : state) (cid : string) (username password : option string)
  : outcome :=
  match str_given username, str_given password with
  | Some u, Some p =>
      match create_developer sha256_hex (db s) u p with
      | (d, Some developer_id) => Outcome (with_db d s) (Some (RegisterOk developer_id))
      | (_, None) => Outcome s (Some RegisterFailed)
      end
  | _, _ => error s "Username and password required"
  end.

(** [handle_upload_start].  The directory can be made and the file opened:
    the file system is taken to have room and to grant the permissions. *)
Definition handle_upload_start (s : state) (cid : string) (name : option string)
    (description version : string) (min_players max_players : Z) (game_type : string)
    (file_size : option Z) (checksum : option string) : outcome :=
  match user_of cid (developer_clients s) with
  | None => error s "Not authenticated"
  | Some user =>
      match str_given name, num_given file_size, str_given checksum with
      | Some name, Some file_size, Some checksum =>
          if bool_decide (Exists (λ g, g_name g = name) (games (db s)))
          then error s "Game name already exists"
          else
            let temp_file := temp_path cid (name +:+ ".zip") in
            let upload := Upload (ModeNew name description min_players max_players game_type)
                                 version file_size checksum temp_file 0 in
            Outcome (with_uploads (<[cid := upload]> (uploads s))
                       (with_fs (Fs.open_wb temp_file (fs s)) s))
                    (Some (UploadReady file_size))
      | _, _, _ => error s "Missing required fields"
      end
  end.

Definition handle_update_game (s : state) (cid : string) (game_id : Z)
    (new_version changelog : string) (file_size : option Z) (checksum : option string)
  : outcome :=
  match user_of cid (developer_clients s) with
  | None => error s "Not authenticated"
  | Some user =>
      match get_game (db s) game_id with
      | None => error s "Game not found or not owned by you"
      | Some game =>
          if decide (g_developer_id game ≠ acc_id user)
          then error s "Game not found or not owned by you"
          else
            match num_given file_size, str_given checksum with
            | Some file_size, Some checksum =>
                let temp_file :=
                  temp_path cid ("update_" +:+ pretty game_id +:+ "_" +:+ new_version
                                   +:+ ".zip") in
                let upload := Upload (ModeUpdate game_id (g_name game) changelog)
                                     new_version file_size checksum temp_file 0 in
                Outcome (with_uploads (<[cid := upload]> (uploads s))
                           (with_fs (Fs.open_wb temp_file (fs s)) s))
                        (Some (UploadReady file_size))
            | _, _ => error s "File info required"
            end
      end
  end.

Definition upload_add_received (n : Z) (u : upload) : upload :=
  Upload (mode u) (up_version u) (up_file_size u) (up_checksum u) (temp_file u)
         (received_bytes u + n).

(** [handle_upload_chunk]: [data] is the value of the key of that name,
    when the payload has it. *)
Definition handle_upload_chunk (s : state) (cid : string) (data : option string)
  : outcome :=
  match uploads s !! cid with
  | None => error s "No upload in progress"
  | Some upload =>
      match str_given data with
      | None => error s "No data in chunk"
      | Some data_hex =>
          match fromhex data_hex with
          | None => Outcome s None
          | Some data =>
              match Fs.write (temp_file upload) data (fs s) with
              | None => Outcome s None
              | Some f =>
                  let upload' := upload_add_received (Z.of_nat (length data)) upload in
                  let progress :=
                    (inject_Z (received_bytes upload') / inject_Z (up_file_size upload')
                     * 100)%Q in
                  Outcome (with_uploads (<[cid := upload']> (uploads s)) (with_fs f s))
                          (Some (ChunkReceived (received_bytes upload') (Round1 progress)))
              end
          end
      end
  end.

(** [_calculate_checksum]: the digest of the file's content. *)
Definition _calculate_checksum (f : Fs.fs) (path : string) : option string :=
  sha256_hex <$> Fs.files f !! path.

(** The [except Exception] branch of [handle_upload_complete]; [e] names
    the exception, whose text the message carries. *)
Definition upload_failed (s : state) (cid : string) (e : string) : outcome :=
  Outcome (with_uploads (delete cid (uploads s)) s)
          (Some (ErrorMsg ("Upload failed: " +:+ e))).

(** [upload['temp_file'].unlink()], [del self.uploads[client_id]] and the
    error returned, in the three places that do so. *)
Definition reject_upload (s : state) (cid : string) (u : upload) (msg : string)
  : outcome :=
  match Fs.unlink (temp_file u) (fs s) with
  | None => upload_failed s cid "FileNotFoundError"
  | Some f => Outcome (with_uploads (delete cid (uploads s)) (with_fs f s))
                      (Some (ErrorMsg msg))
  end.

(** The second half of [handle_upload_complete], from the move of the file
    on; [extracts] tells whether [zipfile] accepts the package. *)
Definition install_upload (s : state) (cid : string) (u : upload) (game_id : Z)
    (game_name changelog : string) (updating extracts : bool) : outcome :=
  let path := final_path game_id (up_version u) in
  match Fs.move (temp_file u) path (fs s) with
  | None => upload_failed s cid "FileNotFoundError"
  | Some f1 =>
      let s1 := with_fs f1 s in
      if negb extracts then upload_failed s1 cid "BadZipFile"
      else
        let f2 := Fs.set_current game_id (up_version u)
                    (Fs.mark_extracted game_id (up_version u) f1) in
        let d := (add_game_version (db s1) game_id (up_version u) changelog path
                                   (up_file_size u) (up_checksum u)).1 in
        let s2 := with_uploads (delete cid (uploads s1)) (with_db d (with_fs f2 s1)) in
        Outcome s2
          (Some (UploadSuccess game_id
                   (if updating
                    then "Game '" +:+ game_name +:+ "' updated to version "
                           +:+ up_version u +:+ "!"
                    else "Game '" +:+ game_name +:+ "' uploaded successfully!")))
  end.

Definition handle_upload_complete (s : state) (cid : string) (extracts : bool)
  : outcome :=
  match user_of cid (developer_clients s) with
  | None => error s "Not authenticated"
  | Some user =>
      match uploads s !! cid with
      | None => error s "No upload in progress"
      | Some upload =>
          let s1 := with_fs (Fs.close (temp_file upload) (fs s)) s in
          match _calculate_checksum (fs s1) (temp_file upload) with
          | None => upload_failed s1 cid "FileNotFoundError"
          | Some received_checksum =>
              if decide (received_checksum ≠ up_checksum upload)
              then reject_upload s1 cid upload "Checksum mismatch - file corrupted"
              else
                match mode upload with
                | ModeUpdate game_id game_name changelog =>
                    match get_game (db s1) game_id with
                    | None =>
                        reject_upload s1 cid upload "Game not found or not owned by you"
                    | Some game =>
                        if decide (g_developer_id game ≠ acc_id user)
                        then reject_upload s1 cid upload
                                           "Game not found or not owned by you"
                        else install_upload s1 cid upload game_id game_name changelog
                                            true extracts
                    end
                | ModeNew name description min_players max_players game_type =>
                    match create_game (db s1) name description (acc_id user)
                                      (up_version upload) min_players max_players
                                      game_type with
                    | (_, None) =>
                        reject_upload s1 cid upload "Failed to create game entry"
                    | (d, Some game_id) =>
                        install_upload (with_db d s1) cid upload game_id name
                                       "Initial release" false extracts
                    end
                end
          end
      end
  end.

Definition handle_remove_game (s : state) (cid : string) (game_id : Z) : outcome :=
  match user_of cid (developer_clients s) with
  | None => error s "Not authenticated"
  | Some user =>
      match get_game (db s) game_id with
      | None => error s "Game not found or not owned by you"
      | Some game =>
          if decide (g_developer_id game ≠ acc_id user)
          then error s "Game not found or not owned by you"
          else
            match update_game_status (db s) game_id Inactive with
            | (d, true) =>
                Outcome (with_db d s)
                        (Some (RemoveSuccess ("Game '" +:+ g_name game
                                                +:+ "' has been removed")))
            | (d, false) => error (with_db d s) "Failed to remove game"
            end
      end
  end.

End WithDigest.

(** The start of [handle_client] and its [finally] block. *)
Definition connect (s : state) (cid : string) : state :=
  with_developer_clients (client_set cid None (developer_clients s)) s.

Definition disconnect (s : state) (cid : string) : state :=
  with_developer_clients (client_del cid (developer_clients s)) s.

End Developer.

(** ** The two servers on one store: what happens, and what it does *)

Module System.
Import Server.

(** A connection opening or closing, a request arriving on a connection,
    a turn of the sweeper, or the child of a room exiting.  A request
    carries the values of its payload and what the world outside answers
    while it is handled. *)
Inductive event :=
| LobbyConnect (cid : string)
| LobbyDisconnect (cid : string)
| LobbyAuth (cid : string) (username password : option string) (session_token : string)
| LobbyRegister (cid : string) (username password : option string)
| GameListRequest (cid : string)
| DownloadRequest (cid : string) (game_id : option Z) (version : option string)
                  (env : Lobby.download_env)
| CreateRoom (cid : string) (game_id : option Z) (name : option string)
             (max_players : option Z) (code : string)
| JoinRoom (cid : string) (room_id : Z)
| LeaveRoom (cid : string) (room_id : Z)
| StartGame (cid : string) (room_id : Z) (env : Supervisor.spawn_env)
| SubmitReview (cid : string) (game_id rating : option Z) (comment : string)
| SweepRooms (expired : Z → bool)
| ChildExit (room_id : Z)
| DevConnect (cid : string)
| DevDisconnect (cid : string)
| DevAuth (cid : string) (username password : option string)
| DevRegister (cid : string) (username password : option string)
| UploadStart (cid : string) (name : option string) (description version : string)
              (min_players max_players : Z) (game_type : string)
              (file_size : option Z) (checksum : option string)
| UpdateGame (cid : string) (game_id : Z) (new_version changelog : string)
             (file_size : option Z) (checksum : option string)
| UploadChunk (cid : string) (data : option string)
| UploadComplete (cid : string) (extracts : bool)
| RemoveGame (cid : string) (game_id : Z).

(** One turn of the loop of [LobbyServer.handle_client] on an open
    connection: a handler that raises ends the session. *)
Definition lobby_request (s : state) (cid : string) (handler : state → Lobby.outcome)
  : state :=
  match client_get cid (lobby_clients s) with
  | None => s
  | Some _ =>
      let o := handler s in
      match Lobby.reply o with
      | Some _ => Lobby.after o
      | None => Lobby.cleanup_client (Lobby.after o) cid
      end
  end.

(** The same for [DeveloperServer.handle_client]. *)
Definition developer_request (s : state) (cid : string)
    (handler : state → Developer.outcome) : state :=
  match client_get cid (developer_clients s) with
  | None => s
  | Some _ =>
      let o := handler s in
      match Developer.reply o with
      | Some _ => Developer.after o
      | None => Developer.disconnect (Developer.after o) cid
      end
  end.

Section WithDigest.
Context (sha256_hex : list byte → string).

Definition step (s : state) (e : event) : state :=
  match e with
  | LobbyConnect cid => Lobby.connect s cid
  | LobbyDisconnect cid => Lobby.cleanup_client s cid
  | LobbyAuth cid u p token =>
      lobby_request s cid (λ s, Lobby.handle_auth sha256_hex s cid u p token)
  | LobbyRegister cid u p =>
      lobby_request s cid (λ s, Lobby.handle_register sha256_hex s cid u p)
  | GameListRequest cid => lobby_request s cid (λ s, Lobby.handle_game_list s cid)
  | DownloadRequest cid gid v env =>
      lobby_request s cid (λ s, Lobby.handle_download_request s cid gid v env)
  | CreateRoom cid gid name mx code =>
      lobby_request s cid (λ s, Lobby.handle_create_room s cid gid name mx code)
  | JoinRoom cid rid => lobby_request s cid (λ s, Lobby.handle_join_room s cid rid)
  | LeaveRoom cid rid => lobby_request s cid (λ s, Lobby.handle_leave_room s cid rid)
  | StartGame cid rid env =>
      lobby_request s cid (λ s, Lobby.handle_start_game s cid rid env)
  | SubmitReview cid gid r c =>
      lobby_request s cid (λ s, Lobby.handle_submit_review s cid gid r c)
  | SweepRooms expired => Lobby.cleanup_expired_rooms s expired
  | ChildExit rid => Lobby.child_exited s rid
  | DevConnect cid => Developer.connect s cid
  | DevDisconnect cid => Developer.disconnect s cid
  | DevAuth cid u p =>
      developer_request s cid (λ s, Developer.handle_auth sha256_hex s cid u p)
  | DevRegister cid u p =>
      developer_request s cid (λ s, Developer.handle_register sha256_hex s cid u p)
  | UploadStart cid name de v mn mx ty sz ck =>
      developer_request s cid
        (λ s, Developer.handle_upload_start s cid name de v mn mx ty sz ck)
  | UpdateGame cid gid v cl sz ck =>
      developer_request s cid (λ s, Developer.handle_update_game s cid gid v cl sz ck)
  | UploadChunk cid data =>
      developer_request s cid (λ s, Developer.handle_upload_chunk s cid data)
  | UploadComplete cid extracts =>
      developer_request s cid
        (λ s, Developer.handle_upload_complete sha256_hex s cid extracts)
  | RemoveGame cid gid =>
      developer_request s cid (λ s, Developer.handle_remove_game s cid gid)
  end.

Definition run (s : state) (es : list event) : state := foldl step s es.

End WithDigest.

End System.


(** ** Invariants of the store, as predicates on a database *)

Module Inv.
Import Store.

(** Every room's stored counter is the number of its membership rows. *)
Definition rooms_counted (d : db) : Prop :=
  Forall (λ r, room_current_players r = Z.of_nat (length (members_of (room_id r) d)))
         (rooms d).

(** Row ids never run ahead of their sequence, and membership rows point
    at rooms that were created (the foreign key). *)
Definition rooms_in_sequence (d : db) : Prop :=
  Forall (λ r, room_id r ≤ seq_rooms d) (rooms d) ∧
  Forall (λ m, m.1 ≤ seq_rooms d) (room_players d).


(** Game ids never run ahead of their sequence, and review and download
    rows point at games that were created (the foreign keys). *)
Definition games_in_sequence (d : db) : Prop :=
  Forall (λ g, g_id g ≤ seq_games d) (games d)
  ∧ Forall (λ r, rv_game_id r ≤ seq_games d) (reviews d)
  ∧ Forall (λ r, dl_game_id r ≤ seq_games d) (downloads d).

(** Every game's stored rating figures are those of its review rows. *)
Definition ratings_refreshed (d : db) : Prop :=
  Forall (λ g, g_rating_count g = Z.of_nat (length (ratings_of (g_id g) d))
               ∧ g_average_rating g = mean (ratings_of (g_id g) d))
         (games d).

(** Every game's stored download counter is the number of its download rows. *)
Definition downloads_of (gid : Z) (d : db) : list download :=
  filter (λ r, dl_game_id r = gid) (downloads d).

Definition downloads_counted (d : db) : Prop :=
  Forall (λ g, g_download_count g = Z.of_nat (length (downloads_of (g_id g) d)))
         (games d).

(** No two review rows have the same game and player. *)
Definition review_key (r : review) : Z * Z := (rv_game_id r, rv_player_id r).

Definition reviews_keyed (d : db) : Prop := NoDup (review_key <$> reviews d).

(** The store calls the two servers make: a room is marked [playing]
    together with the port of its game server, and closed without one;
    [update_game_version] has no caller. *)
Definition served (c : call) : Prop :=
  match c with
  | UpdateRoomStatus _ Playing port => ∃ p, port = Some p ∧ p ≠ 0
  | UpdateRoomStatus _ Closed port => port = None
  | UpdateRoomStatus _ Waiting _ => False
  | UpdateGameVersion _ _ => False
  | _ => True
  end.

(** A room that is [playing] has the port of a game server. *)
Definition playing_has_port (d : db) : Prop :=
  Forall (λ r, room_status_of r = Playing → ∃ p, room_game_port r = Some p ∧ p ≠ 0)
         (rooms d).


(** The ports of the game servers: handed out upwards from the first one,
    and no two entries of the supervisor with the same port. *)
Definition ports_in_order (m : Supervisor.manager) : Prop :=
  Supervisor.GAME_SERVER_START_PORT ≤ Supervisor.next_port m
  ∧ (∀ rid info, Supervisor.game_processes m !! rid = Some info →
       Supervisor.GAME_SERVER_START_PORT ≤ Supervisor.port info < Supervisor.next_port m)
  ∧ (∀ r1 r2 i1 i2, r1 ≠ r2 →
       Supervisor.game_processes m !! r1 = Some i1 →
       Supervisor.game_processes m !! r2 = Some i2 →
       Supervisor.port i1 ≠ Supervisor.port i2).


(** Version rows point at games that were created (the foreign key). *)
Definition versions_in_sequence (d : db) : Prop :=
  Forall (λ g, g_id g ≤ seq_games d) (games d)
  ∧ Forall (λ v, gv_game_id v ≤ seq_games d) (game_versions d).

(** The accounts that connections are logged in as are rows of the store:
    players for the lobby, developers for the developer server. *)
Definition known_in (table : list account) (c : list (string * option account)) : Prop :=
  Forall (λ kv, ∀ a, kv.2 = Some a → a ∈ table) c.

End Inv.

(** ** Concrete runs used as examples *)

Module Scenario.
Import Json Protocol.

(** A dispatch table with the lobby's keys; what the handlers do plays no
    part in the examples, so each one answers a bare SUCCESS. *)
Definition lobby_table : MessageType → option (json → unit → result (unit * option Message)) :=
  λ t, if decide (t ∈ Lobby.handled)
       then Some (λ _ st, inr (st, Some (Msg SUCCESS (Dict []))))
       else None.

Definition frame_of (m : Message) : list byte :=
  match serialize m with
  | inr frame => frame
  | inl _ => []
  end.

(** A HEARTBEAT frame, and a frame of the same shape whose tag, 0x9999, is
    no member of [MessageType]. *)
Definition heartbeat_frame : list byte :=
  Eval vm_compute in frame_of (Msg HEARTBEAT (Dict [])).

Definition stray_tag_frame : list byte :=
  Eval vm_compute in
    default [] (x ← Byte.of_N 153; Some (take 4 heartbeat_frame ++ [x; x]
                                           ++ drop 6 heartbeat_frame)).

(** A developer publishing a game and then sending an update.  The
    packages are four bytes long; their check sums are the real ones. *)
Definition checksum_of (hex : string) : string :=
  Sha256.hexdigest (default [] (Developer.fromhex hex)).

Definition developer_signed_in : list System.event :=
  [System.DevConnect "d";
   System.DevRegister "d" (Some "dev") (Some "pw");
   System.DevAuth "d" (Some "dev") (Some "pw")].

Definition upload_in_flight : list System.event :=
  developer_signed_in ++
  [System.UploadStart "d" (Some "pong") "" "1.0.0" 2 2 "cli" (Some 4)
     (Some (checksum_of "504b0506"));
   System.UploadChunk "d" (Some "504b0506")].

Definition published : list System.event :=
  upload_in_flight ++ [System.UploadComplete "d" true].

Definition update_in_flight (version : string) : list System.event :=
  published ++
  [System.UpdateGame "d" 1 version "fixes" (Some 4) (Some (checksum_of "504b0708"));
   System.UploadChunk "d" (Some "504b0708")].

Definition corrupted_upload : list System.event :=
  developer_signed_in ++
  [System.UploadStart "d" (Some "pong") "" "1.0.0" 2 2 "cli" (Some 4)
     (Some (checksum_of "504b0506"));
   System.UploadChunk "d" (Some "504b0000")].

Definition state_after (es : list System.event) : Server.state :=
  System.run Sha256.hexdigest Server.init es.

(** The rows and the uploads those runs produce. *)
Definition dev : Store.account :=
  Store.Account 1 "dev" (Store.hash_password Sha256.hexdigest "pw").

Definition pong : Store.game :=
  Store.Game 1 "pong" "" 1 "1.0.0" 2 2 "cli" Store.Active 0 0 0.

Definition first_upload : Server.upload :=
  Server.Upload (Server.ModeNew "pong" "" 2 2 "cli") "1.0.0" 4 (checksum_of "504b0506")
                "temp/d/pong.zip" 4.

Definition update_to (version : string) : Server.upload :=
  Server.Upload (Server.ModeUpdate 1 "pong" "fixes") version 4 (checksum_of "504b0708")
                ("temp/d/update_1_" +:+ version +:+ ".zip") 4.

Definition bytes_of (hex : string) : list byte := default [] (Developer.fromhex hex).

(** A player opening a room for the published game and starting it; the
    game server is there, and its child process is number 4242. *)
Definition child_runs : Supervisor.spawn_env :=
  Supervisor.SpawnEnv (λ _, true) (Some 4242) false.

Definition game_started : list System.event :=
  published ++
  [System.LobbyConnect "p";
   System.LobbyRegister "p" (Some "alice") (Some "pw");
   System.LobbyAuth "p" (Some "alice") (Some "pw") "token";
   System.CreateRoom "p" (Some 1) None None "ABCD1234";
   System.StartGame "p" 1 child_runs].

(** More frames: a request the lobby has a handler for, and the answer of
    the table above. *)
Definition game_list_frame : list byte :=
  Eval vm_compute in frame_of (Msg GAME_LIST_REQUEST (Dict [])).

Definition success_frame : list byte :=
  Eval vm_compute in frame_of (Msg SUCCESS (Dict [])).

(** A table whose handlers all raise. *)
Definition raising_table : MessageType → option (json → unit → result (unit * option Message)) :=
  λ _, Some (λ _ _, inl ConnectionError).

(** A player signing in once the game is published, and a connection
    whose writes all succeed. *)
Definition alice : Store.account :=
  Store.Account 1 "alice" (Store.hash_password Sha256.hexdigest "pw").

Definition player_signs_in : list System.event :=
  [System.LobbyConnect "p";
   System.LobbyRegister "p" (Some "alice") (Some "pw");
   System.LobbyAuth "p" (Some "alice") (Some "pw") "token"].

Definition player_signed_in : list System.event := published ++ player_signs_in.

Definition streams : Lobby.download_env := Lobby.DownloadEnv false false None.

(** The same upload, with the player already signed in when it ends. *)
Definition upload_watched : list System.event :=
  developer_signed_in ++ player_signs_in ++
  [System.UploadStart "d" (Some "pong") "" "1.0.0" 2 2 "cli" (Some 4)
     (Some (checksum_of "504b0506"));
   System.UploadChunk "d" (Some "504b0506")].

(** An upload that has been announced and has received nothing yet. *)
Definition upload_started : list System.event :=
  developer_signed_in ++
  [System.UploadStart "d" (Some "pong") "" "1.0.0" 2 2 "cli" (Some 4)
     (Some (checksum_of "504b0506"))].

Definition announced_upload : Server.upload :=
  Server.Upload (Server.ModeNew "pong" "" 2 2 "cli") "1.0.0" 4 (checksum_of "504b0506")
                "temp/d/pong.zip" 0.

(** A second developer, who owns nothing. *)
Definition eve : Store.account :=
  Store.Account 2 "eve" (Store.hash_password Sha256.hexdigest "pw").

Definition second_developer : list System.event :=
  published ++
  [System.DevConnect "e";
   System.DevRegister "e" (Some "eve") (Some "pw");
   System.DevAuth "e" (Some "eve") (Some "pw")].

(** The room of the player, before the game is started. *)
Definition room_opened : list System.event :=
  player_signed_in ++ [System.CreateRoom "p" (Some 1) None None "ABCD1234"].

Definition room_1 : Store.room :=
  Store.Room 1 1 1 "alice's Room" "ABCD1234" 4 1 Store.Waiting None.

End Scenario.

(* ================================================================== *)
(** * Properties *)
(* ================================================================== *)

(** ** The JSON text: [loads] inverts [dumps] *)

Section JsonFacts.
Import Json.
Local Open Scope N_scope.

Lemma lor_high_low (a y : N) (n : N) :
  y < 2 ^ n → N.lor (a * 2 ^ n) y = a * 2 ^ n + y.
Proof.
  intros Hy.
  assert (Hland : N.land (a * 2 ^ n) y = 0).
  { apply N.bits_inj. intros i. rewrite N.land_spec, N.bits_0.
    destruct (N.lt_ge_cases i n) as [Hi|Hi].
    - by rewrite N.mul_pow2_bits_low.
    - rewrite <- (N.mod_small y (2 ^ n)) by done.
      rewrite N.mod_pow2_bits_high by done. apply andb_false_r. }
  rewrite <- N.lxor_lor by done. symmetry. by apply N.add_nocarry_lxor.
Qed.

Lemma below_16 (P : N → Prop) :
  (∀ n : nat, (n < 16)%nat → P (N.of_nat n)) → ∀ d, d < 16 → P d.
Proof.
  intros H d Hd. rewrite <- (N2Nat.id d). apply H. lia.
Qed.

Lemma hexval_hexdigit (d : N) : d < 16 → hexval (hexdigit d) = Some d.
Proof.
  revert d. apply below_16. intros n Hn.
  do 16 (destruct n as [|n]; [reflexivity|]). lia.
Qed.

Lemma decode_hex4 (n : N) :
  n < 0x10000 →
  match hex4 n with
  | [h1; h2; h3; h4] => decode_uXXXX h1 h2 h3 h4 = Some n
  | _ => False
  end.
Proof.
  intros Hn. unfold hex4, decode_uXXXX.
  rewrite !hexval_hexdigit by (apply N.mod_lt; done). simpl.
  f_equal.
  replace (n / 4096) with (n / 16 / 16 / 16) by (by rewrite !N.Div0.div_div).
  replace (n / 256) with (n / 16 / 16) by (by rewrite !N.Div0.div_div).
  pose proof (N.div_mod n 16). pose proof (N.mod_lt n 16).
  pose proof (N.div_mod (n / 16) 16). pose proof (N.mod_lt (n / 16) 16).
  pose proof (N.div_mod (n / 16 / 16) 16). pose proof (N.mod_lt (n / 16 / 16) 16).
  assert (n / 16 / 16 / 16 < 16).
  { rewrite !N.Div0.div_div by done. by apply N.Div0.div_lt_upper_bound. }
  rewrite (N.mod_small (n / 16 / 16 / 16)) by done.
  lia.
Qed.

Lemma hex4_decode (n : N) (r : py_str) :
  n < 0x10000 →
  ∃ h1 h2 h3 h4, hex4 n ++ r = h1 :: h2 :: h3 :: h4 :: r
                 ∧ decode_uXXXX h1 h2 h3 h4 = Some n.
Proof.
  intros Hn. pose proof (decode_hex4 n Hn) as H. unfold hex4 in *. eauto 10.
Qed.

Lemma scanstring_u_plain (h1 h2 h3 h4 uni : N) (r2 : py_str) :
  decode_uXXXX h1 h2 h3 h4 = Some uni →
  (0xd800 <=? uni) && (uni <=? 0xdbff) = false →
  scanstring (92 :: 117 :: h1 :: h2 :: h3 :: h4 :: r2) = prepend uni (scanstring r2).
Proof.
  intros Hd Hs. cbn [scanstring N.eqb Pos.eqb]. by rewrite Hd, Hs.
Qed.

Lemma scanstring_u_pair (h1 h2 h3 h4 k1 k2 k3 k4 uni uni2 : N) (r4 : py_str) :
  decode_uXXXX h1 h2 h3 h4 = Some uni →
  (0xd800 <=? uni) && (uni <=? 0xdbff) = true →
  decode_uXXXX k1 k2 k3 k4 = Some uni2 →
  (0xdc00 <=? uni2) && (uni2 <=? 0xdfff) = true →
  scanstring (92 :: 117 :: h1 :: h2 :: h3 :: h4 :: 92 :: 117 :: k1 :: k2 :: k3 :: k4 :: r4)
  = prepend (0x10000 + N.lor (N.shiftl (uni - 0xd800) 10) (uni2 - 0xdc00))
            (scanstring r4).
Proof.
  intros Hd Hs Hd2 Hs2. cbn [scanstring N.eqb Pos.eqb andb]. by rewrite Hd, Hs, Hd2, Hs2.
Qed.

(** The two halves [encode_basestring_ascii] writes for a code point above
    the basic plane, and the code point [py_scanstring] rebuilds. *)
Lemma surrogate_pair (c : N) :
  0x10000 ≤ c → c < 0x110000 →
  let n := c - 0x10000 in
  let s1 := N.lor 0xd800 (N.land (N.shiftr n 10) 0x3ff) in
  let s2 := N.lor 0xdc00 (N.land n 0x3ff) in
  s1 < 0x10000 ∧ s2 < 0x10000
  ∧ (0xd800 <=? s1) && (s1 <=? 0xdbff) = true
  ∧ (0xdc00 <=? s2) && (s2 <=? 0xdfff) = true
  ∧ 0x10000 + N.lor (N.shiftl (s1 - 0xd800) 10) (s2 - 0xdc00) = c.
Proof.
  intros Hlo Hhi n s1 s2.
  assert (Hn : n < 0x100000) by (unfold n; lia).
  assert (Hs1 : s1 = 0xd800 + n / 1024).
  { unfold s1. change 0x3ff with (N.ones 10). rewrite N.land_ones, N.shiftr_div_pow2.
    change (2 ^ 10) with 1024.
    rewrite (N.mod_small (n / 1024)) by (apply N.Div0.div_lt_upper_bound; lia).
    change 0xd800 with (54 * 2 ^ 10). rewrite lor_high_low; [done|].
    change (2 ^ 10) with 1024. apply N.Div0.div_lt_upper_bound; lia. }
  assert (Hs2 : s2 = 0xdc00 + n mod 1024).
  { unfold s2. change 0x3ff with (N.ones 10). rewrite N.land_ones.
    change 0xdc00 with (55 * 2 ^ 10). rewrite lor_high_low; [done|].
    by apply N.mod_lt. }
  assert (n / 1024 < 1024) by (apply N.Div0.div_lt_upper_bound; lia).
  assert (n mod 1024 < 1024) by (by apply N.mod_lt).
  assert (Hnc : n + 0x10000 = c) by (unfold n; lia).
  pose proof (N.div_mod n 1024) as Hdm.
  rewrite Hs1, Hs2. clearbody s1 s2 n. clear Hs1 Hs2.
  generalize dependent (n / 1024). generalize dependent (n mod 1024).
  intros r Hr q Hq Hdm. repeat split; try lia.
  - apply andb_true_iff. split; apply N.leb_le; lia.
  - apply andb_true_iff. split; apply N.leb_le; lia.
  - replace (0xd800 + q - 0xd800) with q by lia.
    replace (0xdc00 + r - 0xdc00) with r by lia.
    rewrite N.shiftl_mul_pow2, lor_high_low by done.
    change (2 ^ 10) with 1024. lia.
Qed.

Lemma scanstring_char (c : N) (tail : py_str) :
  scalar c → scanstring (escape_char c ++ tail) = prepend c (scanstring tail).
Proof.
  intros Hc. unfold escape_char.
  destruct (N.eqb_spec c 34) as [->|N34]; [reflexivity|].
  destruct (N.eqb_spec c 92) as [->|N92]; [reflexivity|].
  destruct (N.eqb_spec c 10) as [->|_]; [reflexivity|].
  destruct (N.eqb_spec c 13) as [->|_]; [reflexivity|].
  destruct (N.eqb_spec c 9) as [->|_]; [reflexivity|].
  destruct (N.eqb_spec c 12) as [->|_]; [reflexivity|].
  destruct (N.eqb_spec c 8) as [->|_]; [reflexivity|].
  destruct ((32 <=? c) && (c <=? 126)) eqn:Hp.
  - (* a printable character stands for itself *)
    apply andb_true_iff in Hp as [Hlo%N.leb_le Hhi%N.leb_le].
    cbn [app scanstring].
    rewrite (proj2 (N.eqb_neq c 34)), (proj2 (N.eqb_neq c 92)) by done.
    by rewrite (proj2 (N.ltb_ge c 32)).
  - destruct (N.ltb_spec c 0x10000) as [Hlt|Hge].
    + (* one \uXXXX escape *)
      destruct (hex4_decode c tail Hlt) as (h1 & h2 & h3 & h4 & Heq & Hd).
      rewrite <- app_assoc, Heq. apply scanstring_u_plain; [done|].
      apply andb_false_iff. destruct Hc as [Hc|[Hc _]].
      * left. apply N.leb_gt. lia.
      * right. apply N.leb_gt. lia.
    + (* a surrogate pair *)
      assert (Hmax : c < 0x110000) by (destruct Hc as [Hc|[_ Hc]]; lia).
      destruct (surrogate_pair c Hge Hmax) as (Hs1 & Hs2 & Hhigh & Hlow & Hval).
      cbv zeta in *.
      set (s1 := N.lor 55296 _) in *. set (s2 := N.lor 56320 _) in *.
      destruct (hex4_decode s2 tail Hs2) as (k1 & k2 & k3 & k4 & Heq2 & Hd2).
      destruct (hex4_decode s1 (92 :: 117 :: k1 :: k2 :: k3 :: k4 :: tail) Hs1)
        as (h1 & h2 & h3 & h4 & Heq1 & Hd1).
      rewrite <- !app_assoc, Heq2.
      change (scanstring (92 :: 117 ::
                hex4 s1 ++ 92 :: 117 :: k1 :: k2 :: k3 :: k4 :: tail)
              = prepend c (scanstring tail)).
      rewrite Heq1. rewrite (scanstring_u_pair _ _ _ _ _ _ _ _ s1 s2) by done.
      by rewrite Hval.
Qed.

Lemma scanstring_escaped (s rest : py_str) :
  Forall scalar s →
  scanstring ((s ≫= escape_char) ++ 34 :: rest) = Some (s, rest).
Proof.
  induction 1 as [|c s Hc Hs IH]; [done|].
  rewrite bind_cons, <- app_assoc, scanstring_char, IH by done. done.
Qed.

(** **** Integers *)

Lemma read_uint_print (u : Decimal.uint) (rest : py_str) :
  delimited rest → read_uint (print_uint u ++ rest) = (u, rest).
Proof.
  intros Hrest. induction u; simpl; rewrite ?IHu; try reflexivity.
  destruct rest as [|c r]; [done|]. simpl in *.
  by destruct Hrest as [->|[->| ->]].
Qed.

Lemma pos_to_uint_head (p : positive) :
  match Pos.to_uint p with
  | Decimal.Nil | Decimal.D0 _ => False
  | _ => True
  end.
Proof.
  assert (Hn : Decimal.unorm (Pos.to_uint p) = Pos.to_uint p).
  { rewrite <- (DecimalPos.Unsigned.to_of (Pos.to_uint p)).
    by rewrite DecimalPos.Unsigned.of_to. }
  pose proof (DecimalPos.Unsigned.to_uint_nonnil p) as Hnil.
  pose proof (DecimalPos.Unsigned.to_uint_nonzero p) as Hz.
  destruct (Pos.to_uint p) as [|u| | | | | | | | |] eqn:E; try done.
  rewrite DecimalFacts.unorm_D0 in Hn. unfold Decimal.unorm in Hn.
  destruct (Decimal.nzhead u) eqn:En; try done.
  by apply DecimalFacts.nzhead_nonzero in En.
Qed.

Lemma scan_int_print (p : positive) (rest : py_str) :
  delimited rest →
  scan_int (print_uint (Pos.to_uint p) ++ rest) = Some (Pos.to_uint p, rest).
Proof.
  intros Hrest. pose proof (pos_to_uint_head p) as Hh.
  pose proof (read_uint_print (Pos.to_uint p) rest Hrest) as Hr.
  destruct (Pos.to_uint p); try done; unfold scan_int; simpl in *; by rewrite Hr.
Qed.

Lemma delimited_no_float (rest : py_str) : delimited rest → float_follows rest = false.
Proof. destruct rest as [|c r]; [done|]. by intros [->|[->| ->]]. Qed.

Lemma print_pos_head (p : positive) :
  ∃ c r, print_uint (Pos.to_uint p) = c :: r ∧ is_digit c = true.
Proof.
  pose proof (pos_to_uint_head p) as Hh.
  destruct (Pos.to_uint p); try done; simpl; eauto.
Qed.

Lemma scan_number_repr (z : Z) (rest : py_str) :
  delimited rest → scan_number (repr_int z ++ rest) = Some (z, rest).
Proof.
  intros Hrest. pose proof (DecimalZ.of_to z) as Hz. unfold repr_int.
  destruct z as [|p|p]; cbn [Z.to_int] in *.
  - simpl. by rewrite delimited_no_float.
  - destruct (print_pos_head p) as (c & r & E & Hd).
    assert (Hc : (c =? 45) = false).
    { apply andb_true_iff in Hd as [H1%N.leb_le _]. apply N.eqb_neq. lia. }
    unfold scan_number. rewrite E. simpl app. lazy beta iota. rewrite Hc.
    change (c :: r ++ rest) with ((c :: r) ++ rest). rewrite <- E.
    rewrite scan_int_print by done. simpl in Hz |- *.
    rewrite delimited_no_float by done. by rewrite Hz.
  - unfold scan_number. cbn [app N.eqb Pos.eqb].
    rewrite scan_int_print by done. simpl in Hz |- *.
    rewrite delimited_no_float by done. by rewrite Hz.
Qed.

(** **** Documents *)

Lemma json_ind' (P : json → Prop) :
  P Null → (∀ b, P (Bool b)) → (∀ z, P (Int z)) → (∀ s, P (Str s)) →
  (∀ items, Forall P items → P (List items)) →
  (∀ items, Forall (λ kv, P kv.2) items → P (Dict items)) →
  ∀ v, P v.
Proof.
  intros HN HB HI HS HL HD. fix IH 1.
  intros [|b|z|s|items|items]; [exact HN|apply HB|apply HI|apply HS| |].
  - apply HL. induction items as [|x xs IHxs]; constructor; [apply IH|exact IHxs].
  - apply HD. induction items as [|[k x] xs IHxs]; constructor; [apply IH|exact IHxs].
Qed.

Lemma join_cons2 (sep p q : py_str) (ps : list py_str) :
  join sep (p :: q :: ps) = p ++ sep ++ join sep (q :: ps).
Proof. unfold join. rewrite bind_cons. by rewrite <- app_assoc. Qed.

Lemma join_fmap_cons2 {A} (f : A → py_str) (sep : py_str) (x y : A) (l : list A) :
  join sep (f <$> x :: y :: l) = f x ++ sep ++ join sep (f <$> y :: l).
Proof. rewrite !fmap_cons. apply join_cons2. Qed.

Lemma skip_ws_head (c : N) (r : py_str) : is_ws c = false → skip_ws (c :: r) = c :: r.
Proof. intros H. simpl. by rewrite H. Qed.

Lemma dumps_head (v : json) : ∃ c r, dumps v = c :: r ∧ opener c.
Proof.
  destruct v as [|[]|z|s|items|items]; simpl; try (do 2 eexists; split; [reflexivity|done]).
  unfold repr_int. destruct z as [|p|p]; simpl.
  - do 2 eexists; split; [reflexivity|done].
  - destruct (print_pos_head p) as (c & r & -> & Hd). exists c, r. split; [done|].
    apply andb_true_iff in Hd as [H1%N.leb_le H2%N.leb_le]. unfold opener, is_ws.
    rewrite !(proj2 (N.eqb_neq c _)) by lia. repeat split; lia.
  - do 2 eexists; split; [reflexivity|done].
Qed.

Lemma skip_ws_dumps (v : json) (rest : py_str) :
  skip_ws (dumps v ++ rest) = dumps v ++ rest.
Proof.
  destruct (dumps_head v) as (c & r & -> & Hws & _). by apply skip_ws_head.
Qed.

Lemma dict_set_fresh (k : py_str) (v : json) (d : list (py_str * json)) :
  k ∉ d.*1 → dict_set k v d = d ++ [(k, v)].
Proof.
  induction d as [|[k' v'] d IH]; [done|]. intros Hk. simpl in *.
  apply not_elem_of_cons in Hk as [Hne Hk]. rewrite decide_False by done.
  by rewrite IH.
Qed.

Lemma dict_of_pairs_distinct (items : list (py_str * json)) :
  NoDup items.*1 → dict_of_pairs items = items.
Proof.
  unfold dict_of_pairs.
  cut (∀ acc, NoDup (acc ++ items).*1 →
              foldl (λ d kv, dict_set kv.1 kv.2 d) acc items = acc ++ items).
  { intros H Hnd. by apply (H []). }
  induction items as [|[k v] items IH]; intros acc Hnd; simpl.
  - by rewrite app_nil_r.
  - rewrite dict_set_fresh.
    + rewrite IH; [by rewrite <- app_assoc|]. by rewrite <- app_assoc.
    + rewrite fmap_app in Hnd. apply NoDup_app in Hnd as (_ & Hdis & _).
      intros Hin. apply (Hdis k Hin). simpl. left.
Qed.

Lemma scan_once_string (f : nat) (r : py_str) :
  scan_once (S f) (34 :: r) = '(str, rest) ← scanstring r; Some (Str str, rest).
Proof. reflexivity. Qed.

Lemma scan_once_list (f : nat) (c1 : N) (r1 : py_str) :
  opener c1 →
  scan_once (S f) (91 :: c1 :: r1)
  = '(items, rest) ← scan_items f (c1 :: r1); Some (List items, rest).
Proof.
  intros (Hws & H93 & _). cbn [scan_once N.eqb Pos.eqb].
  rewrite skip_ws_head by done. by rewrite (proj2 (N.eqb_neq c1 93)).
Qed.

Lemma scan_once_dict (f : nat) (r1 : py_str) :
  scan_once (S f) (123 :: 34 :: r1)
  = '(pairs, rest) ← scan_members f (34 :: r1); Some (Dict (dict_of_pairs pairs), rest).
Proof. reflexivity. Qed.

Lemma scan_once_number (f : nat) (z : Z) (rest : py_str) :
  scan_once (S f) (repr_int z ++ rest)
  = '(z', rest') ← scan_number (repr_int z ++ rest); Some (Int z', rest').
Proof.
  unfold repr_int. destruct z as [|p|p]; cbn [Z.to_int]; try reflexivity.
  destruct (print_pos_head p) as (c & r & -> & Hd).
  apply andb_true_iff in Hd as [H1%N.leb_le H2%N.leb_le].
  cbn [app scan_once]. by rewrite !(proj2 (N.eqb_neq c _)) by lia.
Qed.

Lemma scan_items_eq (f : nat) (s : py_str) :
  scan_items (S f) s
  = '(v, rest) ← scan_once f s;
    match skip_ws rest with
    | c :: r =>
        if c =? 93 then Some ([v], r)
        else if c =? 44 then
          '(vs, rest') ← scan_items f (skip_ws r); Some (v :: vs, rest')
        else None
    | [] => None
    end.
Proof. reflexivity. Qed.

Lemma skip_ws_join (sep : py_str) (v : json) (vs : list json) (rest : py_str) :
  skip_ws (join sep (dumps <$> v :: vs) ++ rest) = join sep (dumps <$> v :: vs) ++ rest.
Proof.
  unfold join. rewrite fmap_cons, <- app_assoc. apply skip_ws_dumps.
Qed.

Lemma scan_items_joined (items : list json) :
  items ≠ [] →
  Forall (λ v, ∀ fuel rest, (weight v ≤ fuel)%nat → delimited rest →
               scan_once fuel (dumps v ++ rest) = Some (v, rest)) items →
  ∀ fuel rest,
    (foldr (λ x n, S (weight x + n)) O items ≤ fuel)%nat →
    scan_items fuel (join [44; 32] (dumps <$> items) ++ 93 :: rest) = Some (items, rest).
Proof.
  induction items as [|v vs IH]; [done|]. intros _ Hall fuel rest Hfuel.
  apply Forall_cons in Hall as [Hv Hvs].
  destruct fuel as [|f]; [simpl in Hfuel; lia|]. simpl in Hfuel.
  rewrite scan_items_eq. destruct vs as [|v2 vs].
  - simpl. rewrite app_nil_r.
    rewrite Hv by (simpl; auto; lia). reflexivity.
  - rewrite join_fmap_cons2, <- !app_assoc.
    remember (join [44; 32] (dumps <$> v2 :: vs)) as J eqn:EJ.
    rewrite Hv by (simpl; auto; lia). simpl. subst J.
    rewrite skip_ws_join, IH; [done|done|done|]. simpl in *. lia.
Qed.

Lemma scan_members_eq (f : nat) (r : py_str) :
  scan_members (S f) (34 :: r)
  = '(key, rest) ← scanstring r;
    match skip_ws rest with
    | c1 :: r1 =>
        if c1 =? 58 then
          '(v, rest1) ← scan_once f (skip_ws r1);
          match skip_ws rest1 with
          | c2 :: r2 =>
              if c2 =? 125 then Some ([(key, v)], r2)
              else if c2 =? 44 then
                '(kvs, rest2) ← scan_members f (skip_ws r2);
                Some ((key, v) :: kvs, rest2)
              else None
          | [] => None
          end
        else None
    | [] => None
    end.
Proof. reflexivity. Qed.

Local Abbreviation member :=
  (λ kv : py_str * json, encode_basestring_ascii kv.1 ++ [58; 32] ++ dumps kv.2).

Lemma member_text (k : py_str) (v : json) (rest : py_str) :
  encode_basestring_ascii k ++ [58; 32] ++ dumps v ++ rest
  = 34 :: (k ≫= escape_char) ++ 34 :: 58 :: 32 :: dumps v ++ rest.
Proof.
  unfold encode_basestring_ascii. simpl. by rewrite <- !app_assoc.
Qed.

Lemma scan_members_last (f : nat) (k : py_str) (v : json) (rest : py_str) :
  Forall scalar k →
  scan_once f (dumps v ++ 125 :: rest) = Some (v, 125 :: rest) →
  scan_members (S f) (encode_basestring_ascii k ++ [58; 32] ++ dumps v ++ 125 :: rest)
  = Some ([(k, v)], rest).
Proof.
  intros Hk Hv.
  rewrite member_text, scan_members_eq, scanstring_escaped by done. simpl.
  by rewrite skip_ws_dumps, Hv.
Qed.

Lemma scan_members_more (f : nat) (k : py_str) (v : json) (more : py_str) :
  Forall scalar k →
  scan_once f (dumps v ++ 44 :: 32 :: more) = Some (v, 44 :: 32 :: more) →
  scan_members (S f) (encode_basestring_ascii k ++ [58; 32] ++ dumps v ++ 44 :: 32 :: more)
  = '(kvs, rest) ← scan_members f (skip_ws more); Some ((k, v) :: kvs, rest).
Proof.
  intros Hk Hv.
  rewrite member_text, scan_members_eq, scanstring_escaped by done. simpl.
  by rewrite skip_ws_dumps, Hv.
Qed.

Lemma scan_members_joined (items : list (py_str * json)) :
  items ≠ [] →
  Forall (λ kv, Forall scalar kv.1 ∧
                ∀ fuel rest, (weight kv.2 ≤ fuel)%nat → delimited rest →
                  scan_once fuel (dumps kv.2 ++ rest) = Some (kv.2, rest)) items →
  ∀ fuel rest,
    (foldr (λ kv n, S (weight kv.2 + n)) O items ≤ fuel)%nat →
    scan_members fuel (join [44; 32] (member <$> items) ++ 125 :: rest)
    = Some (items, rest).
Proof.
  induction items as [|[k v] kvs IH]; [done|]. intros _ Hall fuel rest Hfuel.
  apply Forall_cons in Hall as [[Hk Hv] Hkvs]. simpl in Hk, Hv.
  destruct fuel as [|f]; [simpl in Hfuel; lia|]. simpl in Hfuel.
  destruct kvs as [|[k2 v2] kvs].
  - change (join [44; 32] (member <$> [(k, v)])) with (member (k, v) ++ []).
    rewrite app_nil_r. cbn [fst snd]. rewrite <- !app_assoc.
    apply scan_members_last; [done|]. apply Hv; [lia|simpl; auto].
  - rewrite join_fmap_cons2. cbn [fst snd]. rewrite <- !app_assoc.
    change ([44; 32] ++ ?X) with (44 :: 32 :: X).
    rewrite scan_members_more; [|done|apply Hv; [lia|simpl; auto]].
    assert (Hskip : ∀ X, skip_ws (join [44; 32] (member <$> (k2, v2) :: kvs) ++ X)
                         = join [44; 32] (member <$> (k2, v2) :: kvs) ++ X).
    { intros X. unfold join. rewrite fmap_cons. reflexivity. }
    rewrite Hskip, IH; [done|done|done|]. simpl in *. lia.
Qed.

Lemma join_head {A} (f : A → py_str) (sep : py_str) (x : A) (l : list A) (c : N) (r : py_str) :
  f x = c :: r → ∃ r', join sep (f <$> x :: l) = c :: r'.
Proof. intros E. unfold join. rewrite fmap_cons, E. eauto. Qed.

Lemma bracketed (a b : N) (J rest : py_str) :
  ([a] ++ J ++ [b]) ++ rest = a :: (J ++ b :: rest).
Proof. simpl. by rewrite <- app_assoc. Qed.

(** The scanner reads back what [dumps] wrote, and stops where it ends. *)
Lemma scan_once_dumps (v : json) :
  serializable v →
  ∀ fuel rest, (weight v ≤ fuel)%nat → delimited rest →
    scan_once fuel (dumps v ++ rest) = Some (v, rest).
Proof.
  induction v as [|b|z|s|items IH|items IH] using json_ind';
    intros Hser fuel rest Hfuel Hrest;
    (destruct fuel as [|f]; [simpl in Hfuel; lia|]).
  - reflexivity.
  - by destruct b.
  - cbn [dumps]. rewrite scan_once_number, scan_number_repr by done. reflexivity.
  - inversion Hser; subst. unfold dumps, encode_basestring_ascii.
    rewrite <- !app_assoc. simpl app. rewrite scan_once_string.
    by rewrite scanstring_escaped.
  - inversion Hser as [| | | |? Hitems|]; subst.
    destruct items as [|v vs]; [reflexivity|].
    assert (Hall : Forall (λ v, ∀ fuel rest, (weight v ≤ fuel)%nat → delimited rest →
                     scan_once fuel (dumps v ++ rest) = Some (v, rest)) (v :: vs)).
    { rewrite Forall_forall in IH, Hitems. apply Forall_forall.
      intros x Hx. by apply IH, Hitems. }
    pose proof (scan_items_joined (v :: vs) ltac:(done) Hall f rest) as Hscan.
    simpl in Hfuel. specialize (Hscan ltac:(simpl; lia)).
    destruct (dumps_head v) as (c & r & Hd & Hop).
    destruct (join_head dumps [44; 32] v vs c r Hd) as [r' Hj].
    assert (Htext : dumps (List (v :: vs)) ++ rest
                    = 91 :: (join [44; 32] (dumps <$> v :: vs) ++ 93 :: rest)).
    { exact (bracketed 91 93 _ rest). }
    rewrite Htext. rewrite Hj in Hscan |- *. simpl app in *.
    rewrite scan_once_list by done. by rewrite Hscan.
  - inversion Hser as [| | | | |? Hnd Hitems]; subst.
    destruct items as [|[k v] kvs]; [reflexivity|].
    assert (Hall : Forall (λ kv, Forall scalar kv.1 ∧
                     ∀ fuel rest, (weight kv.2 ≤ fuel)%nat → delimited rest →
                       scan_once fuel (dumps kv.2 ++ rest) = Some (kv.2, rest))
                   ((k, v) :: kvs)).
    { rewrite Forall_forall in IH, Hitems. apply Forall_forall.
      intros x Hx. destruct (Hitems x Hx) as [Hk Hs]. split; [done|].
      by apply IH. }
    pose proof (scan_members_joined ((k, v) :: kvs) ltac:(done) Hall f rest) as Hscan.
    simpl in Hfuel. specialize (Hscan ltac:(simpl; lia)).
    destruct (join_head member [44; 32] (k, v) kvs 34
                (((k ≫= escape_char) ++ [34]) ++ [58; 32] ++ dumps v) eq_refl)
      as [r' Hj].
    assert (Htext : dumps (Dict ((k, v) :: kvs)) ++ rest
                    = 123 :: (join [44; 32] (member <$> (k, v) :: kvs) ++ 125 :: rest)).
    { exact (bracketed 123 125 _ rest). }
    rewrite Htext. rewrite Hj in Hscan |- *. simpl app in *.
    rewrite scan_once_dict, Hscan. simpl.
    by rewrite dict_of_pairs_distinct.
Qed.

Lemma weight_items (items : list json) :
  Forall (λ v, (weight v ≤ length (dumps v))%nat) items →
  (foldr (λ x n, S (weight x + n)) O items
   ≤ length (join [44%N; 32%N] (dumps <$> items)) + 1)%nat.
Proof.
  induction items as [|x [|y l] IH]; intros Hall.
  - simpl. lia.
  - apply Forall_cons in Hall as [Hx _]. simpl. rewrite app_nil_r. lia.
  - apply Forall_cons in Hall as [Hx Hl]. specialize (IH Hl).
    rewrite join_fmap_cons2, !length_app.
    change (foldr _ _ (x :: y :: l))
      with (S (weight x + foldr (λ x n, S (weight x + n)) O (y :: l))).
    change (length [44; 32]) with 2%nat. simpl in Hx. lia.
Qed.

Lemma weight_members (items : list (py_str * json)) :
  Forall (λ kv, (weight kv.2 ≤ length (dumps kv.2))%nat) items →
  (foldr (λ kv n, S (weight kv.2 + n)) O items
   ≤ length (join [44%N; 32%N] (member <$> items)) + 1)%nat.
Proof.
  induction items as [|[k x] [|y l] IH]; intros Hall.
  - simpl. lia.
  - apply Forall_cons in Hall as [Hx _]. simpl in *.
    rewrite app_nil_r, !length_app. cbn [length]. lia.
  - apply Forall_cons in Hall as [Hx Hl]. specialize (IH Hl).
    rewrite join_fmap_cons2, !length_app.
    change (foldr _ _ ((k, x) :: y :: l))
      with (S (weight x + foldr (λ kv n, S (weight kv.2 + n)) O (y :: l))).
    change (length [44; 32]) with 2%nat. simpl in Hx. cbn [fst snd].
    generalize dependent (join [44; 32] (member <$> y :: l)). intros J HJ.
    unfold encode_basestring_ascii. rewrite !length_app. cbn [length]. lia.
Qed.

Lemma weight_le_length (v : json) : (weight v ≤ length (dumps v))%nat.
Proof.
  induction v as [|b|z|s|items IH|items IH] using json_ind'.
  - simpl. lia.
  - destruct b; simpl; lia.
  - destruct (dumps_head (Int z)) as (c & r & -> & _). simpl. lia.
  - simpl. lia.
  - pose proof (weight_items items IH) as Hw. cbn [dumps weight].
    generalize dependent (join [44; 32] (dumps <$> items)). intros J HJ.
    rewrite !length_app. cbn [length]. lia.
  - pose proof (weight_members items IH) as Hw. cbn [dumps weight].
    generalize dependent (join [44; 32] (member <$> items)). intros J HJ.
    rewrite !length_app. cbn [length]. lia.
Qed.

(** [json.loads(json.dumps(v)) == v]. *)
Lemma loads_dumps (v : json) : serializable v → loads (dumps v) = Some v.
Proof.
  intros Hser. unfold loads.
  rewrite <- (app_nil_r (dumps v)) at 2. rewrite skip_ws_dumps.
  rewrite scan_once_dumps; [done|done| |done].
  pose proof (weight_le_length v). lia.
Qed.

End JsonFacts.

(** ** The frame codec: [deserialize] inverts [serialize] *)

Section ProtocolFacts.
Import Json Protocol.
Local Open Scope N_scope.

Lemma to_N_byte_of (n : N) : n < 256 → Byte.to_N (byte_of n) = n.
Proof.
  intros Hn. unfold byte_of. destruct (Byte.of_N n) as [b|] eqn:E; simpl.
  - by apply Byte.to_of_N.
  - apply Byte.of_N_None_iff in E. lia.
Qed.

(** Text in which every character is ASCII is its own UTF-8 encoding. *)
Lemma utf8_encode_ascii (s : py_str) :
  Forall (λ c, c < 128) s → utf8_encode s = Some (byte_of <$> s).
Proof.
  induction 1 as [|c s Hc Hs IH]; [done|]. simpl. unfold utf8_encode_char.
  rewrite (proj2 (N.ltb_lt c 128)) by done. simpl. by rewrite IH.
Qed.

Lemma utf8_decode_ascii (s : py_str) :
  Forall (λ c, c < 128) s → utf8_decode (byte_of <$> s) = Some s.
Proof.
  induction 1 as [|c s Hc Hs IH]; [done|]. rewrite fmap_cons. cbn [utf8_decode].
  rewrite to_N_byte_of by lia.
  rewrite (proj2 (N.ltb_lt c 128)) by done. by rewrite IH.
Qed.

Lemma hexdigit_ascii (d : N) : d < 16 → hexdigit d < 128.
Proof. intros Hd. unfold hexdigit. destruct (d <? 10); lia. Qed.

Lemma escape_char_ascii (c : N) : Forall (λ c, c < 128) (escape_char c).
Proof.
  assert (Hhex : ∀ n, Forall (λ c, c < 128) (hex4 n)).
  { intros n. unfold hex4.
    repeat (apply Forall_cons; split; [apply hexdigit_ascii; by apply N.mod_lt|]).
    constructor. }
  unfold escape_char.
  repeat (destruct (_ =? _); [by repeat constructor|]).
  destruct ((32 <=? c) && (c <=? 126)) eqn:Hp.
  - apply andb_true_iff in Hp as [_ Hhi%N.leb_le]. repeat constructor. lia.
  - destruct (c <? 65536).
    + apply Forall_app. split; [by repeat constructor|apply Hhex].
    + repeat (apply Forall_app; split); try apply Hhex; by repeat constructor.
Qed.

Lemma encode_basestring_ascii_ascii (s : py_str) :
  Forall (λ c, c < 128) (encode_basestring_ascii s).
Proof.
  unfold encode_basestring_ascii.
  repeat (apply Forall_app; split); try by repeat constructor.
  induction s as [|c s IH]; [constructor|].
  rewrite bind_cons. apply Forall_app. split; [apply escape_char_ascii|exact IH].
Qed.

Lemma print_uint_ascii (u : Decimal.uint) : Forall (λ c, c < 128) (print_uint u).
Proof. induction u; simpl; by repeat constructor. Qed.

Lemma join_ascii (sep : py_str) (parts : list py_str) :
  Forall (λ c, c < 128) sep → Forall (Forall (λ c, c < 128)) parts →
  Forall (λ c, c < 128) (join sep parts).
Proof.
  intros Hsep Hparts. destruct Hparts as [|p ps Hp Hps]; [constructor|].
  unfold join. apply Forall_app. split; [done|].
  induction Hps as [|q qs Hq Hqs IH]; [constructor|].
  rewrite bind_cons. by repeat (apply Forall_app; split).
Qed.

(** [dumps] writes ASCII only ([ensure_ascii] is on). *)
Lemma dumps_ascii (v : json) : Forall (λ c, c < 128) (dumps v).
Proof.
  induction v as [|b|z|s|items IH|items IH] using json_ind'.
  - by repeat constructor.
  - destruct b; by repeat constructor.
  - simpl. unfold repr_int. destruct (Z.to_int z).
    + apply print_uint_ascii.
    + constructor; [done|apply print_uint_ascii].
  - apply encode_basestring_ascii_ascii.
  - cbn [dumps]. repeat (apply Forall_app; split); try by repeat constructor.
    apply join_ascii; [by repeat constructor|]. by apply Forall_fmap.
  - cbn [dumps]. repeat (apply Forall_app; split); try by repeat constructor.
    apply join_ascii; [by repeat constructor|]. apply Forall_fmap.
    eapply Forall_impl; [exact IH|]. intros [k x] Hx. cbn [fst snd] in *.
    apply Forall_app; split; [apply encode_basestring_ascii_ascii|].
    apply Forall_app; split; [by repeat constructor|done].
Qed.

Lemma unpack_pack_H (n : N) :
  n < 2 ^ 16 →
  ∃ b0 b1, pack_H n = Some [b0; b1] ∧ unpack_H b0 b1 = n.
Proof.
  intros Hn. unfold pack_H. rewrite (proj2 (N.ltb_lt _ _)) by done.
  do 2 eexists. split; [reflexivity|]. unfold unpack_H.
  assert (n / 2 ^ 8 < 256) by (apply N.Div0.div_lt_upper_bound; lia).
  rewrite !to_N_byte_of by (done || by apply N.mod_lt).
  pose proof (N.div_mod n 256). change (2 ^ 8) with 256 in *. lia.
Qed.

Lemma unpack_pack_I (n : N) :
  n < 2 ^ 32 →
  ∃ b0 b1 b2 b3, pack_I n = Some [b0; b1; b2; b3] ∧ unpack_I b0 b1 b2 b3 = n.
Proof.
  intros Hn. unfold pack_I. rewrite (proj2 (N.ltb_lt _ _)) by done.
  do 4 eexists. split; [reflexivity|]. unfold unpack_I.
  change (2 ^ 24) with (256 * 256 * 256) in *. change (2 ^ 16) with (256 * 256) in *.
  change (2 ^ 8) with 256 in *. change (2 ^ 32) with 4294967296 in *.
  rewrite <- !N.Div0.div_div.
  assert (n / 256 / 256 / 256 < 256).
  { rewrite !N.Div0.div_div. apply N.Div0.div_lt_upper_bound. lia. }
  rewrite !to_N_byte_of by (done || by apply N.mod_lt).
  pose proof (N.div_mod n 256). pose proof (N.div_mod (n / 256) 256).
  pose proof (N.div_mod (n / 256 / 256) 256).
  generalize dependent (n / 256 / 256 / 256). intros q3 Hq3.
  generalize dependent (n / 256 / 256 mod 256). intros r2.
  generalize dependent (n / 256 / 256). intros q2.
  generalize dependent (n / 256 mod 256). intros r1.
  generalize dependent (n / 256). intros q1.
  generalize dependent (n mod 256). intros r0. lia.
Qed.

Lemma value_bounded (t : MessageType) : value t < 2 ^ 16.
Proof. by destruct t. Qed.

Lemma of_value_value (t : MessageType) : of_value (value t) = Some t.
Proof. by destruct t. Qed.

(** What [serialize] writes for a payload within the reach of the length
    field. *)
Lemma serialize_frame (m : Message) :
  N.of_nat (length (dumps (payload m))) + 2 < 2 ^ 32 →
  ∃ b0 b1 b2 b3 t0 t1,
    serialize m = inr ([b0; b1; b2; b3] ++ [t0; t1] ++ (byte_of <$> dumps (payload m)))
    ∧ unpack_I b0 b1 b2 b3 = N.of_nat (length (dumps (payload m))) + 2
    ∧ unpack_H t0 t1 = value (msg_type m).
Proof.
  intros Hlen. unfold serialize.
  rewrite utf8_encode_ascii by apply dumps_ascii. simpl.
  rewrite length_fmap.
  destruct (unpack_pack_I _ Hlen) as (b0 & b1 & b2 & b3 & -> & HI).
  destruct (unpack_pack_H _ (value_bounded (msg_type m))) as (t0 & t1 & -> & HH).
  simpl. eauto 10.
Qed.

Lemma deserialize_frame (t : MessageType) (p : json) (t0 t1 : byte) :
  serializable p → unpack_H t0 t1 = value t →
  deserialize ([t0; t1] ++ (byte_of <$> dumps p)) = inr (Msg t p).
Proof.
  intros Hser HH. unfold deserialize. simpl app. cbv beta iota.
  destruct (dumps_head p) as (c & r & Hd & _).
  destruct (byte_of <$> dumps p) as [|x xs] eqn:E.
  { by rewrite Hd in E. }
  rewrite <- E. rewrite utf8_decode_ascii by apply dumps_ascii. simpl.
  rewrite loads_dumps by done. simpl. rewrite HH, of_value_value. done.
Qed.

End ProtocolFacts.

(** ** The session loop *)

Section SessionFacts.
Import Json Protocol.
Local Open Scope N_scope.
Context {St : Type}.
Context (handlers : MessageType → option (json → St → result (St * option Message))).

Lemma readexactly_app (n : N) (xs rest : list byte) :
  N.of_nat (length xs) = n → readexactly n (xs ++ rest) = inr (xs, rest).
Proof.
  intros <-. unfold readexactly. rewrite length_app.
  replace (_ <? _) with false by (symmetry; apply N.ltb_ge; lia).
  rewrite Nat2N.id. by rewrite take_app_length, drop_app_length.
Qed.

Lemma read_from_stream_frame (m : Message) (frame rest : list byte) :
  serializable (payload m) → serialize m = inr frame →
  read_from_stream (frame ++ rest) = inr (m, rest).
Proof.
  intros Hser Hframe.
  assert (Hlen : N.of_nat (length (dumps (payload m))) + 2 < 2 ^ 32).
  { unfold serialize in Hframe.
    rewrite utf8_encode_ascii in Hframe by apply dumps_ascii. simpl in Hframe.
    rewrite length_fmap in Hframe. unfold pack_I in Hframe.
    destruct (_ <? 2 ^ 32) eqn:E; [by apply N.ltb_lt|done]. }
  destruct (serialize_frame m Hlen) as (b0 & b1 & b2 & b3 & t0 & t1 & Hs & HI & HH).
  rewrite Hs in Hframe. injection Hframe as <-.
  set (body := byte_of <$> dumps (payload m)).
  change (read_from_stream ([b0; b1; b2; b3] ++ ([t0; t1] ++ body) ++ rest)
          = inr (m, rest)).
  unfold read_from_stream.
  rewrite (readexactly_app 4 [b0; b1; b2; b3]) by done.
  cbn [mbind result_bind]. rewrite HI.
  rewrite readexactly_app.
  2:{ unfold body. rewrite length_app, length_fmap. cbn [length]. lia. }
  cbn [mbind result_bind]. unfold body.
  rewrite (deserialize_frame (msg_type m) (payload m) t0 t1 Hser HH).
  by destruct m.
Qed.

Lemma read_from_stream_shorter (stream rest : list byte) (m : Message) :
  read_from_stream stream = inr (m, rest) → (length rest < length stream)%nat.
Proof.
  unfold read_from_stream, readexactly. intros H.
  destruct (N.of_nat (length stream) <? 4) eqn:E4; [done|].
  apply N.ltb_ge in E4. simpl in H.
  destruct (take (N.to_nat 4) stream) as [|b0 [|b1 [|b2 [|b3 [|]]]]]; try done.
  destruct (_ <? unpack_I b0 b1 b2 b3); [done|]. simpl in H.
  destruct (deserialize _); [done|]. simpl in H. injection H as _ <-.
  rewrite !length_drop. lia.
Qed.

(** Fuel beyond the length of the stream changes nothing. *)
Lemma session_loop_fuel (n1 n2 : nat) (st : St) (stream : list byte) :
  (length stream < n1)%nat → (length stream < n2)%nat →
  session_loop handlers n1 st stream = session_loop handlers n2 st stream.
Proof.
  revert n2 st stream. induction n1 as [|n1 IH]; intros n2 st stream H1 H2; [lia|].
  destruct n2 as [|n2]; [lia|]. simpl.
  destruct (read_from_stream stream) as [e|[message rest]] eqn:Hread; [done|].
  apply read_from_stream_shorter in Hread.
  destruct (process_message handlers st message) as [e|[st' response]]; [done|].
  destruct response as [r|].
  - destruct (serialize r); [done|]. f_equal. apply IH; lia.
  - apply IH; lia.
Qed.

Lemma error_message_serializes (t : MessageType) :
  ∃ frame, serialize (create_error_message
                        (of_string ("Unknown message type: " +:+ name t))) = inr frame.
Proof.
  destruct (serialize_frame (create_error_message
              (of_string ("Unknown message type: " +:+ name t))))
    as (b0 & b1 & b2 & b3 & t0 & t1 & Hs & _).
  - destruct t; vm_compute; reflexivity.
  - eauto.
Qed.


End SessionFacts.

Section CodecExamples.
Import Json Protocol.
Local Open Scope N_scope.



End CodecExamples.

Section SessionExamples.
Import Json Protocol Scenario.



End SessionExamples.


(** ** Store invariants *)

Section StoreInvariants.
Import Store Inv.
Context (sha256_hex : list byte → string).
Local Abbreviation exec := (Store.exec sha256_hex).
Local Abbreviation run := (Store.run sha256_hex).

Lemma has_id_true {A} (key : A → Z) k (l : list A) :
  has_id key k l = true → ∃ x, x ∈ l ∧ key x = k.
Proof.
  unfold has_id. intros H%bool_decide_eq_true. by apply Exists_exists in H.
Qed.

Lemma Forall_update_where {A} (P : A → Prop) (key : A → Z) k f (l : list A) :
  Forall P l → (∀ x, P x → key x = k → P (f x)) → Forall P (update_where key k f l).
Proof.
  intros Hl Hf. unfold update_where. apply Forall_fmap.
  eapply Forall_impl; [exact Hl|]. intros x Hx. simpl. case_decide; auto.
Qed.

Lemma rooms_counted_update_rooms (d : db) (f : room → room) (g : list room → list room) :
  (∀ r, room_id (f r) = room_id r ∧ room_current_players (f r) = room_current_players r) →
  (∀ l, g l = f <$> l) →
  rooms_counted d → rooms_counted (with_rooms g d).
Proof.
  intros Hf Hg H. unfold rooms_counted in *. simpl. rewrite Hg.
  apply Forall_fmap. eapply Forall_impl; [exact H|].
  intros r Hr. simpl. destruct (Hf r) as [-> ->]. exact Hr.
Qed.

Lemma refresh_current_players_counted (d : db) (rid : Z) :
  Forall (λ r, room_id r ≠ rid →
               room_current_players r = Z.of_nat (length (members_of (room_id r) d)))
         (rooms d) →
  rooms_counted (refresh_current_players rid d).
Proof.
  intros H. unfold rooms_counted, refresh_current_players, update_where. simpl.
  apply Forall_fmap. eapply Forall_impl; [exact H|].
  intros r Hr. simpl. case_decide as E; simpl.
  - by rewrite E.
  - by apply Hr.
Qed.

Lemma members_of_app (d : db) (rid : Z) (m : Z * Z) :
  members_of rid (with_room_players (λ l, l ++ [m]) d)
  = members_of rid d ++ (if decide (m.1 = rid) then [m] else []).
Proof.
  unfold members_of. simpl. by rewrite filter_app.
Qed.

Lemma members_of_delete_other (d : db) (rid : Z) (m : Z * Z) :
  m.1 ≠ rid →
  members_of rid (with_room_players (filter (λ x, x ≠ m)) d) = members_of rid d.
Proof.
  intros Hne. unfold members_of. simpl.
  induction (room_players d) as [|x l IH]; [done|].
  rewrite !filter_cons. destruct (decide (x ≠ m)) as [Hx|Hx].
  - rewrite filter_cons. case_decide; by rewrite IH.
  - apply dec_stable in Hx. subst x. rewrite decide_False by done. exact IH.
Qed.

(** Statements that only rewrite status and port of room rows. *)
Lemma rooms_status_only (d : db) (f : room → room) :
  (∀ r, room_id (f r) = room_id r ∧ room_current_players (f r) = room_current_players r) →
  rooms_in_sequence d → rooms_counted d →
  rooms_in_sequence (with_rooms (fmap f) d) ∧ rooms_counted (with_rooms (fmap f) d).
Proof.
  intros Hf [Hr Hm] Hc. split; [split|]; simpl.
  - apply Forall_fmap. eapply Forall_impl; [exact Hr|].
    intros r Hle. simpl. by destruct (Hf r) as [-> _].
  - exact Hm.
  - unfold rooms_counted. simpl. apply Forall_fmap.
    eapply Forall_impl; [exact Hc|]. intros r Hle. simpl.
    by destruct (Hf r) as [-> ->].
Qed.

Lemma update_room_status_rooms (d : db) rid st port :
  rooms_in_sequence d → rooms_counted d →
  rooms_in_sequence (update_room_status d rid st port)
  ∧ rooms_counted (update_room_status d rid st port).
Proof.
  intros Hs Hc. unfold update_room_status, update_where.
  destruct port as [p|]; [case_decide|];
    apply rooms_status_only; try done; intros r; by case_decide.
Qed.

Lemma close_expired_rooms_rooms (d : db) expired :
  rooms_in_sequence d → rooms_counted d →
  rooms_in_sequence (close_expired_rooms d expired)
  ∧ rooms_counted (close_expired_rooms d expired).
Proof.
  intros Hs Hc. unfold close_expired_rooms.
  apply rooms_status_only; try done.
  intros r. case_decide; [destruct (expired _)|]; done.
Qed.

Lemma join_room_rooms (d : db) rid pid :
  rooms_in_sequence d → rooms_counted d →
  rooms_in_sequence (join_room d rid pid).1 ∧ rooms_counted (join_room d rid pid).1.
Proof.
  intros [Hr Hm] Hc. unfold join_room.
  destruct (bool_decide _ || _ || _) eqn:E; simpl; [done|].
  apply orb_false_iff in E as [[_ E]%orb_false_iff _].
  apply negb_false_iff, has_id_true in E as (r0 & Hin & Hid).
  split; [split|]; simpl.
  - apply Forall_fmap. eapply Forall_impl; [exact Hr|].
    intros r Hle. simpl. by case_decide.
  - apply Forall_app. split; [done|]. apply Forall_singleton. simpl.
    rewrite Forall_forall in Hr. rewrite <- Hid. by apply Hr.
  - apply refresh_current_players_counted. simpl.
    eapply Forall_impl; [exact Hc|]. intros r Hcount Hne. simpl in *.
    rewrite members_of_app. simpl. rewrite decide_False by done.
    by rewrite app_nil_r.
Qed.

Lemma leave_room_rooms (d : db) rid pid :
  rooms_in_sequence d → rooms_counted d →
  rooms_in_sequence (leave_room d rid pid) ∧ rooms_counted (leave_room d rid pid).
Proof.
  intros [Hr Hm] Hc. unfold leave_room. case_bool_decide; [|done].
  split; [split|]; simpl.
  - apply Forall_fmap. eapply Forall_impl; [exact Hr|].
    intros r Hle. simpl. by case_decide.
  - rewrite Forall_forall in Hm. apply Forall_forall.
    intros m [_ Hin]%list_elem_of_filter. by apply Hm.
  - apply refresh_current_players_counted. simpl.
    eapply Forall_impl; [exact Hc|]. intros r Hcount Hne. simpl in *.
    by rewrite members_of_delete_other.
Qed.

Lemma create_room_rooms (d : db) gid host name mx code :
  rooms_in_sequence d → rooms_counted d →
  rooms_in_sequence (create_room d gid host name mx code).1
  ∧ rooms_counted (create_room d gid host name mx code).1.
Proof.
  intros [Hr Hm] Hc. unfold create_room.
  destruct (bool_decide _ || _ || _); simpl; [done|].
  case_bool_decide as Hin; simpl in *.
  - (* the host row cannot be there: the room id is new *)
    rewrite Forall_forall in Hm. apply Hm in Hin. simpl in Hin. lia.
  - split; [split|]; simpl.
    + apply Forall_fmap, Forall_app. split.
      * eapply Forall_impl; [exact Hr|]. intros r Hle. simpl in *.
        case_decide; simpl in *; lia.
      * apply Forall_singleton. simpl. case_decide; simpl; lia.
    + apply Forall_app. split.
      * eapply Forall_impl; [exact Hm|]. intros m Hle. simpl in *. lia.
      * apply Forall_singleton. simpl. lia.
    + apply refresh_current_players_counted. simpl.
      apply Forall_app. split.
      * eapply Forall_impl; [exact Hc|]. intros r Hcount Hne. simpl in *.
        pose proof (members_of_app
          (with_seq_rooms (seq_rooms d + 1)
             (with_rooms (λ l, l ++ [Room (seq_rooms d + 1) gid host name code mx
                                      default_current_players Waiting None]) d))
          (room_id r) (seq_rooms d + 1, host)) as Happ.
        simpl in Happ. unfold members_of in *. simpl in *. rewrite Happ.
        rewrite decide_False by done. by rewrite app_nil_r.
      * apply Forall_singleton. simpl. intros Hne. done.
Qed.

Lemma exec_rooms (d : db) (c : call) :
  rooms_in_sequence d → rooms_counted d →
  rooms_in_sequence (exec d c) ∧ rooms_counted (exec d c).
Proof.
  intros Hs Hc. destruct c; simpl.
  - unfold create_player. by destruct (username_taken _ _).
  - unfold create_developer. by destruct (username_taken _ _).
  - unfold create_game. by destruct (_ || _).
  - done.
  - done.
  - unfold add_game_version. by destruct (_ || _).
  - unfold record_download. by destruct (_ && _).
  - unfold add_review. by destruct (_ && _).
  - by apply create_room_rooms.
  - by apply join_room_rooms.
  - by apply leave_room_rooms.
  - by apply update_room_status_rooms.
  - by apply close_expired_rooms_rooms.
Qed.

Lemma run_rooms (cs : list call) (d : db) :
  rooms_in_sequence d → rooms_counted d →
  rooms_in_sequence (run d cs) ∧ rooms_counted (run d cs).
Proof.
  revert d. induction cs as [|c cs IH]; intros d Hs Hc; [done|].
  simpl. destruct (exec_rooms d c Hs Hc) as [Hs' Hc']. by apply IH.
Qed.

(** C1.  After any sequence of store calls on a fresh database (so after
    every [create_room], [join_room] and [leave_room]), each room's stored
    [current_players] is the number of [room_players] rows that carry the
    room's id. *)
Theorem current_players_counts_memberships (cs : list Store.call) :
  Forall (λ r, room_current_players r
               = Z.of_nat (length (filter (λ m, m.1 = room_id r)
                                          (room_players (run empty_db cs)))))
         (rooms (run empty_db cs)).
Proof.
  apply (run_rooms cs empty_db).
  - split; constructor.
  - constructor.
Qed.

End StoreInvariants.

(** ** Uploads *)

Section UploadFacts.
Import Store Server Developer.
Context (sha256_hex : list byte → string).

Lemma select_one_has_id {A} (key : A → Z) (k : Z) (l : list A) (x : A) :
  select_one key k l = Some x → has_id key k l = true.
Proof.
  unfold select_one, has_id. intros H.
  apply bool_decide_eq_true, Exists_exists.
  apply find_some in H as [Hin Hk]. exists x. split.
  - by apply list_elem_of_In.
  - by apply bool_decide_eq_true in Hk.
Qed.

(** What [handle_upload_complete] does with an update whose package has
    the declared check sum, for a game its sender owns. *)
Lemma complete_update (s : state) (cid : string) (user : account) (u : upload)
    (game_id : Z) (game_name changelog : string) (content : list byte) (g : game) :
  user_of cid (developer_clients s) = Some user →
  uploads s !! cid = Some u →
  mode u = ModeUpdate game_id game_name changelog →
  Fs.files (fs s) !! temp_file u = Some content →
  sha256_hex content = up_checksum u →
  get_game (db s) game_id = Some g →
  g_developer_id g = acc_id user →
  handle_upload_complete sha256_hex s cid true
  = install_upload (with_fs (Fs.close (temp_file u) (fs s)) s) cid u game_id game_name
                   changelog true true.
Proof.
  intros Huser Hup Hmode Hfile Hsum Hgame Hown.
  unfold handle_upload_complete. rewrite Huser, Hup.
  unfold _calculate_checksum. cbn [fs with_fs Fs.close Fs.files fmap].
  rewrite Hfile. cbn [fmap option_fmap option_map]. rewrite Hsum.
  destruct (decide (up_checksum u ≠ up_checksum u)) as [Hne|_]; [done|].
  rewrite Hmode. cbn [db with_fs]. rewrite Hgame.
  destruct (decide (g_developer_id g ≠ acc_id user)) as [Hne|_]; [done|].
  reflexivity.
Qed.

Lemma install_update (s : state) (cid : string) (u : upload) (game_id : Z)
    (game_name changelog : string) (content : list byte) :
  Fs.files (fs s) !! temp_file u = Some content →
  let path := final_path game_id (up_version u) in
  install_upload (with_fs (Fs.close (temp_file u) (fs s)) s) cid u game_id game_name
                 changelog true true
  = Outcome
      (State (add_game_version (db s) game_id (up_version u) changelog path
                               (up_file_size u) (up_checksum u)).1
             (Fs.Fs (<[path := content]> (delete (temp_file u) (Fs.files (fs s))))
                    (Fs.open_handles (fs s) ∖ {[temp_file u]})
                    (<[game_id := up_version u]> (Fs.current_link (fs s)))
                    ({[(game_id, up_version u)]} ∪ Fs.extracted (fs s)))
             (game_manager s) (lobby_clients s) (developer_clients s)
             (delete cid (uploads s)))
      (Some (UploadSuccess game_id ("Game '" +:+ game_name +:+ "' updated to version "
                                      +:+ up_version u +:+ "!"))).
Proof.
  intros Hfile path. unfold install_upload, Fs.move.
  cbn [fs with_fs Fs.close Fs.files]. rewrite Hfile. reflexivity.
Qed.



(** C9, as the code has it.  A chunk of well-formed hexadecimal data for an
    upload in flight is written to the sink and answered with SUCCESS,
    the counter of received bytes going up by its length: the declared
    size of the file is used for the progress figure only, and nothing
    compares the counter with it. *)
Theorem chunk_accepted_whatever_the_size
    (s : state) (cid data_hex : string) (u : upload) (data : list byte) :
  uploads s !! cid = Some u →
  data_hex ≠ "" →
  fromhex data_hex = Some data →
  temp_file u ∈ Fs.open_handles (fs s) →
  reply (handle_upload_chunk s cid (Some data_hex))
  = Some (ChunkReceived (received_bytes u + Z.of_nat (length data))
            (Round1 (inject_Z (received_bytes u + Z.of_nat (length data))
                     / inject_Z (up_file_size u) * 100)))
  ∧ uploads (after (handle_upload_chunk s cid (Some data_hex))) !! cid
    = Some (upload_add_received (Z.of_nat (length data)) u)
  ∧ Fs.files (fs (after (handle_upload_chunk s cid (Some data_hex)))) !! temp_file u
    = Some (default [] (Fs.files (fs s) !! temp_file u) ++ data).
Proof.
  intros Hup Hne Hhex Hopen.
  unfold handle_upload_chunk. rewrite Hup. unfold str_given.
  destruct (decide (data_hex = "")) as [|_]; [done|].
  rewrite Hhex. unfold Fs.write.
  destruct (decide (temp_file u ∈ Fs.open_handles (fs s))) as [_|]; [|done].
  cbn [reply after uploads fs with_uploads with_fs Fs.files upload_add_received
       received_bytes up_file_size].
  by rewrite !lookup_insert_eq.
Qed.

(** C5, as the code has it.  For an upload in flight whose received bytes
    do not have the declared check sum: UPLOAD_COMPLETE closes the sink,
    deletes the temporary file, forgets the upload and answers ERROR; a
    chunk without data is answered ERROR and changes nothing; and the end
    of the connection removes the client entry only, leaving the upload
    and the files as they were. *)
Theorem upload_rejected_or_abandoned
    (s : state) (cid : string) (user : account) (u : upload) (content : list byte)
    (extracts : bool) :
  user_of cid (developer_clients s) = Some user →
  uploads s !! cid = Some u →
  Fs.files (fs s) !! temp_file u = Some content →
  sha256_hex content ≠ up_checksum u →
  (reply (handle_upload_complete sha256_hex s cid extracts)
   = Some (ErrorMsg "Checksum mismatch - file corrupted")
   ∧ uploads (after (handle_upload_complete sha256_hex s cid extracts)) !! cid = None
   ∧ (temp_file u
      ∉ Fs.open_handles (fs (after (handle_upload_complete sha256_hex s cid extracts))))
   ∧ Fs.files (fs (after (handle_upload_complete sha256_hex s cid extracts)))
       !! temp_file u = None)
  ∧ (reply (handle_upload_chunk s cid None) = Some (ErrorMsg "No data in chunk")
     ∧ after (handle_upload_chunk s cid None) = s)
  ∧ (uploads (disconnect s cid) = uploads s ∧ fs (disconnect s cid) = fs s).
Proof.
  intros Huser Hup Hfile Hsum. split; [|split].
  - unfold handle_upload_complete. rewrite Huser, Hup.
    unfold _calculate_checksum. cbn [fs with_fs Fs.close Fs.files].
    rewrite Hfile. cbn [fmap option_fmap option_map].
    destruct (decide (sha256_hex content ≠ up_checksum u)) as [_|]; [|done].
    unfold reject_upload, Fs.unlink. cbn [fs with_fs Fs.files Fs.close]. rewrite Hfile.
    cbn [reply after uploads fs with_uploads with_fs Fs.files Fs.open_handles].
    rewrite !lookup_delete_eq. repeat split; try done.
    intros [_ Hnot]%elem_of_difference. apply Hnot. by apply elem_of_singleton.
  - unfold handle_upload_chunk. by rewrite Hup.
  - done.
Qed.

End UploadFacts.

Section UploadExamples.
Import Store Server Developer Scenario.



Lemma chunk_accepted_whatever_the_size_witness :
  reply (handle_upload_chunk (state_after upload_in_flight) "d" (Some "0102030405060708"))
  = Some (ChunkReceived (4 + 8) (Round1 (inject_Z (4 + 8) / inject_Z 4 * 100)))
  ∧ uploads (after (handle_upload_chunk (state_after upload_in_flight) "d"
                                        (Some "0102030405060708"))) !! "d"
    = Some (upload_add_received 8 first_upload)
  ∧ Fs.files (fs (after (handle_upload_chunk (state_after upload_in_flight) "d"
                                             (Some "0102030405060708")))) !! "temp/d/pong.zip"
    = Some (default [] (Fs.files (fs (state_after upload_in_flight)) !! "temp/d/pong.zip")
            ++ bytes_of "0102030405060708").
Proof.
  apply (chunk_accepted_whatever_the_size (state_after upload_in_flight) "d"
           "0102030405060708" first_upload (bytes_of "0102030405060708")).
  - vm_compute; reflexivity.
  - discriminate.
  - vm_compute; reflexivity.
  - apply (bool_decide_unpack _). vm_compute. exact I.
Defined.

(** The upload declared four bytes and has received them; eight more are
    taken all the same, and the answer is a SUCCESS that reports twelve. *)
Lemma chunk_beyond_declared_size_is_success :
  up_file_size <$> uploads (state_after upload_in_flight) !! "d" = Some 4
  ∧ received_bytes <$> uploads (state_after upload_in_flight) !! "d" = Some 4
  ∧ type_of <$> reply (handle_upload_chunk (state_after upload_in_flight) "d"
                                           (Some "0102030405060708"))
    = Some Protocol.SUCCESS
  ∧ received_bytes
      <$> uploads (after (handle_upload_chunk (state_after upload_in_flight) "d"
                                              (Some "0102030405060708"))) !! "d"
    = Some 12.
Proof. vm_compute. done. Qed.

Lemma upload_rejected_or_abandoned_witness :
  (reply (handle_upload_complete Sha256.hexdigest (state_after corrupted_upload) "d" true)
   = Some (ErrorMsg "Checksum mismatch - file corrupted")
   ∧ uploads (after (handle_upload_complete Sha256.hexdigest
                       (state_after corrupted_upload) "d" true)) !! "d" = None
   ∧ ("temp/d/pong.zip"
      ∉ Fs.open_handles (fs (after (handle_upload_complete Sha256.hexdigest
                                      (state_after corrupted_upload) "d" true))))
   ∧ Fs.files (fs (after (handle_upload_complete Sha256.hexdigest
                            (state_after corrupted_upload) "d" true)))
       !! "temp/d/pong.zip" = None)
  ∧ (reply (handle_upload_chunk (state_after corrupted_upload) "d" None)
     = Some (ErrorMsg "No data in chunk")
     ∧ after (handle_upload_chunk (state_after corrupted_upload) "d" None)
       = state_after corrupted_upload)
  ∧ (uploads (disconnect (state_after corrupted_upload) "d")
     = uploads (state_after corrupted_upload)
     ∧ fs (disconnect (state_after corrupted_upload) "d")
       = fs (state_after corrupted_upload)).
Proof.
  apply (upload_rejected_or_abandoned Sha256.hexdigest (state_after corrupted_upload) "d"
           dev first_upload (bytes_of "504b0000") true).
  - vm_compute; reflexivity.
  - vm_compute; reflexivity.
  - vm_compute; reflexivity.
  - vm_compute. discriminate.
Defined.

(** The developer's connection ends while the upload is in flight: the
    client entry goes, and the upload, the partial file and its open sink
    are all still there. *)
Lemma disconnect_leaves_the_upload_behind :
  developer_clients (state_after (upload_in_flight ++ [System.DevDisconnect "d"])) = []
  ∧ uploads (state_after (upload_in_flight ++ [System.DevDisconnect "d"])) !! "d"
    = Some first_upload
  ∧ Fs.files (fs (state_after (upload_in_flight ++ [System.DevDisconnect "d"])))
      !! "temp/d/pong.zip"
    = Some (bytes_of "504b0506")
  ∧ bool_decide ("temp/d/pong.zip"
                 ∈ Fs.open_handles
                     (fs (state_after (upload_in_flight ++ [System.DevDisconnect "d"]))))
    = true.
Proof. vm_compute. done. Qed.

End UploadExamples.

(** ** The catalog: ratings and download counters *)

Section CatalogInvariants.
Import Store Inv.
Context (sha256_hex : list byte → string).
Local Abbreviation exec := (Store.exec sha256_hex).
Local Abbreviation run := (Store.run sha256_hex).

(** The three properties of the catalog go together. *)
Local Abbreviation catalog_ok d :=
  (games_in_sequence d ∧ ratings_refreshed d ∧ downloads_counted d).

Lemma catalog_untouched (d d' : db) :
  games d' = games d → reviews d' = reviews d → downloads d' = downloads d →
  seq_games d' = seq_games d →
  catalog_ok d → catalog_ok d'.
Proof.
  unfold games_in_sequence, ratings_refreshed, downloads_counted, ratings_of,
    downloads_of.
  by intros -> -> -> ->.
Qed.

Lemma catalog_games_rewritten (d : db) (f : game → game) :
  (∀ g, g_id (f g) = g_id g ∧ g_rating_count (f g) = g_rating_count g
        ∧ g_average_rating (f g) = g_average_rating g
        ∧ g_download_count (f g) = g_download_count g) →
  catalog_ok d → catalog_ok (with_games (fmap f) d).
Proof.
  intros Hf ((Hg & Hr & Hd) & Hrat & Hdl).
  unfold games_in_sequence, ratings_refreshed, downloads_counted, ratings_of,
    downloads_of in *. simpl.
  repeat split; try done.
  - apply Forall_fmap. eapply Forall_impl; [exact Hg|].
    intros g Hle. simpl. by destruct (Hf g) as (-> & _).
  - apply Forall_fmap. eapply Forall_impl; [exact Hrat|].
    intros g Hle. simpl. by destruct (Hf g) as (-> & -> & -> & _).
  - apply Forall_fmap. eapply Forall_impl; [exact Hdl|].
    intros g Hle. simpl. by destruct (Hf g) as (-> & _ & _ & ->).
Qed.

Lemma catalog_update_where (d : db) (k : Z) (f : game → game) :
  (∀ g, g_id (f g) = g_id g ∧ g_rating_count (f g) = g_rating_count g
        ∧ g_average_rating (f g) = g_average_rating g
        ∧ g_download_count (f g) = g_download_count g) →
  catalog_ok d → catalog_ok (with_games (update_where g_id k f) d).
Proof.
  intros Hf. apply (catalog_games_rewritten d (λ x, if decide (g_id x = k) then f x else x)).
  intros g. case_decide; [apply Hf|done].
Qed.

Lemma nothing_beyond_sequence {A} (key : A → Z) (n : Z) (l : list A) :
  Forall (λ x, key x ≤ n) l → filter (λ x, key x = n + 1) l = [].
Proof.
  intros H. induction H as [|x l Hx _ IH]; [done|].
  rewrite filter_cons, decide_False by lia. exact IH.
Qed.

Lemma create_game_catalog (d : db) name de dev v mn mx ty :
  catalog_ok d → catalog_ok (create_game d name de dev v mn mx ty).1.
Proof.
  intros ((Hg & Hr & Hd) & Hrat & Hdl). unfold create_game.
  destruct (bool_decide _ || _); [done|]. cbn [fst].
  unfold games_in_sequence, ratings_refreshed, downloads_counted, ratings_of,
    downloads_of in *. simpl.
  repeat split.
  - apply Forall_app. split; [|apply Forall_singleton; simpl; lia].
    eapply Forall_impl; [exact Hg|]. simpl. intros; lia.
  - eapply Forall_impl; [exact Hr|]. simpl. intros; lia.
  - eapply Forall_impl; [exact Hd|]. simpl. intros; lia.
  - apply Forall_app. split; [done|]. apply Forall_singleton. simpl.
    by rewrite (nothing_beyond_sequence rv_game_id _ _ Hr).
  - apply Forall_app. split; [done|]. apply Forall_singleton. simpl.
    by rewrite (nothing_beyond_sequence dl_game_id _ _ Hd).
Qed.

Lemma record_download_catalog (d d' : db) gid pid v :
  record_download d gid pid v = Some d' → catalog_ok d → catalog_ok d'.
Proof.
  unfold record_download. destruct (has_id g_id gid (games d) && _) eqn:E; [|done].
  intros [= <-] ((Hg & Hr & Hd) & Hrat & Hdl).
  apply andb_true_iff in E as [(g0 & Hin & Hid)%has_id_true _].
  unfold increment_download_count, update_where.
  unfold games_in_sequence, ratings_refreshed, downloads_counted, ratings_of,
    downloads_of in *. simpl.
  repeat split.
  - apply Forall_fmap. eapply Forall_impl; [exact Hg|].
    intros g Hle. simpl. by case_decide.
  - done.
  - apply Forall_app. split; [done|]. apply Forall_singleton. simpl.
    rewrite Forall_forall in Hg. rewrite <- Hid. by apply Hg.
  - apply Forall_fmap. eapply Forall_impl; [exact Hrat|].
    intros g Hle. simpl. by case_decide.
  - apply Forall_fmap. eapply Forall_impl; [exact Hdl|].
    intros g Hc. simpl in Hc |- *. rewrite filter_app, length_app.
    case_decide as Eg; simpl.
    + rewrite filter_cons, decide_True by done. simpl. lia.
    + rewrite filter_cons, decide_False by done. simpl. lia.
Qed.

Lemma upsert_review_other (gid pid rating : Z) (comment : string) (l : list review)
    (gid' : Z) :
  gid' ≠ gid →
  filter (λ r, rv_game_id r = gid') (upsert_review gid pid rating comment l)
  = filter (λ r, rv_game_id r = gid') l.
Proof.
  intros Hne. unfold upsert_review. case_bool_decide as E.
  - clear E. induction l as [|r l IH]; [done|].
    rewrite fmap_cons, !filter_cons, IH.
    destruct (decide (rv_game_id r = gid ∧ rv_player_id r = pid)) as [[Hg _]|_]; [|done].
    simpl. rewrite !decide_False by congruence. done.
  - rewrite filter_app, filter_cons, decide_False by (simpl; congruence).
    by rewrite filter_nil, app_nil_r.
Qed.

Lemma upsert_review_in_sequence (gid pid rating : Z) (comment : string) (l : list review)
    (n : Z) :
  gid ≤ n → Forall (λ r, rv_game_id r ≤ n) l →
  Forall (λ r, rv_game_id r ≤ n) (upsert_review gid pid rating comment l).
Proof.
  intros Hle H. unfold upsert_review. case_bool_decide.
  - apply Forall_fmap. eapply Forall_impl; [exact H|].
    intros r Hr. simpl. by case_decide.
  - apply Forall_app. split; [done|]. by apply Forall_singleton.
Qed.

Lemma upsert_review_keys (gid pid rating : Z) (comment : string) (l : list review) :
  NoDup (review_key <$> l) →
  NoDup (review_key <$> upsert_review gid pid rating comment l).
Proof.
  intros H. unfold upsert_review. case_bool_decide as E.
  - replace (review_key <$> _) with (review_key <$> l); [done|].
    rewrite <- list_fmap_compose. apply list_fmap_ext. intros i r _. simpl.
    case_decide as Ek; [|done]. destruct Ek as [<- <-]. done.
  - rewrite fmap_app. apply NoDup_app. split; [done|]. split; [|apply NoDup_singleton].
    intros k Hk [->|[]%elem_of_nil]%elem_of_cons.
    apply E, Exists_exists. apply list_elem_of_fmap in Hk as (r & Hr & Hin).
    exists r. split; [done|]. unfold review_key in Hr. by inversion Hr.
Qed.

Lemma add_review_catalog (d : db) gid pid rating comment :
  catalog_ok d → catalog_ok (add_review d gid pid rating comment).1.
Proof.
  intros ((Hg & Hr & Hd) & Hrat & Hdl). unfold add_review.
  destruct (has_id g_id gid (games d) && _) eqn:E; [|done]. cbn [fst].
  apply andb_true_iff in E as [(g0 & Hin & Hid)%has_id_true _].
  assert (gid ≤ seq_games d) as Hle.
  { rewrite Forall_forall in Hg. rewrite <- Hid. by apply Hg. }
  unfold refresh_rating, update_where.
  unfold games_in_sequence, ratings_refreshed, downloads_counted, ratings_of,
    downloads_of in *. simpl.
  repeat split.
  - apply Forall_fmap. eapply Forall_impl; [exact Hg|].
    intros g Hg'. simpl. by case_decide.
  - by apply upsert_review_in_sequence.
  - done.
  - apply Forall_fmap. eapply Forall_impl; [exact Hrat|].
    intros g [Hn Ha]. simpl. case_decide as Eg; simpl.
    + by rewrite Eg.
    + by rewrite upsert_review_other.
  - apply Forall_fmap. eapply Forall_impl; [exact Hdl|].
    intros g Hc. simpl. by case_decide.
Qed.

Lemma exec_catalog (d : db) (c : call) : catalog_ok d → catalog_ok (exec d c).
Proof.
  intros H. destruct c; cbn [Store.exec].
  - apply (catalog_untouched d); try done; unfold create_player; by case_match.
  - apply (catalog_untouched d); try done; unfold create_developer; by case_match.
  - by apply create_game_catalog.
  - by apply catalog_update_where.
  - by apply catalog_update_where.
  - apply (catalog_untouched d); try done; unfold add_game_version; by case_match.
  - destruct (record_download d gid pid version) as [d'|] eqn:E; [|done].
    by apply (record_download_catalog d d' gid pid version).
  - by apply add_review_catalog.
  - apply (catalog_untouched d); try done; unfold create_room; by repeat case_match.
  - apply (catalog_untouched d); try done; unfold join_room; by case_match.
  - apply (catalog_untouched d); try done; unfold leave_room; by case_match.
  - apply (catalog_untouched d); try done; unfold update_room_status;
      by repeat case_match.
  - by apply (catalog_untouched d).
Qed.

Lemma run_catalog (d : db) (cs : list call) : catalog_ok d → catalog_ok (run d cs).
Proof.
  revert d. induction cs as [|c cs IH]; intros d H; [done|].
  apply IH, exec_catalog, H.
Qed.

Lemma empty_catalog : catalog_ok empty_db.
Proof. repeat split; apply Forall_nil_2. Qed.

Lemma exec_reviews_keyed (d : db) (c : call) : reviews_keyed d → reviews_keyed (exec d c).
Proof.
  unfold reviews_keyed. intros H.
  destruct c; cbn [Store.exec];
    try (unfold create_player, create_developer, create_game, add_game_version,
           create_room, join_room, leave_room, update_room_status, record_download;
         repeat case_match; done).
  unfold add_review. case_match; [|done]. simpl. by apply upsert_review_keys.
Qed.

Lemma run_reviews_keyed (d : db) (cs : list call) :
  reviews_keyed d → reviews_keyed (run d cs).
Proof.
  revert d. induction cs as [|c cs IH]; intros d H; [done|].
  apply IH, exec_reviews_keyed, H.
Qed.

End CatalogInvariants.

(** ** Every event is a sequence of store calls *)

Section EventsAsCalls.
Import Store Inv Server.
Context (sha256_hex : list byte → string).
Local Abbreviation exec := (Store.exec sha256_hex).
Local Abbreviation run := (Store.run sha256_hex).
Local Abbreviation step := (System.step sha256_hex).

(** [d'] comes from [d] by calls the servers make. *)
Local Abbreviation calls_from d d' := (∃ cs, Forall served cs ∧ d' = run d cs).

Lemma calls_none (d : Store.db) : calls_from d d.
Proof. by exists []. Qed.

Lemma calls_one (d : Store.db) (c : call) : served c → calls_from d (exec d c).
Proof. intros H. exists [c]. split; [by apply Forall_singleton|done]. Qed.

Lemma calls_two (d : Store.db) (c1 c2 : call) :
  served c1 → served c2 → calls_from d (exec (exec d c1) c2).
Proof. intros H1 H2. exists [c1; c2]. split; [by repeat constructor|done]. Qed.

Lemma calls_trans (d1 d2 d3 : Store.db) :
  calls_from d1 d2 → calls_from d2 d3 → calls_from d1 d3.
Proof.
  intros (cs1 & H1 & ->) (cs2 & H2 & ->). exists (cs1 ++ cs2). split.
  - by apply Forall_app.
  - unfold Store.run. by rewrite foldl_app.
Qed.

Lemma lobby_request_db (s : state) (cid : string) (handler : state → Lobby.outcome) :
  calls_from (db s) (db (Lobby.after (handler s))) →
  calls_from (db s) (db (System.lobby_request s cid handler)).
Proof.
  intros H. unfold System.lobby_request.
  destruct (client_get cid (lobby_clients s)); [|apply calls_none].
  by destruct (Lobby.reply (handler s)).
Qed.

Lemma developer_request_db (s : state) (cid : string)
    (handler : state → Developer.outcome) :
  calls_from (db s) (db (Developer.after (handler s))) →
  calls_from (db s) (db (System.developer_request s cid handler)).
Proof.
  intros H. unfold System.developer_request.
  destruct (client_get cid (developer_clients s)); [|apply calls_none].
  by destruct (Developer.reply (handler s)).
Qed.

Lemma lobby_register_db (s : state) cid u p :
  calls_from (db s) (db (Lobby.after (Lobby.handle_register sha256_hex s cid u p))).
Proof.
  unfold Lobby.handle_register.
  destruct (str_given u) as [u'|]; [|apply calls_none].
  destruct (str_given p) as [p'|]; [|apply calls_none].
  destruct (create_player _ _ _ _) as [d [i|]] eqn:E; [|apply calls_none].
  simpl. replace d with (exec (db s) (CreatePlayer u' p')) by (simpl; by rewrite E).
  by apply calls_one.
Qed.

Lemma lobby_auth_db (s : state) cid u p token :
  calls_from (db s) (db (Lobby.after (Lobby.handle_auth sha256_hex s cid u p token))).
Proof.
  unfold Lobby.handle_auth. repeat case_match; apply calls_none.
Qed.

Lemma download_request_db (s : state) cid gid v env :
  calls_from (db s) (db (Lobby.after (Lobby.handle_download_request s cid gid v env))).
Proof.
  unfold Lobby.handle_download_request.
  destruct (user_of _ _) as [user|]; [|apply calls_none].
  destruct (gid ≫= _) as [game|]; [|apply calls_none].
  case_decide; [apply calls_none|].
  destruct (match str_given v with Some _ => _ | None => _ end) as [info|];
    [|apply calls_none].
  destruct (Fs.files _ !! _) as [content|]; [|apply calls_none].
  destruct (Lobby.meta_write_raises env); [apply calls_none|].
  destruct (Lobby.open_raises env); [apply calls_none|].
  destruct (Lobby.send_chunks _ _ _ _) as [chunks [total|]]; [|apply calls_none].
  destruct (record_download _ _ _ _) as [d|] eqn:E; [|apply calls_none].
  simpl.
  match type of E with
  | record_download _ ?g ?p ?w = _ =>
      replace d with (exec (db s) (RecordDownload g p w)) by (simpl; by rewrite E)
  end.
  by apply calls_one.
Qed.

Lemma create_room_db (s : state) cid gid name mx code :
  calls_from (db s) (db (Lobby.after (Lobby.handle_create_room s cid gid name mx code))).
Proof.
  unfold Lobby.handle_create_room.
  destruct (user_of _ _) as [user|]; [|apply calls_none].
  destruct (gid ≫= _) as [game|]; [|apply calls_none].
  case_decide; [apply calls_none|].
  destruct (create_room _ _ _ _ _ _) as [d r] eqn:E.
  assert (calls_from (db s) d) as Hd.
  { match type of E with
    | create_room _ ?g ?h ?n ?m ?c = _ =>
        replace d with (exec (db s) (CreateRoom g h n m c)) by (simpl; by rewrite E)
    end.
    by apply calls_one. }
  destruct r as [rid|]; [|exact Hd].
  destruct (get_room d rid); exact Hd.
Qed.

Lemma join_room_db (s : state) cid rid :
  calls_from (db s) (db (Lobby.after (Lobby.handle_join_room s cid rid))).
Proof.
  unfold Lobby.handle_join_room.
  destruct (user_of _ _) as [user|]; [|apply calls_none].
  destruct (get_room _ _) as [room|]; [|apply calls_none].
  case_decide; [apply calls_none|].
  case_decide; [apply calls_none|].
  destruct (join_room _ _ _) as [d [|]] eqn:E; [|apply calls_none].
  simpl.
  replace d with (exec (db s) (JoinRoom rid (acc_id user))) by (simpl; by rewrite E).
  by apply calls_one.
Qed.

Lemma leave_room_db (s : state) cid rid :
  calls_from (db s) (db (Lobby.after (Lobby.handle_leave_room s cid rid))).
Proof.
  unfold Lobby.handle_leave_room.
  destruct (user_of _ _) as [user|]; [|apply calls_none].
  assert (calls_from (db s)
            (if match get_room (db s) rid with
                | Some room => bool_decide (room_host_id room = acc_id user)
                | None => false
                end
             then update_room_status (db s) rid Closed None
             else leave_room (db s) rid (acc_id user))) as Hd.
  { destruct (match get_room (db s) rid with Some _ => _ | None => _ end).
    - by apply (calls_one (db s) (UpdateRoomStatus rid Closed None)).
    - by apply (calls_one (db s) (LeaveRoom rid (acc_id user))). }
  by destruct (Lobby.broadcast_room_update _ _).
Qed.

Lemma start_game_db (s : state) cid rid env :
  calls_from (db s) (db (Lobby.after (Lobby.handle_start_game s cid rid env))).
Proof.
  unfold Lobby.handle_start_game.
  destruct (user_of _ _) as [user|]; [|apply calls_none].
  destruct (get_room _ _) as [room|]; [|apply calls_none].
  case_decide; [apply calls_none|].
  destruct (get_game _ _) as [game|]; [|apply calls_none].
  destruct (Supervisor.spawn_game_server _ _ _ _ _ _ _) as [m game_port].
  destruct (num_given game_port) as [port|] eqn:E; [|apply calls_none].
  simpl. apply (calls_one (db s) (UpdateRoomStatus rid Playing (Some port))).
  exists port. split; [done|].
  unfold num_given in E. destruct game_port as [q|]; [|done].
  case_decide; congruence.
Qed.

Lemma submit_review_db (s : state) cid gid rating comment :
  calls_from (db s) (db (Lobby.after (Lobby.handle_submit_review s cid gid rating comment))).
Proof.
  unfold Lobby.handle_submit_review.
  destruct (user_of _ _) as [user|]; [|apply calls_none].
  destruct (num_given gid) as [g|]; [|apply calls_none].
  destruct rating as [r|]; [|apply calls_none].
  case_decide; [|apply calls_none].
  destruct (add_review _ _ _ _ _) as [d [|]] eqn:E; [|apply calls_none].
  simpl.
  replace d with (exec (db s) (AddReview g (acc_id user) r comment))
    by (simpl; by rewrite E).
  by apply calls_one.
Qed.

Lemma developer_register_db (s : state) cid u p :
  calls_from (db s) (db (Developer.after (Developer.handle_register sha256_hex s cid u p))).
Proof.
  unfold Developer.handle_register.
  destruct (str_given u) as [u'|]; [|apply calls_none].
  destruct (str_given p) as [p'|]; [|apply calls_none].
  destruct (create_developer _ _ _ _) as [d [i|]] eqn:E; [|apply calls_none].
  simpl. replace d with (exec (db s) (CreateDeveloper u' p')) by (simpl; by rewrite E).
  by apply calls_one.
Qed.

Lemma upload_failed_db (s : state) cid e :
  db (Developer.after (Developer.upload_failed s cid e)) = db s.
Proof. done. Qed.

Lemma reject_upload_db (s : state) cid u msg :
  db (Developer.after (Developer.reject_upload s cid u msg)) = db s.
Proof. unfold Developer.reject_upload. by destruct (Fs.unlink _ _). Qed.

Lemma install_upload_db (s : state) cid u gid name changelog updating extracts :
  calls_from (db s)
    (db (Developer.after
           (Developer.install_upload s cid u gid name changelog updating extracts))).
Proof.
  unfold Developer.install_upload.
  destruct (Fs.move _ _ _) as [f1|]; [|apply calls_none].
  destruct extracts; [|apply calls_none]. simpl.
  by apply (calls_one (db s)
              (AddGameVersion gid (up_version u) changelog
                 (Developer.final_path gid (up_version u)) (up_file_size u)
                 (up_checksum u))).
Qed.

Lemma upload_complete_db (s : state) cid extracts :
  calls_from (db s)
    (db (Developer.after (Developer.handle_upload_complete sha256_hex s cid extracts))).
Proof.
  unfold Developer.handle_upload_complete.
  destruct (user_of _ _) as [user|]; [|apply calls_none].
  destruct (uploads s !! cid) as [u|]; [|apply calls_none].
  destruct (Developer._calculate_checksum _ _ _) as [sum|]; [|apply calls_none].
  case_decide; [rewrite reject_upload_db; apply calls_none|].
  destruct (mode u) as [name de mn mx ty|gid gname changelog].
  - destruct (create_game _ _ _ _ _ _ _ _) as [d [gid|]] eqn:E;
      [|rewrite reject_upload_db; apply calls_none].
    eapply calls_trans; [|apply install_upload_db]. cbn [db with_db with_fs].
    match type of E with
    | create_game _ ?a ?b ?c ?e ?f ?g ?h = _ =>
        replace d with (exec (db s) (CreateGame a b c e f g h))
    end.
    + by apply calls_one.
    + cbn [Store.exec]. cbn [db with_fs] in E. by rewrite E.
  - destruct (get_game _ _) as [game|]; [|rewrite reject_upload_db; apply calls_none].
    case_decide; [rewrite reject_upload_db; apply calls_none|].
    apply (install_upload_db (with_fs _ s)).
Qed.

Lemma remove_game_db (s : state) cid gid :
  calls_from (db s) (db (Developer.after (Developer.handle_remove_game s cid gid))).
Proof.
  unfold Developer.handle_remove_game.
  destruct (user_of _ _) as [user|]; [|apply calls_none].
  destruct (get_game _ _) as [game|]; [|apply calls_none].
  case_decide; [apply calls_none|].
  unfold update_game_status.
  assert (calls_from (db s)
            (with_games (update_where g_id gid (game_set_status Inactive)) (db s))) as Hd
    by apply (calls_one (db s) (UpdateGameStatus gid Inactive) I).
  by destruct (has_id g_id gid (games (db s))).
Qed.

Lemma developer_auth_db (s : state) cid u p :
  db (Developer.after (Developer.handle_auth sha256_hex s cid u p)) = db s.
Proof. unfold Developer.handle_auth. by repeat case_match. Qed.

Lemma upload_start_db (s : state) cid name de v mn mx ty sz ck :
  db (Developer.after (Developer.handle_upload_start s cid name de v mn mx ty sz ck))
  = db s.
Proof. unfold Developer.handle_upload_start. by repeat case_match. Qed.

Lemma update_game_db (s : state) cid gid v cl sz ck :
  db (Developer.after (Developer.handle_update_game s cid gid v cl sz ck)) = db s.
Proof. unfold Developer.handle_update_game. by repeat case_match. Qed.

Lemma upload_chunk_db (s : state) cid data :
  db (Developer.after (Developer.handle_upload_chunk s cid data)) = db s.
Proof. unfold Developer.handle_upload_chunk. by repeat case_match. Qed.

Lemma step_db (s : state) (e : System.event) : calls_from (db s) (db (step s e)).
Proof.
  destruct e; cbn [System.step];
    try (apply lobby_request_db); try (apply developer_request_db).
  - apply calls_none.
  - apply calls_none.
  - apply lobby_auth_db.
  - apply lobby_register_db.
  - apply calls_none.
  - apply download_request_db.
  - apply create_room_db.
  - apply join_room_db.
  - apply leave_room_db.
  - apply start_game_db.
  - apply submit_review_db.
  - by apply (calls_one (db s) (CloseExpiredRooms expired)).
  - apply calls_none.
  - apply calls_none.
  - apply calls_none.
  - rewrite developer_auth_db. apply calls_none.
  - apply developer_register_db.
  - rewrite upload_start_db. apply calls_none.
  - rewrite update_game_db. apply calls_none.
  - rewrite upload_chunk_db. apply calls_none.
  - apply upload_complete_db.
  - apply remove_game_db.
Qed.

Lemma run_db (s : state) (es : list System.event) :
  calls_from (db s) (db (System.run sha256_hex s es)).
Proof.
  revert s. induction es as [|e es IH]; intros s; [apply calls_none|].
  eapply calls_trans; [apply step_db|apply IH].
Qed.

End EventsAsCalls.

(** ** Rooms that are playing *)

Section PlayingRooms.
Import Store Inv Server.
Context (sha256_hex : list byte → string).
Local Abbreviation exec := (Store.exec sha256_hex).
Local Abbreviation run := (Store.run sha256_hex).

Local Abbreviation has_port r :=
  (room_status_of r = Playing → ∃ p, room_game_port r = Some p ∧ p ≠ 0).

Lemma playing_rewritten (d : Store.db) (f : room → room) :
  (∀ r, has_port r → has_port (f r)) →
  playing_has_port d → playing_has_port (with_rooms (fmap f) d).
Proof.
  intros Hf H. unfold playing_has_port in *. simpl.
  apply Forall_fmap. eapply Forall_impl; [exact H|]. intros r Hr. exact (Hf r Hr).
Qed.

Lemma playing_untouched (d d' : Store.db) :
  rooms d' = rooms d → playing_has_port d → playing_has_port d'.
Proof. unfold playing_has_port. by intros ->. Qed.

Lemma playing_refreshed (d : Store.db) (rid : Z) :
  playing_has_port d → playing_has_port (refresh_current_players rid d).
Proof.
  intros H. unfold refresh_current_players, update_where.
  apply playing_rewritten; [|done]. intros r Hr. by case_decide.
Qed.

Lemma exec_playing (d : Store.db) (c : call) :
  served c → playing_has_port d → playing_has_port (exec d c).
Proof.
  intros Hc H. destruct c; cbn [Store.exec].
  - apply (playing_untouched d); [|done]. unfold create_player. by case_match.
  - apply (playing_untouched d); [|done]. unfold create_developer. by case_match.
  - apply (playing_untouched d); [|done]. unfold create_game. by case_match.
  - by apply (playing_untouched d).
  - by apply (playing_untouched d).
  - apply (playing_untouched d); [|done]. unfold add_game_version. by case_match.
  - apply (playing_untouched d); [|done]. unfold record_download. by case_match.
  - apply (playing_untouched d); [|done]. unfold add_review. by case_match.
  - unfold create_room. case_match; [done|]. case_match; cbn [fst].
    + unfold playing_has_port in *. simpl. apply Forall_app. split; [done|].
      by apply Forall_singleton.
    + apply playing_refreshed. unfold playing_has_port in *. simpl.
      apply Forall_app. split; [done|]. by apply Forall_singleton.
  - unfold join_room. case_match; [done|]. cbn [fst]. by apply playing_refreshed.
  - unfold leave_room. case_match; [|done]. by apply playing_refreshed.
  - unfold update_room_status, update_where. destruct st; simpl in Hc.
    + done.
    + destruct Hc as (p & -> & Hp). rewrite decide_False by done.
      apply playing_rewritten; [|done]. intros r Hr.
      case_decide; [|done]. intros _. by exists p.
    + subst game_port. apply playing_rewritten; [|done]. intros r Hr.
      by case_decide.
  - unfold close_expired_rooms. apply playing_rewritten; [|done]. intros r Hr.
    case_decide as E; [|done]. destruct (expired _); [done|]. intros E'.
    simpl in E'. congruence.
Qed.

Lemma run_playing (d : Store.db) (cs : list call) :
  Forall served cs → playing_has_port d → playing_has_port (run d cs).
Proof.
  revert d. induction cs as [|c cs IH]; intros d Hcs H; [done|].
  apply Forall_cons in Hcs as [Hc Hcs]. by apply IH, exec_playing.
Qed.

End PlayingRooms.

(** ** What holds in every state the servers reach *)

Section ReachedStates.
Import Store Inv Server.
Context (sha256_hex : list byte → string).
Local Abbreviation reached es := (System.run sha256_hex Server.init es).

Lemma reached_db (es : list System.event) :
  ∃ cs, Forall served cs ∧ db (reached es) = Store.run sha256_hex empty_db cs.
Proof. apply (run_db sha256_hex Server.init es). Qed.

(** C3, as the code has it.  In every state the servers reach, a room that
    is [playing] has the port of its game server.  When the child of a
    room exits, the supervisor's entry for the room is removed and the
    store is left as it was: the room keeps the status it had. *)
Theorem playing_room_has_port_and_exit_unregisters
    (es : list System.event) (rid : Z) :
  playing_has_port (db (reached es))
  ∧ Supervisor.is_registered
      (game_manager (System.step sha256_hex (reached es) (System.ChildExit rid))) rid
    = false
  ∧ db (System.step sha256_hex (reached es) (System.ChildExit rid)) = db (reached es).
Proof.
  split; [|split].
  - destruct (reached_db es) as (cs & Hcs & ->).
    apply run_playing; [done|]. apply Forall_nil_2.
  - cbn [System.step]. unfold Lobby.child_exited, Supervisor.is_registered,
      Supervisor._monitor_process. cbn [game_manager with_game_manager
      Supervisor.game_processes].
    rewrite lookup_delete_eq. apply bool_decide_eq_false. by intros [? ?].
  - done.
Qed.

(** C2.  In every state the servers reach, each game's [rating_count] is
    the number of its review rows and its [average_rating] is their mean,
    no two review rows have the same game and player, and the catalog
    that GAME_LIST_REQUEST is answered with gives that mean rounded to one
    decimal. *)
Theorem ratings_follow_reviews (es : list System.event) (cid : string) :
  ratings_refreshed (db (reached es))
  ∧ reviews_keyed (db (reached es))
  ∧ ∃ l, Lobby.reply (Lobby.handle_game_list (reached es) cid)
         = Some (Lobby.GameListResponse l)
         ∧ Forall (λ g, Lobby.gs_rating g
                        = Round1 (mean (ratings_of (Lobby.gs_id g) (db (reached es))))
                        ∧ Lobby.gs_rating_count g
                          = Z.of_nat (length (ratings_of (Lobby.gs_id g)
                                                         (db (reached es)))))
                  l.
Proof.
  destruct (reached_db es) as (cs & _ & Hdb).
  assert (ratings_refreshed (db (reached es))) as Hrat.
  { rewrite Hdb. apply run_catalog, empty_catalog. }
  split; [exact Hrat|]. split.
  - rewrite Hdb. apply run_reviews_keyed, NoDup_nil_2.
  - eexists. split; [reflexivity|].
    apply Forall_fmap. unfold Lobby.get_active_games.
    rewrite merge_sort_Permutation. apply Forall_forall.
    intros g [_ Hin]%list_elem_of_filter.
    unfold ratings_refreshed in Hrat. rewrite Forall_forall in Hrat.
    destruct (Hrat g Hin) as [Hn Ha]. simpl. by rewrite Hn, Ha.
Qed.

(** C7.  In every state the servers reach, each game's [download_count]
    is the number of its download rows.  A DOWNLOAD_REQUEST either is
    answered with DOWNLOAD_COMPLETE, and then one download row has been
    appended and the counter of that game has gone up by one; or it
    leaves the store as it was, and then it is answered with ERROR, unless
    the DOWNLOAD_META could not be written, in which case nothing was
    sent at all. *)
Theorem download_recorded_once_when_streamed
    (es : list System.event) (cid : string) (game_id : option Z)
    (version : option string) (env : Lobby.download_env) :
  downloads_counted (db (reached es))
  ∧ ((∃ n gid pid v,
        Lobby.reply (Lobby.handle_download_request (reached es) cid game_id version env)
        = Some (Lobby.DownloadComplete n)
        ∧ downloads (db (Lobby.after (Lobby.handle_download_request
                                        (reached es) cid game_id version env)))
          = downloads (db (reached es)) ++ [Download gid pid v]
        ∧ games (db (Lobby.after (Lobby.handle_download_request
                                    (reached es) cid game_id version env)))
          = update_where g_id gid (λ g, game_set_downloads (g_download_count g + 1) g)
                         (games (db (reached es))))
     ∨ (db (Lobby.after (Lobby.handle_download_request
                           (reached es) cid game_id version env))
        = db (reached es)
        ∧ ((Lobby.reply (Lobby.handle_download_request
                           (reached es) cid game_id version env) = None
            ∧ Lobby.sent (Lobby.handle_download_request
                            (reached es) cid game_id version env) = [])
           ∨ ∃ msg, Lobby.reply (Lobby.handle_download_request
                                   (reached es) cid game_id version env)
                    = Some (Lobby.ErrorMsg msg 500)))).
Proof.
  split.
  { destruct (reached_db es) as (cs & _ & ->). apply run_catalog, empty_catalog. }
  generalize (reached es). intros s.
  unfold Lobby.handle_download_request, Lobby.error, Lobby.download_failed.
  destruct (user_of _ _) as [user|]; [|right; eauto].
  destruct (game_id ≫= _) as [game|]; [|right; eauto].
  case_decide; [right; eauto|].
  destruct (match str_given version with Some _ => _ | None => _ end) as [info|];
    [|right; eauto].
  destruct (Fs.files _ !! _) as [content|]; [|right; eauto].
  destruct (Lobby.meta_write_raises env); [right; eauto|].
  destruct (Lobby.open_raises env); [right; eauto|].
  destruct (Lobby.send_chunks _ _ _ _) as [chunks [total|]]; [|right; eauto].
  destruct (record_download _ _ _ _) as [d|] eqn:E; [|right; eauto].
  left. unfold record_download in E. case_match; [|done].
  injection E as <-. do 4 eexists. split; [reflexivity|]. split; reflexivity.
Qed.

End ReachedStates.

Section RoomExamples.
Import Store Server Scenario.

(** The game of room 1 is started and its child process exits: the
    supervisor has no entry for the room any more, and the room is still
    [playing], on the port of the server that is gone. *)
Lemma child_exit_leaves_the_room_playing :
  Supervisor.is_registered (game_manager (state_after game_started)) 1 = true
  ∧ Supervisor.is_registered
      (game_manager (state_after (game_started ++ [System.ChildExit 1]))) 1
    = false
  ∧ room_status_of <$> get_room (db (state_after (game_started ++ [System.ChildExit 1]))) 1
    = Some Playing
  ∧ room_game_port <$> get_room (db (state_after (game_started ++ [System.ChildExit 1]))) 1
    = Some (Some 9000).
Proof. vm_compute. done. Qed.

End RoomExamples.

(** ** More on the wire format and the session loop *)

Section StreamFacts.
Import Json Protocol.
Local Open Scope N_scope.
Context {St : Type}.
Context (handlers : MessageType → option (json → St → result (St * option Message))).

Lemma serialize_inv (m : Message) (frame : list byte) :
  serialize m = inr frame →
  ∃ b0 b1 b2 b3 t0 t1,
    frame = [b0; b1; b2; b3] ++ [t0; t1] ++ (byte_of <$> dumps (payload m))
    ∧ unpack_I b0 b1 b2 b3 = N.of_nat (length (dumps (payload m))) + 2
    ∧ unpack_H t0 t1 = value (msg_type m).
Proof.
  intros Hframe.
  assert (Hlen : N.of_nat (length (dumps (payload m))) + 2 < 2 ^ 32).
  { unfold serialize in Hframe.
    rewrite utf8_encode_ascii in Hframe by apply dumps_ascii. simpl in Hframe.
    rewrite length_fmap in Hframe. unfold pack_I in Hframe.
    destruct (_ <? 2 ^ 32) eqn:E; [by apply N.ltb_lt|done]. }
  destruct (serialize_frame m Hlen) as (b0 & b1 & b2 & b3 & t0 & t1 & Hs & HI & HH).
  rewrite Hs in Hframe. injection Hframe as <-. eauto 10.
Qed.

(** Two messages written one after the other are read back one after the
    other: the length prefix of the first tells where the second starts. *)
Theorem messages_read_back_in_order (m1 m2 : Message) (f1 f2 rest : list byte) :
  serializable (payload m1) → serializable (payload m2) →
  serialize m1 = inr f1 → serialize m2 = inr f2 →
  read_from_stream (f1 ++ f2 ++ rest) = inr (m1, f2 ++ rest)
  ∧ read_from_stream (f2 ++ rest) = inr (m2, rest).
Proof.
  intros H1 H2 Hf1 Hf2. split; by apply read_from_stream_frame.
Qed.

(** A frame that is cut short, wherever the cut falls, is never taken for
    a message: the read ends in [IncompleteReadError]. *)
Theorem cut_frame_is_an_incomplete_read (m : Message) (frame : list byte) (n : nat) :
  serialize m = inr frame → (n < length frame)%nat →
  read_from_stream (take n frame) = inl IncompleteReadError.
Proof.
  intros Hframe Hn.
  destruct (serialize_inv m frame Hframe) as (b0 & b1 & b2 & b3 & t0 & t1 & -> & HI & _).
  set (body := [t0; t1] ++ (byte_of <$> dumps (payload m))) in *.
  assert (N.of_nat (length body) = unpack_I b0 b1 b2 b3) as Hbody.
  { unfold body. rewrite length_app, length_fmap. cbn [length]. lia. }
  rewrite length_app in Hn. cbn [length] in Hn.
  unfold read_from_stream.
  destruct (decide (n < 4)%nat) as [Hlt|Hge].
  - unfold readexactly. rewrite length_take, length_app. cbn [length].
    replace (_ <? 4) with true by (symmetry; apply N.ltb_lt; lia). done.
  - replace n with (4 + (n - 4))%nat by lia.
    change (take (4 + (n - 4)) ([b0; b1; b2; b3] ++ body))
      with ([b0; b1; b2; b3] ++ take (n - 4) body).
    rewrite (readexactly_app 4 [b0; b1; b2; b3]) by done.
    cbn [mbind result_bind]. unfold readexactly. rewrite length_take.
    replace (_ <? unpack_I b0 b1 b2 b3) with true by (symmetry; apply N.ltb_lt; lia).
    done.
Qed.

(** One turn of the loop for a message that has a handler: the state
    becomes the one the handler gives, its response is written, and the
    loop goes on with the rest of the stream. *)
Theorem handled_message_is_answered
    (t : MessageType) (p : json) (st st' : St) (frame rest answer : list byte)
    (handler : json → St → result (St * option Message)) (r : Message) :
  handlers t = Some handler → handler p st = inr (st', Some r) →
  serializable p → serialize (Msg t p) = inr frame → serialize r = inr answer →
  handle_client handlers st (frame ++ rest)
  = wrote (Some r) (handle_client handlers st' rest).
Proof.
  intros Hh Hr Hser Hframe Hans.
  pose proof (read_from_stream_frame (Msg t p) frame rest Hser Hframe) as Hread.
  remember (handle_client handlers st' rest) as after eqn:Hafter.
  unfold handle_client. cbn [session_loop].
  rewrite Hread. unfold process_message. cbn [msg_type payload].
  rewrite Hh, Hr, Hans.
  subst after. unfold handle_client. f_equal.
  apply session_loop_fuel; [|lia].
  apply read_from_stream_shorter in Hread. lia.
Qed.

(** A handler that raises ends the session: nothing is written for the
    message, the state stays the one before it, and the frames that
    follow are not read. *)
Theorem raising_handler_ends_the_session
    (t : MessageType) (p : json) (st : St) (frame rest : list byte)
    (handler : json → St → result (St * option Message)) (e : exn) :
  handlers t = Some handler → handler p st = inl e →
  serializable p → serialize (Msg t p) = inr frame →
  handle_client handlers st (frame ++ rest) = Session st [] e.
Proof.
  intros Hh Hr Hser Hframe.
  pose proof (read_from_stream_frame (Msg t p) frame rest Hser Hframe) as Hread.
  unfold handle_client. cbn [session_loop].
  rewrite Hread. unfold process_message. cbn [msg_type payload].
  by rewrite Hh, Hr.
Qed.

End StreamFacts.

Section TagFacts.
Import Protocol.

(** No two message types have the same tag on the wire, and [MessageType]
    turns each tag back into its member. *)
Theorem tags_are_distinct (t1 t2 : MessageType) :
  of_value (value t1) = Some t1 ∧ (value t1 = value t2 ↔ t1 = t2).
Proof.
  split; [apply of_value_value|]. split; [|by intros ->].
  intros H. pose proof (of_value_value t1) as H1. rewrite H in H1.
  rewrite of_value_value in H1. by injection H1.
Qed.

End TagFacts.

(** ** Downloads deliver the archive *)

Section DownloadFacts.
Import Store Server Lobby.

Lemma CHUNK_SIZE_pos : (0 < CHUNK_SIZE)%nat.
Proof. unfold CHUNK_SIZE. lia. Qed.

Lemma read_chunks_content (fuel : nat) (content : list byte) :
  (length content ≤ fuel)%nat →
  concat (read_chunks fuel content) = content
  ∧ Forall (λ c, (0 < length c ≤ CHUNK_SIZE)%nat) (read_chunks fuel content).
Proof.
  revert content. induction fuel as [|fuel IH]; intros content Hlen.
  - destruct content; [done|simpl in Hlen; lia].
  - destruct content as [|b content]; [done|].
    cbn [read_chunks]. pose proof CHUNK_SIZE_pos as Hpos.
    destruct (IH (drop CHUNK_SIZE (b :: content))) as [Hc Hf].
    { rewrite length_drop. simpl in *. lia. }
    split.
    + cbn [concat]. rewrite Hc. apply take_drop.
    + apply Forall_cons. split; [|exact Hf].
      rewrite length_take. simpl length. lia.
Qed.

Lemma send_chunks_total (chunks : list (list byte)) (index : nat) (offset : Z)
    (raises_at : option nat) (msgs : list response) (total : Z) :
  send_chunks chunks index offset raises_at = (msgs, Some total) →
  msgs ≫= chunk_data = concat chunks
  ∧ total = offset + Z.of_nat (length (concat chunks))
  ∧ length msgs = length chunks.
Proof.
  revert index offset msgs. induction chunks as [|c chunks IH]; intros index offset msgs.
  - simpl. intros [= <- <-]. split; [done|]. split; [lia|done].
  - cbn [send_chunks]. case_decide; [done|].
    destruct (send_chunks chunks _ _ _) as [msgs' total'] eqn:E.
    intros [= <- ->]. destruct (IH _ _ _ E) as (Hd & Ht & Hl).
    split; [|split].
    + cbn [mbind list_bind concat chunk_data]. simpl. by rewrite <- Hd.
    + cbn [concat]. rewrite length_app. lia.
    + simpl. by rewrite Hl.
Qed.

Lemma bytes_sent_to_all (cid : string) (msgs : list response) :
  bytes_sent_to cid ((λ m, (cid, m)) <$> msgs) = msgs ≫= chunk_data.
Proof.
  unfold bytes_sent_to. induction msgs as [|m msgs IH]; [done|].
  rewrite fmap_cons, filter_cons, decide_True by done.
  cbn [mbind list_bind]. simpl. f_equal. exact IH.
Qed.

(** A download that is answered with DOWNLOAD_COMPLETE has sent, to the
    connection that asked and after one DOWNLOAD_META, the bytes of the
    archive of the version in order, and reports their number. *)
Theorem completed_download_delivers_the_archive
    (s : state) (cid : string) (game_id : option Z) (version : option string)
    (env : download_env) (n : Z) :
  reply (handle_download_request s cid game_id version env) = Some (DownloadComplete n) →
  ∃ info content,
    (info ∈ game_versions (db s))
    ∧ Fs.files (fs s) !! gv_file_path info = Some content
    ∧ bytes_sent_to cid (sent (handle_download_request s cid game_id version env))
      = content
    ∧ n = Z.of_nat (length content)
    ∧ (type_of ∘ snd <$> take 1 (sent (handle_download_request s cid game_id version env)))
      = [Protocol.DOWNLOAD_META]
    ∧ Forall (λ m, m.1 = cid) (sent (handle_download_request s cid game_id version env)).
Proof.
  unfold handle_download_request, error, download_failed.
  destruct (user_of _ _) as [user|]; [|done].
  destruct (game_id ≫= _) as [game|]; [|done].
  case_decide; [done|].
  destruct (match str_given version with Some _ => _ | None => _ end) as [info|] eqn:Ei;
    [|done].
  destruct (Fs.files _ !! _) as [content|] eqn:Ef; [|done].
  destruct (meta_write_raises env); [done|].
  destruct (open_raises env); [done|].
  destruct (send_chunks _ _ _ _) as [chunks [total|]] eqn:Es; [|done].
  destruct (record_download _ _ _ _) as [d|]; [|done].
  cbn [reply sent]. intros [= <-].
  destruct (send_chunks_total _ _ _ _ _ _ Es) as (Hd & Ht & _).
  destruct (read_chunks_content (length content) content) as [Hc _]; [done|].
  rewrite Hc in Hd, Ht.
  exists info, content. repeat split.
  - destruct (str_given version).
    + unfold get_game_version in Ei. apply find_some in Ei as [Hin _].
      by apply list_elem_of_In.
    + unfold get_latest_version in Ei. apply last_Some in Ei as [l' El].
      assert (info ∈ filter (λ v, gv_game_id v = g_id game) (game_versions (db s))) as Hin.
      { rewrite El. apply elem_of_app. right. by apply list_elem_of_singleton. }
      by apply list_elem_of_filter in Hin as [_ ?].
  - exact Ef.
  - unfold bytes_sent_to. rewrite filter_cons, decide_True by done.
    cbn [mbind list_bind]. simpl. fold (bytes_sent_to cid ((λ m, (cid, m)) <$> chunks)).
    by rewrite bytes_sent_to_all.
  - lia.
  - apply Forall_cons. split; [done|]. apply Forall_fmap. by apply Forall_true.
Qed.

End DownloadFacts.

(** ** The ports of the game servers *)

Section PortFacts.
Import Store Inv Server.
Context (sha256_hex : list byte → string).

Lemma monitor_ports (m : Supervisor.manager) (rid : Z) :
  ports_in_order m → ports_in_order (Supervisor._monitor_process m rid).
Proof.
  intros (Hn & Hr & Hd). unfold Supervisor._monitor_process.
  split; [|split]; simpl.
  - done.
  - intros r info [_ H]%lookup_delete_Some. by apply (Hr _ _ H).
  - intros r1 r2 i1 i2 Hne [_ H1]%lookup_delete_Some [_ H2]%lookup_delete_Some.
    by apply (Hd r1 r2).
Qed.

Lemma spawn_ports (m : Supervisor.manager) rid gid name players version env :
  ports_in_order m →
  ports_in_order (Supervisor.spawn_game_server m rid gid name players version env).1.
Proof.
  intros (Hn & Hr & Hd). unfold Supervisor.spawn_game_server.
  assert (ports_in_order (Supervisor.Manager (Supervisor.game_processes m)
                                             (Supervisor.next_port m + 1))) as H1.
  { split; [|split]; simpl.
    - lia.
    - intros r info H. specialize (Hr _ _ H). lia.
    - exact Hd. }
  destruct (negb _); [exact H1|].
  destruct (Supervisor.exec_child env) as [child|]; [|exact H1]. cbn [fst].
  assert (ports_in_order
            (Supervisor.Manager
               (<[rid := Supervisor.ProcessInfo child (Supervisor.next_port m) gid players]>
                  (Supervisor.game_processes m))
               (Supervisor.next_port m + 1))) as H2.
  { split; [|split]; simpl.
    - lia.
    - intros r info [[_ <-]|[_ H]]%lookup_insert_Some; simpl; [lia|].
      specialize (Hr _ _ H). lia.
    - intros r1 r2 i1 i2 Hne
        [[E1 <-]|[_ Hl1]]%lookup_insert_Some [[E2 <-]|[_ Hl2]]%lookup_insert_Some; simpl.
      + congruence.
      + specialize (Hr _ _ Hl2). lia.
      + specialize (Hr _ _ Hl1). lia.
      + by apply (Hd r1 r2). }
  destruct (Supervisor.exits_while_waiting env); [|exact H2].
  by apply (monitor_ports _ rid) in H2.
Qed.

Lemma lobby_request_manager (s : state) (cid : string) (handler : state → Lobby.outcome) :
  ports_in_order (game_manager s) →
  ports_in_order (game_manager (Lobby.after (handler s))) →
  ports_in_order (game_manager (System.lobby_request s cid handler)).
Proof.
  intros Hs H. unfold System.lobby_request.
  destruct (client_get cid (lobby_clients s)); [|done].
  by destruct (Lobby.reply (handler s)).
Qed.

Lemma developer_request_manager (s : state) (cid : string)
    (handler : state → Developer.outcome) :
  game_manager (Developer.after (handler s)) = game_manager s →
  game_manager (System.developer_request s cid handler) = game_manager s.
Proof.
  intros H. unfold System.developer_request.
  destruct (client_get cid (developer_clients s)); [|done].
  by destruct (Developer.reply (handler s)).
Qed.

Lemma step_ports (s : state) (e : System.event) :
  ports_in_order (game_manager s) →
  ports_in_order (game_manager (System.step sha256_hex s e)).
Proof.
  intros H. destruct e; cbn [System.step]; try done;
    try (apply lobby_request_manager; [done|]);
    try (rewrite developer_request_manager; [done|]).
  - unfold Lobby.handle_auth. repeat case_match; exact H.
  - unfold Lobby.handle_register. repeat case_match; exact H.
  - exact H.
  - unfold Lobby.handle_download_request. repeat case_match; exact H.
  - unfold Lobby.handle_create_room. repeat case_match; exact H.
  - unfold Lobby.handle_join_room. repeat case_match; exact H.
  - unfold Lobby.handle_leave_room. repeat case_match; exact H.
  - unfold Lobby.handle_start_game.
    destruct (user_of _ _) as [user|]; [|done].
    destruct (get_room _ _) as [room|]; [|done].
    case_decide; [done|].
    destruct (get_game _ _) as [game|]; [|done].
    destruct (Supervisor.spawn_game_server _ _ _ _ _ _ _) as [m game_port] eqn:E.
    assert (ports_in_order m) as Hm.
    { replace m with (m, game_port).1 by done. rewrite <- E. by apply spawn_ports. }
    by destruct (num_given game_port).
  - unfold Lobby.handle_submit_review. repeat case_match; exact H.
  - by apply monitor_ports.
  - unfold Developer.handle_auth. repeat case_match; reflexivity.
  - unfold Developer.handle_register. repeat case_match; reflexivity.
  - unfold Developer.handle_upload_start. repeat case_match; reflexivity.
  - unfold Developer.handle_update_game. repeat case_match; reflexivity.
  - unfold Developer.handle_upload_chunk. repeat case_match; reflexivity.
  - unfold Developer.handle_upload_complete, Developer.install_upload,
      Developer.reject_upload, Developer.upload_failed. repeat case_match; reflexivity.
  - unfold Developer.handle_remove_game. repeat case_match; reflexivity.
Qed.

(** In every state the servers reach, the ports of the game servers that
    the supervisor has entries for lie between the first port and the
    next one to hand out, and no two of them are the same. *)
Theorem game_servers_never_share_a_port (es : list System.event) :
  ports_in_order (game_manager (System.run sha256_hex Server.init es)).
Proof.
  assert (ports_in_order (game_manager Server.init)) as H0.
  { split; [|split]; simpl.
    - done.
    - intros r info H. by rewrite lookup_empty in H.
    - intros r1 r2 i1 i2 _ H. by rewrite lookup_empty in H. }
  revert H0. generalize Server.init. induction es as [|e es IH]; intros s Hs; [done|].
  apply IH. by apply step_ports.
Qed.

End PortFacts.

(** ** Who may do what *)

Section AccessFacts.
Import Store Server.
Context (sha256_hex : list byte → string).

(** A lobby connection that has not authenticated is refused every
    request that acts for a player, and the state stays as it was. *)
Theorem lobby_requests_need_authentication
    (s : state) (cid : string) (game_id : option Z) (version : option string)
    (env : Lobby.download_env) (name : option string) (max_players : option Z)
    (code : string) (room_id : Z) (spawn : Supervisor.spawn_env)
    (rating : option Z) (comment : string) :
  user_of cid (lobby_clients s) = None →
  Lobby.handle_download_request s cid game_id version env
  = Lobby.error s "Not authenticated"
  ∧ Lobby.handle_create_room s cid game_id name max_players code
    = Lobby.error s "Not authenticated"
  ∧ Lobby.handle_join_room s cid room_id = Lobby.error s "Not authenticated"
  ∧ Lobby.handle_leave_room s cid room_id = Lobby.error s "Not authenticated"
  ∧ Lobby.handle_start_game s cid room_id spawn = Lobby.error s "Not authenticated"
  ∧ Lobby.handle_submit_review s cid game_id rating comment
    = Lobby.error s "Not authenticated".
Proof.
  intros H.
  unfold Lobby.handle_download_request, Lobby.handle_create_room, Lobby.handle_join_room,
    Lobby.handle_leave_room, Lobby.handle_start_game, Lobby.handle_submit_review.
  by rewrite H.
Qed.

(** A developer who does not own a game can neither remove it nor start
    an update of it: both requests are answered with ERROR and change
    nothing. *)
Theorem only_the_owner_changes_a_game
    (s : state) (cid : string) (user : account) (game_id : Z) (g : game)
    (new_version changelog : string) (file_size : option Z) (checksum : option string) :
  user_of cid (developer_clients s) = Some user →
  get_game (db s) game_id = Some g →
  g_developer_id g ≠ acc_id user →
  Developer.handle_remove_game s cid game_id
  = Developer.error s "Game not found or not owned by you"
  ∧ Developer.handle_update_game s cid game_id new_version changelog file_size checksum
    = Developer.error s "Game not found or not owned by you".
Proof.
  intros Hu Hg Hne.
  unfold Developer.handle_remove_game, Developer.handle_update_game.
  rewrite Hu, Hg. by rewrite !decide_True by done.
Qed.

Lemma select_one_update_where {A} (key : A → Z) (k : Z) (f : A → A) (l : list A) :
  (∀ x, key (f x) = key x) →
  select_one key k (update_where key k f l) = f <$> select_one key k l.
Proof.
  intros Hf. unfold select_one, update_where.
  induction l as [|x l IH]; [done|].
  rewrite fmap_cons. cbn [List.find].
  destruct (decide (key x = k)) as [E|E].
  - rewrite Hf, !bool_decide_eq_true_2 by done. done.
  - rewrite !bool_decide_eq_false_2 by done. exact IH.
Qed.

(** Once its owner has removed a game, the game is in no catalog the
    lobby sends, it cannot be downloaded, and no room can be opened for
    it. *)
Theorem removed_game_is_gone
    (s : state) (cid : string) (game_id : Z) (message : string)
    (other : string) (user : account) (version : option string)
    (env : Lobby.download_env) (name : option string) (max_players : option Z)
    (code : string) :
  Developer.reply (Developer.handle_remove_game s cid game_id)
  = Some (Developer.RemoveSuccess message) →
  user_of other (lobby_clients s) = Some user →
  Forall (λ g, Lobby.gs_id g ≠ game_id)
         (Lobby.summary
            <$> Lobby.get_active_games
                  (db (Developer.after (Developer.handle_remove_game s cid game_id))))
  ∧ Lobby.reply
      (Lobby.handle_download_request
         (Developer.after (Developer.handle_remove_game s cid game_id))
         other (Some game_id) version env)
    = Some (Lobby.ErrorMsg "Game not available" 500)
  ∧ Lobby.reply
      (Lobby.handle_create_room
         (Developer.after (Developer.handle_remove_game s cid game_id))
         other (Some game_id) name max_players code)
    = Some (Lobby.ErrorMsg "Game not available" 500).
Proof.
  unfold Developer.handle_remove_game.
  destruct (user_of cid _) as [owner|]; [|done].
  destruct (get_game (db s) game_id) as [g|] eqn:Eg; [|done].
  case_decide; [done|]. unfold update_game_status.
  destruct (has_id g_id game_id (games (db s))); [|done].
  cbn [Developer.reply Developer.after]. intros _ Hu. split.
  - apply Forall_fmap. unfold Lobby.get_active_games.
    rewrite merge_sort_Permutation. apply Forall_forall.
    intros g' [Hact Hin]%list_elem_of_filter. simpl.
    cbn [db with_db games with_games] in Hin. unfold update_where in Hin.
    apply list_elem_of_fmap in Hin as (g0 & -> & _).
    case_decide as E; [done|]. exact E.
  - unfold Lobby.handle_download_request, Lobby.handle_create_room.
    cbn [lobby_clients with_db]. rewrite Hu. cbn [mbind option_bind].
    unfold get_game in *. cbn [db with_db games with_games].
    rewrite select_one_update_where by done. rewrite Eg. cbn [fmap option_fmap option_map].
    by rewrite !decide_True by done.
Qed.

End AccessFacts.

(** ** Sessions and accounts *)

Section SessionAccounts.
Import Store Inv Server.
Context (sha256_hex : list byte → string).
Local Abbreviation exec := (Store.exec sha256_hex).
Local Abbreviation run := (Store.run sha256_hex).

(** Account rows are never deleted or rewritten. *)
Lemma exec_accounts (d : Store.db) (c : call) :
  (∃ l, players (exec d c) = players d ++ l)
  ∧ (∃ l, developers (exec d c) = developers d ++ l).
Proof.
  assert (∀ l : list account, ∃ l', l = l ++ l') as Hsame
    by (intros l; exists []; by rewrite app_nil_r).
  destruct c; cbn [Store.exec];
    try (unfold create_game, add_game_version, record_download, add_review, create_room,
           join_room, leave_room, update_room_status;
         repeat case_match; split; apply Hsame).
  - unfold create_player. case_match; [split; apply Hsame|].
    split; [by eexists|apply Hsame].
  - unfold create_developer. case_match; [split; apply Hsame|].
    split; [apply Hsame|by eexists].
Qed.

Lemma run_accounts (d : Store.db) (cs : list call) :
  (∃ l, players (run d cs) = players d ++ l)
  ∧ (∃ l, developers (run d cs) = developers d ++ l).
Proof.
  revert d. induction cs as [|c cs IH]; intros d.
  - split; exists []; by rewrite app_nil_r.
  - destruct (exec_accounts d c) as [[l1 H1] [l2 H2]].
    destruct (IH (exec d c)) as [[l1' H1'] [l2' H2']].
    cbn [Store.run foldl]. unfold Store.run in *. split.
    + exists (l1 ++ l1'). by rewrite H1', H1, app_assoc.
    + exists (l2 ++ l2'). by rewrite H2', H2, app_assoc.
Qed.

Lemma known_in_grows (t t' : list account) (c : clients) :
  (∃ l, t' = t ++ l) → known_in t c → known_in t' c.
Proof.
  intros [l ->] H. unfold known_in in *. eapply Forall_impl; [exact H|].
  intros kv Hkv a Ha. apply elem_of_app. left. by apply Hkv.
Qed.

Lemma known_in_set (t : list account) (c : clients) (cid : string) (u : option account) :
  (∀ a, u = Some a → a ∈ t) → known_in t c → known_in t (client_set cid u c).
Proof.
  intros Hu H. unfold known_in in *. induction c as [|[k v] c IH]; simpl.
  - by apply Forall_singleton.
  - apply Forall_cons in H as [Hk Hc]. case_decide.
    + by apply Forall_cons.
    + apply Forall_cons. split; [done|]. by apply IH.
Qed.

Lemma known_in_del (t : list account) (c : clients) (cid : string) :
  known_in t c → known_in t (client_del cid c).
Proof.
  unfold known_in, client_del. intros H. apply Forall_forall.
  intros kv [_ Hin]%list_elem_of_filter. rewrite Forall_forall in H. by apply H.
Qed.

Lemma authenticate_known (l : list account) (u p : string) (a : account) :
  authenticate sha256_hex l u p = Some a → a ∈ l.
Proof.
  unfold authenticate. intros [H _]%find_some. by apply list_elem_of_In.
Qed.

Lemma lobby_request_lobby_clients (t : list account) (s : state) (cid : string)
    (handler : state → Lobby.outcome) :
  known_in t (lobby_clients s) →
  known_in t (lobby_clients (Lobby.after (handler s))) →
  known_in t (lobby_clients (System.lobby_request s cid handler)).
Proof.
  intros Hs H. unfold System.lobby_request.
  destruct (client_get cid (lobby_clients s)); [|done].
  destruct (Lobby.reply (handler s)); [done|]. by apply known_in_del.
Qed.

Lemma lobby_request_developer_clients (s : state) (cid : string)
    (handler : state → Lobby.outcome) :
  developer_clients (Lobby.after (handler s)) = developer_clients s →
  developer_clients (System.lobby_request s cid handler) = developer_clients s.
Proof.
  intros H. unfold System.lobby_request.
  destruct (client_get cid (lobby_clients s)); [|done].
  by destruct (Lobby.reply (handler s)).
Qed.

Lemma developer_request_developer_clients (t : list account) (s : state) (cid : string)
    (handler : state → Developer.outcome) :
  known_in t (developer_clients s) →
  known_in t (developer_clients (Developer.after (handler s))) →
  known_in t (developer_clients (System.developer_request s cid handler)).
Proof.
  intros Hs H. unfold System.developer_request.
  destruct (client_get cid (developer_clients s)); [|done].
  destruct (Developer.reply (handler s)); [done|]. by apply known_in_del.
Qed.

Lemma developer_request_lobby_clients (s : state) (cid : string)
    (handler : state → Developer.outcome) :
  lobby_clients (Developer.after (handler s)) = lobby_clients s →
  lobby_clients (System.developer_request s cid handler) = lobby_clients s.
Proof.
  intros H. unfold System.developer_request.
  destruct (client_get cid (developer_clients s)); [|done].
  by destruct (Developer.reply (handler s)).
Qed.

Lemma step_lobby_clients (s : state) (e : System.event) :
  known_in (players (db s)) (lobby_clients s) →
  known_in (players (db s)) (lobby_clients (System.step sha256_hex s e)).
Proof.
  intros H. destruct e; cbn [System.step];
    try (apply lobby_request_lobby_clients; [done|]);
    try (rewrite developer_request_lobby_clients; [done|]).
  - by apply known_in_set.
  - by apply known_in_del.
  - unfold Lobby.handle_auth.
    destruct (str_given username) as [u|]; [|exact H].
    destruct (str_given password) as [p|]; [|exact H].
    destruct (authenticate_player _ _ _ _) as [player|] eqn:E; [|exact H].
    apply known_in_set; [|exact H]. intros a [= <-].
    by apply authenticate_known in E.
  - unfold Lobby.handle_register. repeat case_match; exact H.
  - exact H.
  - unfold Lobby.handle_download_request. repeat case_match; exact H.
  - unfold Lobby.handle_create_room. repeat case_match; exact H.
  - unfold Lobby.handle_join_room. repeat case_match; exact H.
  - unfold Lobby.handle_leave_room. repeat case_match; exact H.
  - unfold Lobby.handle_start_game. repeat case_match; exact H.
  - unfold Lobby.handle_submit_review. repeat case_match; exact H.
  - exact H.
  - exact H.
  - exact H.
  - exact H.
  - unfold Developer.handle_auth. repeat case_match; reflexivity.
  - unfold Developer.handle_register. repeat case_match; reflexivity.
  - unfold Developer.handle_upload_start. repeat case_match; reflexivity.
  - unfold Developer.handle_update_game. repeat case_match; reflexivity.
  - unfold Developer.handle_upload_chunk. repeat case_match; reflexivity.
  - unfold Developer.handle_upload_complete, Developer.install_upload,
      Developer.reject_upload, Developer.upload_failed. repeat case_match; reflexivity.
  - unfold Developer.handle_remove_game. repeat case_match; reflexivity.
Qed.

Lemma step_developer_clients (s : state) (e : System.event) :
  known_in (developers (db s)) (developer_clients s) →
  known_in (developers (db s)) (developer_clients (System.step sha256_hex s e)).
Proof.
  intros H. destruct e; cbn [System.step];
    try (rewrite lobby_request_developer_clients; [done|]);
    try (apply developer_request_developer_clients; [done|]).
  - exact H.
  - exact H.
  - unfold Lobby.handle_auth. repeat case_match; reflexivity.
  - unfold Lobby.handle_register. repeat case_match; reflexivity.
  - reflexivity.
  - unfold Lobby.handle_download_request. repeat case_match; reflexivity.
  - unfold Lobby.handle_create_room. repeat case_match; reflexivity.
  - unfold Lobby.handle_join_room. repeat case_match; reflexivity.
  - unfold Lobby.handle_leave_room. repeat case_match; reflexivity.
  - unfold Lobby.handle_start_game. repeat case_match; reflexivity.
  - unfold Lobby.handle_submit_review. repeat case_match; reflexivity.
  - exact H.
  - exact H.
  - by apply known_in_set.
  - by apply known_in_del.
  - unfold Developer.handle_auth.
    destruct (str_given username) as [u|]; [|exact H].
    destruct (str_given password) as [p|]; [|exact H].
    destruct (authenticate_developer _ _ _ _) as [developer|] eqn:E; [|exact H].
    apply known_in_set; [|exact H]. intros a [= <-].
    by apply authenticate_known in E.
  - unfold Developer.handle_register. repeat case_match; exact H.
  - unfold Developer.handle_upload_start. repeat case_match; exact H.
  - unfold Developer.handle_update_game. repeat case_match; exact H.
  - unfold Developer.handle_upload_chunk. repeat case_match; exact H.
  - unfold Developer.handle_upload_complete, Developer.install_upload,
      Developer.reject_upload, Developer.upload_failed. repeat case_match; exact H.
  - unfold Developer.handle_remove_game. repeat case_match; exact H.
Qed.

Lemma step_sessions (s : state) (e : System.event) :
  known_in (players (db s)) (lobby_clients s)
  ∧ known_in (developers (db s)) (developer_clients s) →
  known_in (players (db (System.step sha256_hex s e)))
           (lobby_clients (System.step sha256_hex s e))
  ∧ known_in (developers (db (System.step sha256_hex s e)))
             (developer_clients (System.step sha256_hex s e)).
Proof.
  intros [Hl Hd].
  destruct (step_db sha256_hex s e) as (cs & _ & Hdb).
  destruct (run_accounts (db s) cs) as [Hp Hv]. rewrite <- Hdb in Hp, Hv.
  split.
  - apply (known_in_grows (players (db s))); [done|]. by apply step_lobby_clients.
  - apply (known_in_grows (developers (db s))); [done|]. by apply step_developer_clients.
Qed.

Lemma sessions_reached (es : list System.event) :
  known_in (players (db (System.run sha256_hex Server.init es)))
           (lobby_clients (System.run sha256_hex Server.init es))
  ∧ known_in (developers (db (System.run sha256_hex Server.init es)))
             (developer_clients (System.run sha256_hex Server.init es)).
Proof.
  assert (known_in (players (db Server.init)) (lobby_clients Server.init)
          ∧ known_in (developers (db Server.init)) (developer_clients Server.init)) as H0.
  { split; apply Forall_nil_2. }
  revert H0. generalize Server.init. induction es as [|e es IH]; intros s Hs; [done|].
  apply IH. by apply step_sessions.
Qed.

(** In every state the servers reach, the account a lobby connection is
    logged in as is a row of [players], and the account a developer
    connection is logged in as is a row of [developers]. *)
Theorem sessions_belong_to_accounts (es : list System.event) :
  known_in (players (db (System.run sha256_hex Server.init es)))
           (lobby_clients (System.run sha256_hex Server.init es))
  ∧ known_in (developers (db (System.run sha256_hex Server.init es)))
             (developer_clients (System.run sha256_hex Server.init es)).
Proof. apply sessions_reached. Qed.

End SessionAccounts.

(** ** Publishing a game, and downloading what was published *)

Section PublishFacts.
Import Store Inv Server Developer.
Context (sha256_hex : list byte → string).
Local Abbreviation exec := (Store.exec sha256_hex).
Local Abbreviation run := (Store.run sha256_hex).
Local Abbreviation reached es := (System.run sha256_hex Server.init es).

Lemma exec_versions_in_sequence (d : Store.db) (c : call) :
  versions_in_sequence d → versions_in_sequence (exec d c).
Proof.
  intros [Hg Hv]. unfold versions_in_sequence.
  destruct c; cbn [Store.exec];
    try (unfold create_player, create_developer, create_room, join_room, leave_room,
           update_room_status; repeat case_match; done).
  - unfold create_game. case_match; [done|]. simpl. split.
    + apply Forall_app. split; [|apply Forall_singleton; simpl; lia].
      eapply Forall_impl; [exact Hg|]. simpl. intros; lia.
    + eapply Forall_impl; [exact Hv|]. simpl. intros; lia.
  - simpl. split; [|done]. by apply Forall_update_where.
  - simpl. split; [|done]. by apply Forall_update_where.
  - unfold add_game_version.
    destruct (version_exists d gid version || negb (has_id g_id gid (games d))) eqn:E;
      [done|].
    apply orb_false_iff in E as [_ (g0 & Hin & Hid)%negb_false_iff%has_id_true].
    simpl. split; [done|]. apply Forall_app. split; [done|].
    apply Forall_singleton. simpl. rewrite Forall_forall in Hg. rewrite <- Hid.
    by apply Hg.
  - unfold record_download. case_match; [|done]. simpl. split; [|done].
    by apply Forall_update_where.
  - unfold add_review. case_match; [|done]. simpl. split; [|done].
    by apply Forall_update_where.
Qed.

Lemma reached_versions_in_sequence (es : list System.event) :
  versions_in_sequence (db (reached es)).
Proof.
  destruct (run_db sha256_hex Server.init es) as (cs & _ & ->).
  assert (versions_in_sequence (db Server.init)) as H0 by (split; apply Forall_nil_2).
  revert H0. generalize (db Server.init).
  induction cs as [|c cs IH]; intros d Hd; [done|].
  apply IH. by apply exec_versions_in_sequence.
Qed.

Lemma select_one_fresh {A} (key : A → Z) (k : Z) (l : list A) (x : A) :
  Forall (λ y, key y ≠ k) l → key x = k → select_one key k (l ++ [x]) = Some x.
Proof.
  intros H Hx. unfold select_one. induction H as [|y l Hy _ IH]; simpl.
  - by rewrite bool_decide_eq_true_2.
  - by rewrite bool_decide_eq_false_2.
Qed.

Lemma complete_new (s : state) (cid : string) (user : account) (u : upload)
    (name description : string) (mn mx : Z) (ty : string) (content : list byte)
    (d : Store.db) (gid : Z) (extracts : bool) :
  user_of cid (developer_clients s) = Some user →
  uploads s !! cid = Some u →
  mode u = ModeNew name description mn mx ty →
  Fs.files (fs s) !! temp_file u = Some content →
  sha256_hex content = up_checksum u →
  create_game (db s) name description (acc_id user) (up_version u) mn mx ty
  = (d, Some gid) →
  handle_upload_complete sha256_hex s cid extracts
  = install_upload (with_db d (with_fs (Fs.close (temp_file u) (fs s)) s)) cid u gid name
                   "Initial release" false extracts.
Proof.
  intros Huser Hup Hmode Hfile Hsum Hgame.
  unfold handle_upload_complete. rewrite Huser, Hup.
  unfold _calculate_checksum. cbn [fs with_fs Fs.close Fs.files].
  rewrite Hfile. cbn [fmap option_fmap option_map]. rewrite Hsum.
  destruct (decide (up_checksum u ≠ up_checksum u)) as [Hne|_]; [done|].
  rewrite Hmode. cbn [db with_fs]. by rewrite Hgame.
Qed.

Lemma create_game_fresh (d : Store.db) name description dev version mn mx ty :
  Forall (λ g, g_name g ≠ name) (games d) →
  has_id acc_id dev (developers d) = true →
  create_game d name description dev version mn mx ty
  = (with_seq_games (seq_games d + 1)
       (with_games
          (λ l, l ++ [Game (seq_games d + 1) name description dev version mn mx ty
                           Active 0 0%Q 0]) d),
     Some (seq_games d + 1)).
Proof.
  intros Hname Hdev. unfold create_game. rewrite Hdev.
  rewrite bool_decide_eq_false_2; [done|].
  intros (g & Hin & Hg)%Exists_exists. rewrite Forall_forall in Hname.
  by apply (Hname g Hin).
Qed.

Lemma user_of_known (t : list account) (c : clients) (cid : string) (a : account) :
  known_in t c → user_of cid c = Some a → a ∈ t.
Proof.
  unfold known_in, user_of. intros H. induction H as [|[k v] c Hk _ IH]; [done|].
  simpl. case_decide; [|exact IH]. simpl. intros ->. by apply Hk.
Qed.

Lemma elem_has_id {A} (key : A → Z) (x : A) (l : list A) :
  x ∈ l → has_id key (key x) l = true.
Proof.
  intros H. apply bool_decide_eq_true, Exists_exists. by exists x.
Qed.

(** What a completed upload of a new game leaves, in a state the servers
    reach. *)
Lemma publish (es : list System.event) (cid : string) (user : account) (u : upload)
    (name description : string) (mn mx : Z) (ty : string) (content : list byte) :
  user_of cid (developer_clients (reached es)) = Some user →
  uploads (reached es) !! cid = Some u →
  mode u = ModeNew name description mn mx ty →
  Fs.files (fs (reached es)) !! temp_file u = Some content →
  sha256_hex content = up_checksum u →
  Forall (λ g, g_name g ≠ name) (games (db (reached es))) →
  handle_upload_complete sha256_hex (reached es) cid true
  = Outcome
      (State
         (with_game_versions
            (λ l, l ++ [GameVersion (seq_versions (db (reached es)) + 1)
                                    (seq_games (db (reached es)) + 1) (up_version u)
                                    "Initial release"
                                    (final_path (seq_games (db (reached es)) + 1)
                                                (up_version u))
                                    (up_file_size u) (up_checksum u)])
            (seq_versions (db (reached es)) + 1)
            (with_seq_games (seq_games (db (reached es)) + 1)
               (with_games
                  (λ l, l ++ [Game (seq_games (db (reached es)) + 1) name description
                                   (acc_id user) (up_version u) mn mx ty Active 0 0%Q 0])
                  (db (reached es)))))
         (Fs.Fs (<[final_path (seq_games (db (reached es)) + 1) (up_version u) := content]>
                   (delete (temp_file u) (Fs.files (fs (reached es)))))
                (Fs.open_handles (fs (reached es)) ∖ {[temp_file u]})
                (<[seq_games (db (reached es)) + 1 := up_version u]>
                   (Fs.current_link (fs (reached es))))
                ({[(seq_games (db (reached es)) + 1, up_version u)]}
                 ∪ Fs.extracted (fs (reached es))))
         (game_manager (reached es)) (lobby_clients (reached es))
         (developer_clients (reached es)) (delete cid (uploads (reached es))))
      (Some (UploadSuccess (seq_games (db (reached es)) + 1)
               ("Game '" +:+ name +:+ "' uploaded successfully!"))).
Proof.
  intros Huser Hup Hmode Hfile Hsum Hname.
  destruct (reached_versions_in_sequence es) as [Hg Hv].
  destruct (sessions_reached sha256_hex es) as [_ Hdev].
  pose proof (user_of_known _ _ _ _ Hdev Huser) as Hrow.
  pose proof (create_game_fresh (db (reached es)) name description (acc_id user)
                (up_version u) mn mx ty Hname (elem_has_id acc_id user _ Hrow)) as Hcreate.
  generalize dependent (reached es). intros s Huser Hup Hfile Hname Hg Hv _ _ Hcreate.
  rewrite (complete_new s cid user u name description mn mx ty content _ _ true
             Huser Hup Hmode Hfile Hsum Hcreate).
  unfold install_upload, Fs.move. cbn [fs with_fs with_db Fs.close Fs.files].
  rewrite Hfile. cbn [negb].
  unfold add_game_version.
  replace (version_exists _ _ _) with false.
  2:{ symmetry. apply bool_decide_eq_false. intros (v & Hin & Hgv & _)%Exists_exists.
      cbn [db with_db game_versions with_seq_games with_games] in Hin.
      rewrite Forall_forall in Hv. specialize (Hv v Hin). simpl in Hv. lia. }
  replace (has_id g_id _ _) with true.
  2:{ symmetry. apply bool_decide_eq_true, Exists_exists. eexists. split.
      - cbn [db with_db games with_seq_games with_games]. apply elem_of_app. right.
        by apply list_elem_of_singleton.
      - done. }
  reflexivity.
Qed.

Lemma send_chunks_unbroken (chunks : list (list byte)) (index : nat) (offset : Z) :
  ∃ msgs, Lobby.send_chunks chunks index offset None = (msgs, Some (offset + Z.of_nat (length (concat chunks))))
          ∧ msgs ≫= Lobby.chunk_data = concat chunks.
Proof.
  revert index offset. induction chunks as [|c chunks IH]; intros index offset.
  - exists []. split; [|done]. simpl. by rewrite Z.add_0_r.
  - destruct (IH (S index) (offset + Z.of_nat (length c))) as (msgs & E & Hd).
    exists (Lobby.DownloadChunk c offset :: msgs). cbn [Lobby.send_chunks].
    rewrite decide_False by done. rewrite E. split.
    + cbn [concat]. rewrite length_app, Nat2Z.inj_add, Z.add_assoc. done.
    + cbn [mbind list_bind concat Lobby.chunk_data]. simpl. by rewrite <- Hd.
Qed.

(** A download that meets no obstacle: the player is logged in, the game
    is active, the version is on record with its archive in place, and no
    write to the connection fails. *)
Lemma download_goes_through (s : state) (cid : string) (player : account) (gid : Z)
    (version : string) (env : Lobby.download_env) (game : game) (info : game_version)
    (content : list byte) :
  user_of cid (lobby_clients s) = Some player →
  (player ∈ players (db s)) →
  get_game (db s) gid = Some game → g_status game = Active →
  version ≠ "" →
  get_game_version (db s) gid version = Some info →
  Fs.files (fs s) !! gv_file_path info = Some content →
  Lobby.meta_write_raises env = false → Lobby.open_raises env = false →
  Lobby.chunk_write_raises_at env = None →
  Lobby.reply (Lobby.handle_download_request s cid (Some gid) (Some version) env)
  = Some (Lobby.DownloadComplete (Z.of_nat (length content)))
  ∧ Lobby.bytes_sent_to cid
      (Lobby.sent (Lobby.handle_download_request s cid (Some gid) (Some version) env))
    = content
  ∧ downloads (db (Lobby.after (Lobby.handle_download_request s cid (Some gid)
                                                                (Some version) env)))
    = downloads (db s) ++ [Download gid (acc_id player) version].
Proof.
  intros Hu Hrow Hg Hact Hv Hinfo Hfile Hmeta Hopen Hchunk.
  assert (g_id game = gid) as Hid.
  { unfold get_game, select_one in Hg. apply find_some in Hg as [_ Hg].
    by apply bool_decide_eq_true in Hg. }
  unfold Lobby.handle_download_request.
  rewrite Hu. cbn [mbind option_bind]. rewrite Hg.
  rewrite decide_False by (by intros []). unfold str_given.
  rewrite decide_False by done. rewrite Hid, Hinfo, Hfile, Hmeta, Hopen, Hchunk.
  destruct (send_chunks_unbroken (Lobby.read_chunks (length content) content) 0 0)
    as (msgs & -> & Hd).
  destruct (read_chunks_content (length content) content) as [Hc _]; [done|].
  rewrite Hc in *.
  unfold record_download.
  rewrite (select_one_has_id g_id gid (games (db s)) game Hg).
  rewrite (elem_has_id acc_id player _ Hrow). cbn [andb].
  cbn [Lobby.reply Lobby.sent Lobby.after db with_db]. split; [|split].
  - by rewrite Z.add_0_l.
  - unfold Lobby.bytes_sent_to. rewrite filter_cons, decide_True by done.
    cbn [mbind list_bind]. simpl.
    fold (Lobby.bytes_sent_to cid ((λ m, (cid, m)) <$> msgs)).
    by rewrite bytes_sent_to_all.
  - reflexivity.
Qed.

Lemma find_fresh {A} (P : A → bool) (l : list A) (x : A) :
  Forall (λ y, P y = false) l → P x = true → List.find P (l ++ [x]) = Some x.
Proof.
  intros H Hx. induction H as [|y l Hy _ IH]; simpl.
  - by rewrite Hx.
  - by rewrite Hy.
Qed.

Lemma new_upload_facts
    (es : list System.event) (cid : string) (user : account) (u : upload)
    (name description : string) (mn mx : Z) (ty : string) (content : list byte) :
  user_of cid (developer_clients (reached es)) = Some user →
  uploads (reached es) !! cid = Some u →
  mode u = ModeNew name description mn mx ty →
  Fs.files (fs (reached es)) !! temp_file u = Some content →
  sha256_hex content = up_checksum u →
  Forall (λ g, g_name g ≠ name) (games (db (reached es))) →
  get_game (db (after (handle_upload_complete sha256_hex (reached es) cid true)))
           (seq_games (db (reached es)) + 1)
  = Some (Game (seq_games (db (reached es)) + 1) name description (acc_id user)
               (up_version u) mn mx ty Active 0 0%Q 0)
  ∧ get_game_version (db (after (handle_upload_complete sha256_hex (reached es) cid true)))
                     (seq_games (db (reached es)) + 1) (up_version u)
    = Some (GameVersion (seq_versions (db (reached es)) + 1)
                        (seq_games (db (reached es)) + 1) (up_version u) "Initial release"
                        (final_path (seq_games (db (reached es)) + 1) (up_version u))
                        (up_file_size u) (up_checksum u))
  ∧ Fs.files (fs (after (handle_upload_complete sha256_hex (reached es) cid true)))
      !! final_path (seq_games (db (reached es)) + 1) (up_version u)
    = Some content
  ∧ lobby_clients (after (handle_upload_complete sha256_hex (reached es) cid true))
    = lobby_clients (reached es)
  ∧ players (db (after (handle_upload_complete sha256_hex (reached es) cid true)))
    = players (db (reached es)).
Proof.
  intros Huser Hup Hmode Hfile Hsum Hname.
  rewrite (publish es cid user u name description mn mx ty content) by assumption.
  destruct (reached_versions_in_sequence es) as [Hg Hv].
  cbn [after db fs lobby_clients Fs.files].
  split; [|split; [|split; [|split]]].
  - unfold get_game. cbn [games with_game_versions with_seq_games with_games].
    apply select_one_fresh; [|done].
    eapply Forall_impl; [exact Hg|]. simpl. intros; lia.
  - unfold get_game_version.
    cbn [game_versions with_game_versions].
    apply find_fresh.
    + eapply Forall_impl; [exact Hv|]. simpl. intros v Hle.
      apply bool_decide_eq_false. intros [E _]. lia.
    + by apply bool_decide_eq_true.
  - by rewrite lookup_insert_eq.
  - reflexivity.
  - reflexivity.
Qed.



End PublishFacts.

(** ** Registration, and the course of an upload *)

Section FlowFacts.
Import Store Inv Server.
Context (sha256_hex : list byte → string).

(** A player who has just registered can log in, on any connection, with
    the name and password given, and is logged in as the account that was
    created; registering the same name again is refused and changes
    nothing. *)
Theorem registered_player_logs_in
    (s : state) (cid other : string) (username password token : string) (user_id : Z)
    (name : string) :
  Lobby.reply (Lobby.handle_register sha256_hex s cid (Some username) (Some password))
  = Some (Lobby.RegisterOk user_id name) →
  Lobby.reply
    (Lobby.handle_auth sha256_hex
       (Lobby.after (Lobby.handle_register sha256_hex s cid (Some username) (Some password)))
       other (Some username) (Some password) token)
  = Some (Lobby.AuthOk user_id username token)
  ∧ Lobby.handle_register sha256_hex
      (Lobby.after (Lobby.handle_register sha256_hex s cid (Some username) (Some password)))
      other (Some username) (Some password)
    = Lobby.Outcome
        (Lobby.after (Lobby.handle_register sha256_hex s cid (Some username)
                                            (Some password)))
        (Some Lobby.RegisterFailed) [].
Proof.
  unfold Lobby.handle_register, Lobby.handle_auth, str_given.
  destruct (decide (username = "")) as [|Hu]; [done|].
  destruct (decide (password = "")) as [|Hp]; [done|].
  unfold create_player.
  destruct (username_taken username (players (db s))) eqn:E; [done|].
  cbn [Lobby.reply Lobby.after db with_db players with_players].
  intros [= <- <-].
  unfold authenticate_player, authenticate.
  cbn [db with_db players with_players].
  rewrite find_fresh.
  - split; [done|].
    replace (username_taken username _) with true; [done|].
    symmetry. apply bool_decide_eq_true, Exists_exists. eexists. split.
    + apply elem_of_app. right. by apply list_elem_of_singleton.
    + done.
  - apply bool_decide_eq_false in E. apply Forall_forall. intros a Ha.
    apply bool_decide_eq_false. intros [Hn _]. apply E, Exists_exists. by exists a.
  - by apply bool_decide_eq_true.
Qed.

Lemma chunk_outcome (s : state) (cid h : string) (u : upload) (d : list byte) :
  uploads s !! cid = Some u → h ≠ "" → Developer.fromhex h = Some d →
  (temp_file u ∈ Fs.open_handles (fs s)) →
  Developer.handle_upload_chunk s cid (Some h)
  = Developer.Outcome
      (State (db s)
             (Fs.Fs (<[temp_file u := default [] (Fs.files (fs s) !! temp_file u) ++ d]>
                       (Fs.files (fs s)))
                    (Fs.open_handles (fs s)) (Fs.current_link (fs s))
                    (Fs.extracted (fs s)))
             (game_manager s) (lobby_clients s) (developer_clients s)
             (<[cid := Developer.upload_add_received (Z.of_nat (length d)) u]> (uploads s)))
      (Some (Developer.ChunkReceived
               (received_bytes u + Z.of_nat (length d))
               (Round1 (inject_Z (received_bytes u + Z.of_nat (length d))
                        / inject_Z (up_file_size u) * 100)))).
Proof.
  intros Hup Hne Hhex Hopen.
  unfold Developer.handle_upload_chunk. rewrite Hup. unfold str_given.
  rewrite decide_False by done. rewrite Hhex. unfold Fs.write.
  by rewrite decide_True by done.
Qed.

Lemma run_app (s : state) (es1 es2 : list System.event) :
  System.run sha256_hex s (es1 ++ es2)
  = System.run sha256_hex (System.run sha256_hex s es1) es2.
Proof. unfold System.run. apply foldl_app. Qed.

Lemma run_one (s : state) (e : System.event) :
  System.run sha256_hex s [e] = System.step sha256_hex s e.
Proof. reflexivity. Qed.

Lemma chunks_fed (s : state) (cid : string) (u : upload) (before : list byte)
    (hexes : list string) (datas : list (list byte)) :
  is_Some (client_get cid (developer_clients s)) →
  uploads s !! cid = Some u →
  (temp_file u ∈ Fs.open_handles (fs s)) →
  Fs.files (fs s) !! temp_file u = Some before →
  Forall2 (λ h d, h ≠ "" ∧ Developer.fromhex h = Some d) hexes datas →
  uploads (System.run sha256_hex s ((λ h, System.UploadChunk cid (Some h)) <$> hexes)) !! cid
  = Some (Developer.upload_add_received (Z.of_nat (length (concat datas))) u)
  ∧ Fs.files (fs (System.run sha256_hex s ((λ h, System.UploadChunk cid (Some h)) <$> hexes))) !! temp_file u
    = Some (before ++ concat datas)
  ∧ db (System.run sha256_hex s ((λ h, System.UploadChunk cid (Some h)) <$> hexes)) = db s
  ∧ developer_clients (System.run sha256_hex s ((λ h, System.UploadChunk cid (Some h)) <$> hexes))
    = developer_clients s.
Proof.
  intros Hc Hup Hopen Hfile H. revert s u before Hc Hup Hopen Hfile.
  induction H as [|h d hexes datas [Hne Hhex] _ IH]; intros s u before Hc Hup Hopen Hfile.
  - simpl. split; [|split; [|done]].
    + rewrite Hup. f_equal. destruct u. unfold Developer.upload_add_received. simpl.
      f_equal. lia.
    + by rewrite app_nil_r.
  - rewrite fmap_cons. cbn [System.run foldl].
    fold (System.run sha256_hex (System.step sha256_hex s (System.UploadChunk cid (Some h)))
            ((λ h, System.UploadChunk cid (Some h)) <$> hexes)).
    assert (System.step sha256_hex s (System.UploadChunk cid (Some h))
            = Developer.after (Developer.handle_upload_chunk s cid (Some h))) as Hstep.
    { cbn [System.step]. unfold System.developer_request.
      destruct Hc as [c ->]. by rewrite (chunk_outcome s cid h u d). }
    rewrite Hstep, (chunk_outcome s cid h u d) by done.
    cbn [Developer.after].
    match goal with
    | |- context [System.run _ ?s1 _] =>
        destruct (IH s1 (Developer.upload_add_received (Z.of_nat (length d)) u)
                     (before ++ d)) as (Hu' & Hf' & Hd' & Hc')
    end.
    + exact Hc.
    + cbn [uploads]. by rewrite lookup_insert_eq.
    + exact Hopen.
    + cbn [fs Fs.files Developer.upload_add_received temp_file].
      by rewrite lookup_insert_eq, Hfile.
    + cbn [Developer.upload_add_received temp_file] in Hf'.
      rewrite Hu', Hf', Hd', Hc'. cbn [concat]. split; [|split; [|done]].
      * f_equal. unfold Developer.upload_add_received. simpl. f_equal.
        rewrite length_app. lia.
      * by rewrite app_assoc.
Qed.

(** The chunks of an upload add up: after a run of UPLOAD_CHUNK requests
    with well-formed data on a connection with an upload in flight, the
    temporary file holds what it held before followed by the bytes of the
    chunks in the order they came, the counter of received bytes has gone
    up by their total length, and the store has not changed. *)
Theorem chunks_accumulate_in_order
    (s : state) (cid : string) (u : upload) (before : list byte) (hexes : list string)
    (datas : list (list byte)) :
  is_Some (client_get cid (developer_clients s)) →
  uploads s !! cid = Some u →
  (temp_file u ∈ Fs.open_handles (fs s)) →
  Fs.files (fs s) !! temp_file u = Some before →
  Forall2 (λ h d, h ≠ "" ∧ Developer.fromhex h = Some d) hexes datas →
  uploads (System.run sha256_hex s ((λ h, System.UploadChunk cid (Some h)) <$> hexes))
    !! cid
  = Some (Developer.upload_add_received (Z.of_nat (length (concat datas))) u)
  ∧ Fs.files (fs (System.run sha256_hex s
                    ((λ h, System.UploadChunk cid (Some h)) <$> hexes)))
      !! temp_file u
    = Some (before ++ concat datas)
  ∧ db (System.run sha256_hex s ((λ h, System.UploadChunk cid (Some h)) <$> hexes))
    = db s.
Proof.
  intros Hc Hup Hopen Hfile H.
  destruct (chunks_fed s cid u before hexes datas Hc Hup Hopen Hfile H)
    as (Hu & Hf & Hd & _).
  done.
Qed.

End FlowFacts.

(** ** Starting a game, and a package that does not extract *)

Section EdgeFacts.
Import Store Inv Server.
Context (sha256_hex : list byte → string).

(** A START_GAME that is answered with the port of a game server came
    from the host of the room; the port is the one the supervisor had
    next, which it will not hand out again; and the room is now [playing]
    on that port, its other columns unchanged. *)
Theorem started_game_marks_the_room
    (s : state) (cid : string) (room_id : Z) (env : Supervisor.spawn_env) (port : Z) :
  Lobby.reply (Lobby.handle_start_game s cid room_id env)
  = Some (Lobby.SuccessStarted port room_id) →
  ∃ user room,
    user_of cid (lobby_clients s) = Some user
    ∧ get_room (db s) room_id = Some room
    ∧ room_host_id room = acc_id user
    ∧ port = Supervisor.next_port (game_manager s)
    ∧ Supervisor.next_port (game_manager (Lobby.after (Lobby.handle_start_game s cid room_id
                                                                               env)))
      = port + 1
    ∧ get_room (db (Lobby.after (Lobby.handle_start_game s cid room_id env))) room_id
      = Some (room_set_status_port Playing port room).
Proof.
  unfold Lobby.handle_start_game.
  destruct (user_of _ _) as [user|]; [|done].
  destruct (get_room (db s) room_id) as [room|] eqn:Er; [|done].
  case_decide as Eh; [done|].
  destruct (get_game _ _) as [game|]; [|done].
  unfold Supervisor.spawn_game_server.
  destruct (negb _); [done|].
  destruct (Supervisor.exec_child env) as [child|]; [|done].
  unfold num_given. case_decide as Ep; [done|].
  cbn [Lobby.reply Lobby.after]. intros [= <-].
  exists user, room. repeat split; try done.
  - by destruct (Supervisor.exits_while_waiting env).
  - unfold update_room_status. rewrite decide_False by done.
    unfold get_room in *. cbn [db with_db with_game_manager rooms with_rooms].
    rewrite select_one_update_where by done. by rewrite Er.
Qed.

(** A new game whose package [zipfile] refuses: the request is answered
    with ERROR and the upload is forgotten, but the game row has been
    created, no version row has, and the package stays under the game's
    directory, where the temporary file was moved. *)
Theorem package_that_does_not_extract
    (s : state) (cid : string) (user : account) (u : upload)
    (name description : string) (mn mx : Z) (ty : string) (content : list byte) :
  user_of cid (developer_clients s) = Some user →
  uploads s !! cid = Some u →
  mode u = ModeNew name description mn mx ty →
  Fs.files (fs s) !! temp_file u = Some content →
  sha256_hex content = up_checksum u →
  Forall (λ g, g_name g ≠ name) (games (db s)) →
  (user ∈ developers (db s)) →
  Developer.type_of <$> Developer.reply (Developer.handle_upload_complete sha256_hex s cid
                                                                          false)
  = Some Protocol.ERROR
  ∧ games (db (Developer.after (Developer.handle_upload_complete sha256_hex s cid false)))
    = games (db s) ++ [Game (seq_games (db s) + 1) name description (acc_id user)
                            (up_version u) mn mx ty Active 0 0%Q 0]
  ∧ game_versions (db (Developer.after (Developer.handle_upload_complete sha256_hex s cid
                                                                         false)))
    = game_versions (db s)
  ∧ Fs.files (fs (Developer.after (Developer.handle_upload_complete sha256_hex s cid false)))
      !! Developer.final_path (seq_games (db s) + 1) (up_version u)
    = Some content
  ∧ uploads (Developer.after (Developer.handle_upload_complete sha256_hex s cid false))
      !! cid
    = None.
Proof.
  intros Huser Hup Hmode Hfile Hsum Hname Hrow.
  pose proof (create_game_fresh (db s) name description (acc_id user)
                (up_version u) mn mx ty Hname (elem_has_id acc_id user _ Hrow)) as Hcreate.
  rewrite (complete_new sha256_hex s cid user u name description mn mx ty content _ _ false
             Huser Hup Hmode Hfile Hsum Hcreate).
  unfold Developer.install_upload, Fs.move. cbn [fs with_fs with_db Fs.close Fs.files].
  rewrite Hfile. cbn [negb Developer.upload_failed Developer.reply Developer.after].
  cbn [db fs uploads with_uploads with_fs with_db Fs.files].
  by rewrite lookup_insert_eq, lookup_delete_eq.
Qed.

End EdgeFacts.

(** ** An upload from its first message to its last *)

Section PipelineFacts.
Import Store Inv Server.
Context (sha256_hex : list byte → string).
Local Abbreviation reached es := (System.run sha256_hex Server.init es).
Local Abbreviation chunks_of cid hexes := ((λ h, System.UploadChunk cid (Some h)) <$> hexes).

Lemma user_of_connected (cid : string) (c : clients) (a : account) :
  user_of cid c = Some a → is_Some (client_get cid c).
Proof. unfold user_of. destruct (client_get cid c); [eauto|done]. Qed.


End PipelineFacts.

(** ** The facts above, on the example runs *)

Section StreamExamples.
Import Json Protocol Scenario.

Lemma messages_read_back_in_order_witness :
  read_from_stream (heartbeat_frame ++ game_list_frame ++ [])
  = inr (Msg HEARTBEAT (Dict []), game_list_frame ++ [])
  ∧ read_from_stream (game_list_frame ++ [])
    = inr (Msg GAME_LIST_REQUEST (Dict []), []).
Proof.
  apply (messages_read_back_in_order (Msg HEARTBEAT (Dict []))
           (Msg GAME_LIST_REQUEST (Dict [])) heartbeat_frame game_list_frame []).
  - apply ser_dict; [apply NoDup_nil_2|apply Forall_nil_2].
  - apply ser_dict; [apply NoDup_nil_2|apply Forall_nil_2].
  - reflexivity.
  - reflexivity.
Defined.

Lemma cut_frame_is_an_incomplete_read_witness :
  read_from_stream (take 7 heartbeat_frame) = inl IncompleteReadError.
Proof.
  apply (cut_frame_is_an_incomplete_read (Msg HEARTBEAT (Dict [])) heartbeat_frame 7).
  - reflexivity.
  - vm_compute. lia.
Defined.

Lemma handled_message_is_answered_witness :
  handle_client lobby_table () (game_list_frame ++ heartbeat_frame)
  = wrote (Some (Msg SUCCESS (Dict []))) (handle_client lobby_table () heartbeat_frame).
Proof.
  apply (handled_message_is_answered lobby_table GAME_LIST_REQUEST (Dict []) () ()
           game_list_frame heartbeat_frame success_frame
           (λ _ st, inr (st, Some (Msg SUCCESS (Dict [])))) (Msg SUCCESS (Dict []))).
  - reflexivity.
  - reflexivity.
  - apply ser_dict; [apply NoDup_nil_2|apply Forall_nil_2].
  - reflexivity.
  - reflexivity.
Defined.

Lemma raising_handler_ends_the_session_witness :
  handle_client raising_table () (game_list_frame ++ heartbeat_frame)
  = Session () [] ConnectionError.
Proof.
  apply (raising_handler_ends_the_session raising_table GAME_LIST_REQUEST (Dict []) ()
           game_list_frame heartbeat_frame (λ _ _, inl ConnectionError) ConnectionError).
  - reflexivity.
  - reflexivity.
  - apply ser_dict; [apply NoDup_nil_2|apply Forall_nil_2].
  - reflexivity.
Defined.

End StreamExamples.

Section ServerExamples.
Import Store Server Scenario.

Lemma completed_download_delivers_the_archive_witness :
  ∃ info content,
    (info ∈ game_versions (db (state_after player_signed_in)))
    ∧ Fs.files (fs (state_after player_signed_in)) !! gv_file_path info = Some content
    ∧ Lobby.bytes_sent_to "p"
        (Lobby.sent (Lobby.handle_download_request (state_after player_signed_in) "p"
                                                   (Some 1) None streams))
      = content
    ∧ 4 = Z.of_nat (length content)
    ∧ (Lobby.type_of ∘ snd
         <$> take 1 (Lobby.sent (Lobby.handle_download_request
                                   (state_after player_signed_in) "p" (Some 1) None
                                   streams)))
      = [Protocol.DOWNLOAD_META]
    ∧ Forall (λ m, m.1 = "p")
             (Lobby.sent (Lobby.handle_download_request (state_after player_signed_in) "p"
                                                        (Some 1) None streams)).
Proof.
  apply (completed_download_delivers_the_archive (state_after player_signed_in) "p"
           (Some 1) None streams 4).
  vm_compute. reflexivity.
Defined.

Lemma lobby_requests_need_authentication_witness :
  Lobby.handle_download_request (state_after (published ++ [System.LobbyConnect "q"])) "q"
                                (Some 1) None streams
  = Lobby.error (state_after (published ++ [System.LobbyConnect "q"])) "Not authenticated"
  ∧ Lobby.handle_create_room (state_after (published ++ [System.LobbyConnect "q"])) "q"
                             (Some 1) None None "ABCD1234"
    = Lobby.error (state_after (published ++ [System.LobbyConnect "q"])) "Not authenticated"
  ∧ Lobby.handle_join_room (state_after (published ++ [System.LobbyConnect "q"])) "q" 1
    = Lobby.error (state_after (published ++ [System.LobbyConnect "q"])) "Not authenticated"
  ∧ Lobby.handle_leave_room (state_after (published ++ [System.LobbyConnect "q"])) "q" 1
    = Lobby.error (state_after (published ++ [System.LobbyConnect "q"])) "Not authenticated"
  ∧ Lobby.handle_start_game (state_after (published ++ [System.LobbyConnect "q"])) "q" 1
                            child_runs
    = Lobby.error (state_after (published ++ [System.LobbyConnect "q"])) "Not authenticated"
  ∧ Lobby.handle_submit_review (state_after (published ++ [System.LobbyConnect "q"])) "q"
                               (Some 1) (Some 5) "fun"
    = Lobby.error (state_after (published ++ [System.LobbyConnect "q"])) "Not authenticated".
Proof.
  apply (lobby_requests_need_authentication
           (state_after (published ++ [System.LobbyConnect "q"])) "q" (Some 1) None streams
           None None "ABCD1234" 1 child_runs (Some 5) "fun").
  vm_compute. reflexivity.
Defined.

Lemma only_the_owner_changes_a_game_witness :
  Developer.handle_remove_game (state_after second_developer) "e" 1
  = Developer.error (state_after second_developer) "Game not found or not owned by you"
  ∧ Developer.handle_update_game (state_after second_developer) "e" 1 "6.6.6" "mine now"
                                 (Some 4) (Some (checksum_of "504b0708"))
    = Developer.error (state_after second_developer) "Game not found or not owned by you".
Proof.
  apply (only_the_owner_changes_a_game (state_after second_developer) "e" eve 1 pong
           "6.6.6" "mine now" (Some 4) (Some (checksum_of "504b0708"))).
  - vm_compute. reflexivity.
  - vm_compute. reflexivity.
  - vm_compute. discriminate.
Defined.

Lemma removed_game_is_gone_witness :
  Forall (λ g, Lobby.gs_id g ≠ 1)
         (Lobby.summary
            <$> Lobby.get_active_games
                  (db (Developer.after (Developer.handle_remove_game
                                          (state_after player_signed_in) "d" 1))))
  ∧ Lobby.reply
      (Lobby.handle_download_request
         (Developer.after (Developer.handle_remove_game (state_after player_signed_in) "d" 1))
         "p" (Some 1) None streams)
    = Some (Lobby.ErrorMsg "Game not available" 500)
  ∧ Lobby.reply
      (Lobby.handle_create_room
         (Developer.after (Developer.handle_remove_game (state_after player_signed_in) "d" 1))
         "p" (Some 1) None None "ABCD1234")
    = Some (Lobby.ErrorMsg "Game not available" 500).
Proof.
  apply (removed_game_is_gone (state_after player_signed_in) "d" 1
           "Game 'pong' has been removed" "p" alice None streams None None "ABCD1234").
  - vm_compute. reflexivity.
  - vm_compute. reflexivity.
Defined.

Lemma registered_player_logs_in_witness :
  Lobby.reply
    (Lobby.handle_auth Sha256.hexdigest
       (Lobby.after (Lobby.handle_register Sha256.hexdigest
                       (state_after [System.LobbyConnect "p"]) "p" (Some "alice")
                       (Some "pw")))
       "p" (Some "alice") (Some "pw") "token")
  = Some (Lobby.AuthOk 1 "alice" "token")
  ∧ Lobby.handle_register Sha256.hexdigest
      (Lobby.after (Lobby.handle_register Sha256.hexdigest
                      (state_after [System.LobbyConnect "p"]) "p" (Some "alice")
                      (Some "pw")))
      "p" (Some "alice") (Some "pw")
    = Lobby.Outcome
        (Lobby.after (Lobby.handle_register Sha256.hexdigest
                        (state_after [System.LobbyConnect "p"]) "p" (Some "alice")
                        (Some "pw")))
        (Some Lobby.RegisterFailed) [].
Proof.
  apply (registered_player_logs_in Sha256.hexdigest (state_after [System.LobbyConnect "p"])
           "p" "p" "alice" "pw" "token" 1 "alice").
  vm_compute. reflexivity.
Defined.

Lemma started_game_marks_the_room_witness :
  ∃ user room,
    user_of "p" (lobby_clients (state_after room_opened)) = Some user
    ∧ get_room (db (state_after room_opened)) 1 = Some room
    ∧ room_host_id room = acc_id user
    ∧ 9000 = Supervisor.next_port (game_manager (state_after room_opened))
    ∧ Supervisor.next_port
        (game_manager (Lobby.after (Lobby.handle_start_game (state_after room_opened) "p" 1
                                                            child_runs)))
      = 9000 + 1
    ∧ get_room (db (Lobby.after (Lobby.handle_start_game (state_after room_opened) "p" 1
                                                         child_runs))) 1
      = Some (room_set_status_port Playing 9000 room).
Proof.
  apply (started_game_marks_the_room (state_after room_opened) "p" 1 child_runs 9000).
  vm_compute. reflexivity.
Defined.



Lemma chunks_accumulate_in_order_witness :
  uploads (System.run Sha256.hexdigest (state_after upload_started)
             ((λ h, System.UploadChunk "d" (Some h)) <$> ["504b"; "0506"])) !! "d"
  = Some (Developer.upload_add_received
            (Z.of_nat (length (concat [bytes_of "504b"; bytes_of "0506"])))
            announced_upload)
  ∧ Fs.files (fs (System.run Sha256.hexdigest (state_after upload_started)
                    ((λ h, System.UploadChunk "d" (Some h)) <$> ["504b"; "0506"])))
      !! temp_file announced_upload
    = Some ([] ++ concat [bytes_of "504b"; bytes_of "0506"])
  ∧ db (System.run Sha256.hexdigest (state_after upload_started)
          ((λ h, System.UploadChunk "d" (Some h)) <$> ["504b"; "0506"]))
    = db (state_after upload_started).
Proof.
  apply (chunks_accumulate_in_order Sha256.hexdigest (state_after upload_started) "d"
           announced_upload [] ["504b"; "0506"] [bytes_of "504b"; bytes_of "0506"]).
  - vm_compute. eauto.
  - vm_compute. reflexivity.
  - apply (bool_decide_unpack _). vm_compute. exact I.
  - vm_compute. reflexivity.
  - repeat constructor; discriminate.
Defined.

Lemma package_that_does_not_extract_witness :
  Developer.type_of
    <$> Developer.reply (Developer.handle_upload_complete Sha256.hexdigest
                           (state_after upload_in_flight) "d" false)
  = Some Protocol.ERROR
  ∧ games (db (Developer.after (Developer.handle_upload_complete Sha256.hexdigest
                                  (state_after upload_in_flight) "d" false)))
    = games (db (state_after upload_in_flight))
      ++ [Game (seq_games (db (state_after upload_in_flight)) + 1) "pong" "" (acc_id dev)
               (up_version first_upload) 2 2 "cli" Active 0 0%Q 0]
  ∧ game_versions (db (Developer.after (Developer.handle_upload_complete Sha256.hexdigest
                                          (state_after upload_in_flight) "d" false)))
    = game_versions (db (state_after upload_in_flight))
  ∧ Fs.files (fs (Developer.after (Developer.handle_upload_complete Sha256.hexdigest
                                     (state_after upload_in_flight) "d" false)))
      !! Developer.final_path (seq_games (db (state_after upload_in_flight)) + 1)
                              (up_version first_upload)
    = Some (bytes_of "504b0506")
  ∧ uploads (Developer.after (Developer.handle_upload_complete Sha256.hexdigest
                                (state_after upload_in_flight) "d" false)) !! "d"
    = None.
Proof.
  apply (package_that_does_not_extract Sha256.hexdigest (state_after upload_in_flight) "d"
           dev first_upload "pong" "" 2 2 "cli" (bytes_of "504b0506")).
  - vm_compute. reflexivity.
  - vm_compute. reflexivity.
  - reflexivity.
  - vm_compute. reflexivity.
  - vm_compute. reflexivity.
  - vm_compute. apply Forall_nil_2.
  - vm_compute. apply list_elem_of_singleton. reflexivity.
Defined.


End ServerExamples.
